(** * The Kubernetes deployer of ctf-on-k8s: a shallow embedding

    This development embeds [src/deployer/kubernetes_deployer.py] (and
    the [Challenge] record of [src/deployer/scanner.py]) and states the
    properties of its reconciliation run as theorems.

    The Python program talks to three outside parties: the Kubernetes
    API server (through the three client objects [core_v1], [apps_v1],
    [autoscaling_v1]), the Docker command line (through
    [subprocess.run]) and the operator (through [input]).  They are
    modelled as follows.

    - The namespace ["ethical-hacking"] of the cluster is a record of
      four lists of stored objects.  An API call is recorded in a
      chronological trace, then either fails (an oracle [api_fails]
      stands for transient server errors, and the store itself answers
      404 or 409) or acts on the store.
    - The output of [docker images] before and after the build is a
      pair of strings supplied by the environment.
    - The operator is a list of replies consumed by [input].

    Python exceptions are values of [exn]; a computation is a function
    from the world to a result and the world it leaves behind, so that
    the calls issued before an exception stay issued. *)

From Stdlib Require Import String Ascii List ZArith Bool Arith Lia.
Import ListNotations.
Local Open Scope string_scope.
Local Open Scope list_scope.

Set Implicit Arguments.

(** ** Python strings *)

Module Py.

(** [c.lower()] on one character: the upper-case Latin letters move to
    lower case, every other byte is kept. *)
Definition lower_ascii (c : ascii) : ascii :=
  let n := nat_of_ascii c in
  if (65 <=? n)%nat && (n <=? 90)%nat then ascii_of_nat (n + 32) else c.

(** [s.lower()] *)
Fixpoint lower (s : string) : string :=
  match s with
  | EmptyString => EmptyString
  | String c s' => String (lower_ascii c) (lower s')
  end.

(** [s.startswith(p)] *)
Definition startswith (s p : string) : bool := String.prefix p s.

(** [x in l] for a list of strings *)
Definition str_in (x : string) (l : list string) : bool :=
  existsb (String.eqb x) l.

Fixpoint rev_string (acc s : string) : string :=
  match s with
  | EmptyString => acc
  | String c s' => rev_string (String c acc) s'
  end.

(** [s.split(sep)] for a non-empty separator: the text is scanned from
    the left, every occurrence of [sep] found closes the current piece
    and the scan resumes after it.  [skip] counts the characters of a
    separator still to be passed over, [cur] is the current piece,
    reversed. *)
Fixpoint split_from (sep : string) (skip : nat) (cur s : string)
  : list string :=
  match s with
  | EmptyString => [rev_string "" cur]
  | String c s' =>
      match skip with
      | S k => split_from sep k cur s'
      | O =>
          if String.prefix sep s
          then rev_string "" cur :: split_from sep (String.length sep - 1) "" s'
          else split_from sep 0 (String c cur) s'
      end
  end.

Definition split (s sep : string) : list string := split_from sep 0 "" s.

(** [s.replace(old, "")]: the pieces between the occurrences of [old],
    glued together. *)
Definition remove_all (s old : string) : string :=
  String.concat "" (split s old).

End Py.

(** ** The challenge record of the scanner *)

Module Scanner.

(** [class Challenge] of [scanner.py], without its [config]: the
    deployer never reads it. *)
Record Challenge := mkChallenge {
  name : string;
  path : string;
  port : Z;
  category : string;
  subcategory : string
}.

(** [self.id = f"{self.category}-{self.name}"] *)
Definition id (c : Challenge) : string := category c ++ "-" ++ name c.

End Scanner.

Abbreviation Challenge := Scanner.Challenge.

(** ** Kubernetes objects

    The manifests the deployer builds are nested Python dicts with a
    fixed shape; each shape is a record here.  A dict without a
    ["labels"] key in its metadata has the empty label list. *)

Definition Labels := list (string * string).

Record ObjectMeta := mkMeta {
  meta_name : string;
  meta_namespace : string;
  meta_labels : Labels
}.

Record Container := mkContainer {
  container_name : string;
  image : string;
  containerPorts : list Z
}.

Record ServicePort := mkServicePort {
  protocol : string;
  sp_port : Z;
  targetPort : Z;
  nodePort : Z
}.

Inductive Spec :=
| DeploymentSpec (replicas : Z) (matchLabels templateLabels : Labels)
                 (containers : list Container) (restartPolicy : string)
| AutoscalerSpec (targetApiVersion targetKind targetName : string)
                 (minReplicas maxReplicas targetCPUUtilizationPercentage : Z)
| ServiceSpec (type externalTrafficPolicy : string) (selector : Labels)
              (ports : list ServicePort)
| PodSpec (containers : list Container).

Record Resource := mkResource {
  apiVersion : string;
  kind : string;
  metadata : ObjectMeta;
  spec : Spec
}.

Definition res_name (r : Resource) : string := meta_name (metadata r).

(** [pod.spec.containers] *)
Definition spec_containers (r : Resource) : list Container :=
  match spec r with
  | DeploymentSpec _ _ _ cs _ => cs
  | PodSpec cs => cs
  | _ => []
  end.

Fixpoint label_get (k : string) (l : Labels) : option string :=
  match l with
  | [] => None
  | (k', v) :: l' => if String.eqb k k' then Some v else label_get k l'
  end.

(** A label selector ["key=value"] selects the objects whose metadata
    carries the label [key] with the value [value]. *)
Definition selects (sel : string * string) (r : Resource) : bool :=
  match label_get (fst sel) (meta_labels (metadata r)) with
  | Some v => String.eqb v (snd sel)
  | None => false
  end.

(** ** Constants of the deployer *)

Definition DEFAULT_INTERNAL_PORT : Z := 5000.
Definition REGISTRY : string := "registry.local:5000/".
Definition NAMESPACE : string := "ethical-hacking".
Definition MANAGED_BY : string := "securitylab.disi.unitn.it/managed-by".

(** The line feed of ["\n"]. *)
Definition NEWLINE : string := String (ascii_of_nat 10) "".

(** [label_selector="securitylab.disi.unitn.it/managed-by=true"] *)
Definition MANAGED : string * string := (MANAGED_BY, "true").

(** The management label on an object's own metadata. *)
Definition managed (r : Resource) : bool := selects MANAGED r.

(** ** The cluster and the API *)

Inductive ResKind := Deployments | Services | Autoscalers | Pods.

Definition ResKind_eqb (a b : ResKind) : bool :=
  match a, b with
  | Deployments, Deployments | Services, Services
  | Autoscalers, Autoscalers | Pods, Pods => true
  | _, _ => false
  end.

(** The objects of the namespace ["ethical-hacking"], in the order the
    API lists them. *)
Record Cluster := mkCluster {
  deployments : list Resource;
  services : list Resource;
  autoscalers : list Resource;
  pods : list Resource
}.

Definition stored (k : ResKind) (c : Cluster) : list Resource :=
  match k with
  | Deployments => deployments c
  | Services => services c
  | Autoscalers => autoscalers c
  | Pods => pods c
  end.

Definition store (k : ResKind) (l : list Resource) (c : Cluster) : Cluster :=
  match k with
  | Deployments => mkCluster l (services c) (autoscalers c) (pods c)
  | Services => mkCluster (deployments c) l (autoscalers c) (pods c)
  | Autoscalers => mkCluster (deployments c) (services c) l (pods c)
  | Pods => mkCluster (deployments c) (services c) (autoscalers c) l
  end.

Definition named (n : string) (r : Resource) : bool :=
  String.eqb (res_name r) n.

Definition present (n : string) (l : list Resource) : bool :=
  existsb (named n) l.

(** The three client objects of the [kubernetes] package, and the
    kinds each one has methods for: [CoreV1Api] serves services and
    pods, [AppsV1Api] deployments, [AutoscalingV1Api] autoscalers.  A
    method looked up on another client does not exist. *)
Inductive Client := core_v1 | apps_v1 | autoscaling_v1.

Definition serves (cl : Client) (k : ResKind) : bool :=
  match cl, k with
  | core_v1, Services | core_v1, Pods => true
  | apps_v1, Deployments => true
  | autoscaling_v1, Autoscalers => true
  | _, _ => false
  end.

Inductive ApiCall :=
| read_namespaced (k : ResKind) (n : string)
| replace_namespaced (k : ResKind) (n : string) (body : Resource)
| create_namespaced (k : ResKind) (body : Resource)
| delete_namespaced (k : ResKind) (n : string)
| list_namespaced (k : ResKind) (label_selector : option (string * string)).

(** ** The world, exceptions and computations *)

Inductive Prompt :=
| PressEnter
| ConfirmDelete (what : string) (names : list string).

Inductive Event :=
| EvInput (p : Prompt)
| EvApi (cl : Client) (c : ApiCall)
| EvShell (cmd : string).

Inductive Reply := Line (s : string) | CtrlC.

Record World := mkWorld {
  cluster : Cluster;
  trace : list Event;
  stdin : list Reply
}.

Inductive exn :=
| KeyboardInterrupt
| EOFError
| NameError (var : string)
| AttributeError (cl : Client) (c : ApiCall)
| IndexError
| ValueError
| ApiException (status : Z).

Inductive result (A : Type) :=
| Ok (a : A)
| Raise (e : exn).
Arguments Ok {A} a.
Arguments Raise {A} e.

Definition M (A : Type) : Type := World -> result A * World.

Definition ret {A} (a : A) : M A := fun w => (Ok a, w).

Definition raise {A} (e : exn) : M A := fun w => (Raise e, w).

Definition bind {A B} (m : M A) (f : A -> M B) : M B :=
  fun w =>
    match m w with
    | (Ok a, w') => f a w'
    | (Raise e, w') => (Raise e, w')
    end.

Notation "x <- m ;; k" := (bind m (fun x => k))
  (at level 61, m at next level, right associativity).
Notation "m ;;; k" := (bind m (fun _ => k))
  (at level 61, right associativity).

(** [except Exception]: every exception of the model is an [Exception]
    but [KeyboardInterrupt]. *)
Definition is_Exception (e : exn) : bool :=
  match e with
  | KeyboardInterrupt => false
  | _ => true
  end.

(** [try: m / except Exception: h] *)
Definition try_except {A} (m : M A) (h : exn -> M A) : M A :=
  fun w =>
    match m w with
    | (Ok a, w') => (Ok a, w')
    | (Raise e, w') => if is_Exception e then h e w' else (Raise e, w')
    end.

(** The world once an event is on its trace. *)
Definition logged (e : Event) (w : World) : World :=
  mkWorld (cluster w) (trace w ++ [e]) (stdin w).

Definition emit (e : Event) : M unit := fun w => (Ok tt, logged e w).

Definition get_cluster : M Cluster := fun w => (Ok (cluster w), w).

Definition put_cluster (c : Cluster) : M unit :=
  fun w => (Ok tt, mkWorld c (trace w) (stdin w)).

(** [input(prompt)]: the prompt is shown, then the next reply read. *)
Definition input (p : Prompt) : M string :=
  emit (EvInput p) ;;;
  fun w =>
    match stdin w with
    | [] => (Raise EOFError, w)
    | Line s :: rest => (Ok s, mkWorld (cluster w) (trace w) rest)
    | CtrlC :: rest => (Raise KeyboardInterrupt, mkWorld (cluster w) (trace w) rest)
    end.

(** [for x in l: body x] *)
Fixpoint for_each {A} (l : list A) (body : A -> M unit) : M unit :=
  match l with
  | [] => ret tt
  | x :: l' => body x ;;; for_each l' body
  end.

(** ** The manifests of a challenge

    The three dict literals of [main]. *)

Definition deployment_manifest (challenge : Challenge) : Resource :=
  let id := Scanner.id challenge in
  mkResource "apps/v1" "Deployment"
    (mkMeta id NAMESPACE [])
    (DeploymentSpec 1
       [("challenge", id)]
       [(MANAGED_BY, "true"); ("challenge", id)]
       [mkContainer id (REGISTRY ++ id) [DEFAULT_INTERNAL_PORT]]
       "Always").

Definition hpa_manifest (challenge : Challenge) : Resource :=
  let id := Scanner.id challenge in
  mkResource "autoscaling/v1" "HorizontalPodAutoscaler"
    (mkMeta id NAMESPACE [(MANAGED_BY, "true")])
    (AutoscalerSpec "apps/v1" "Deployment" id 1 10 80).

Definition service_manifest (challenge : Challenge) : Resource :=
  let id := Scanner.id challenge in
  mkResource "v1" "Service"
    (mkMeta id NAMESPACE [(MANAGED_BY, "true")])
    (ServiceSpec "LoadBalancer" "Local"
       [("challenge", id)]
       [mkServicePort "TCP" (Scanner.port challenge)
          DEFAULT_INTERNAL_PORT (Scanner.port challenge)]).

(** ** Sample inputs

    The inputs at which the statements below are evaluated. *)

Module Sample.

Definition no_api_failure : Client -> ApiCall -> bool := fun _ _ => false.

Definition every_path_exists : string -> bool := fun _ => true.

Definition web_01_ctf : Challenge :=
  Scanner.mkChallenge "01-ctf" "/srv/challenges/01_web/0_easy/01_ctf" 10101
    "web" "easy".

(** A deployment made by hand, without the management label. *)
Definition handmade : Resource :=
  mkResource "apps/v1" "Deployment"
    (mkMeta "handmade" NAMESPACE [])
    (DeploymentSpec 1 [("app", "handmade")] [("app", "handmade")]
       [mkContainer "handmade" "nginx" [80%Z]] "Always").

(** A running pod of the challenge, as its deployment creates it. *)
Definition web_pod : Resource :=
  mkResource "v1" "Pod"
    (mkMeta "web-01-ctf-7d9f" NAMESPACE
       [(MANAGED_BY, "true"); ("challenge", "web-01-ctf")])
    (PodSpec [mkContainer "web-01-ctf" "registry.local:5000/web-01-ctf"
                [5000%Z]]).

Definition images_AAA : string :=
  "registry.local:5000/web-01-ctf__:__sha256:AAA" ++ NEWLINE.

Definition images_BBB : string :=
  "registry.local:5000/web-01-ctf__:__sha256:BBB" ++ NEWLINE.

(** A listing with two lines for the repository: the image tagged
    last and an older one. *)
Definition images_two : string :=
  "registry.local:5000/web-01-ctf__:__sha256:AAA" ++ NEWLINE ++
  "registry.local:5000/web-01-ctf__:__sha256:BBB" ++ NEWLINE.

(** A cluster with the hand-made deployment and the running pod; the
    operator confirms the run and approves two batches. *)
Definition world_rebuild : World :=
  mkWorld (mkCluster [handmade] [] [] [web_pod]) []
    [Line ""; Line "y"; Line "y"].

(** An autoscaler left in the namespace. *)
Definition old_hpa : Resource :=
  mkResource "autoscaling/v1" "HorizontalPodAutoscaler"
    (mkMeta "old-hpa" NAMESPACE [(MANAGED_BY, "true")])
    (AutoscalerSpec "apps/v1" "Deployment" "old-hpa" 1 10 80).

(** The operator confirms the run and approves the one batch. *)
Definition world_hpa : World :=
  mkWorld (mkCluster [] [] [old_hpa] []) [] [Line ""; Line "y"].

(** A managed pod whose first container is a proxy and whose second
    container runs the image of the challenge. *)
Definition proxied_pod : Resource :=
  mkResource "v1" "Pod"
    (mkMeta "web-01-ctf-proxied" NAMESPACE
       [(MANAGED_BY, "true"); ("challenge", "web-01-ctf")])
    (PodSpec [mkContainer "proxy" "envoy" [8080%Z];
              mkContainer "web-01-ctf" "registry.local:5000/web-01-ctf"
                [5000%Z]]).

Definition world_pods : World :=
  mkWorld (mkCluster [] [] [] [web_pod; proxied_pod]) [] [Line "y"].

(** A deployment and a service that carry the management label, and a
    service that does not. *)
Definition labelled_deployment : Resource :=
  mkResource "apps/v1" "Deployment"
    (mkMeta "pwn-02-heap" NAMESPACE [(MANAGED_BY, "true")])
    (DeploymentSpec 1 [("challenge", "pwn-02-heap")]
       [(MANAGED_BY, "true"); ("challenge", "pwn-02-heap")]
       [mkContainer "pwn-02-heap" "registry.local:5000/pwn-02-heap" [5000%Z]]
       "Always").




(** Only the proxied pod runs; the operator confirms the run. *)
Definition world_proxied : World :=
  mkWorld (mkCluster [] [] [] [proxied_pod]) [] [Line ""; Line "y"].



(** An empty namespace; the operator confirms the run. *)
Definition world_empty : World :=
  mkWorld (mkCluster [] [] [] []) [] [Line ""].

(** The namespace as a first run on the empty namespace leaves it, at
    the start of a second run. *)
Definition world_second : World :=
  mkWorld
    (mkCluster [deployment_manifest web_01_ctf] [service_manifest web_01_ctf]
       [] [])
    [] [Line ""].

(** A server that fails every read of a deployment and no other call. *)
Definition read_fails : Client -> ApiCall -> bool :=
  fun _ c =>
    match c with
    | read_namespaced Deployments _ => true
    | _ => false
    end.

(** The hand-made deployment alone; the operator answers with a
    capital letter. *)
Definition world_capital : World :=
  mkWorld (mkCluster [handmade] [] [] []) [] [Line "Y"].

(** The hand-made deployment alone; the operator interrupts. *)
Definition world_interrupted : World :=
  mkWorld (mkCluster [handmade] [] [] []) [] [CtrlC].

(** A listing with a line that has no separator. *)
Definition images_warning : string :=
  "WARNING: no digest" ++ NEWLINE ++ images_AAA.

(** A server that fails the deletion of one deployment. *)
Definition delete_fails : Client -> ApiCall -> bool :=
  fun _ c =>
    match c with
    | delete_namespaced Deployments n => String.eqb n "pwn-02-heap"
    | _ => false
    end.

(** Two deployments; the operator approves. *)
Definition world_two : World :=
  mkWorld (mkCluster [handmade; labelled_deployment] [] [] []) []
    [Line "y"].

End Sample.

(** ** The scanner

    [main] of [src/deployer/scanner.py] walks the challenges folder,
    three levels deep, and returns one [Challenge] per challenge
    folder.  The file system is an environment: what [os.listdir]
    returns for a path ([None] when it raises), whether a path is a
    directory, the directory of the script, what [os.path.abspath]
    makes of a path, and how the [try] block that loads [config.yaml]
    ends.  The messages printed before [sys.exit(1)] are not modelled.
    Strings are byte strings: [lower] and the substitution act on the
    characters of ASCII names as Python does. *)

Module Scan.

Definition CALLENGES_FOLDER : string := "../challenges".

Definition is_digit (c : ascii) : bool :=
  (48 <=? nat_of_ascii c)%nat && (nat_of_ascii c <=? 57)%nat.

(** The group [(.+)] that ends the three patterns, under [match]: the
    longest run of characters other than the line feed, which must not
    be empty. *)
Fixpoint dot_star (s : string) : string :=
  match s with
  | EmptyString => EmptyString
  | String c s' =>
      if Ascii.eqb c (ascii_of_nat 10) then EmptyString
      else String c (dot_star s')
  end.

Definition dot_plus (s : string) : option string :=
  match dot_star s with
  | EmptyString => None
  | g => Some g
  end.

(** [re.compile(r"([0-9]{2})_(.+)").match(s)]: the two groups, or
    [None]. *)
Definition CATEGORY_REGEX (s : string) : option (string * string) :=
  match s with
  | String a (String b (String u rest)) =>
      if is_digit a && is_digit b && Ascii.eqb u "_"
      then match dot_plus rest with
           | Some g => Some (String a (String b EmptyString), g)
           | None => None
           end
      else None
  | _ => None
  end.

(** [re.compile(r"([0-9]{1})_(.+)").match(s)] *)
Definition SUBCATEGORY_REGEX (s : string) : option (string * string) :=
  match s with
  | String a (String u rest) =>
      if is_digit a && Ascii.eqb u "_"
      then match dot_plus rest with
           | Some g => Some (String a EmptyString, g)
           | None => None
           end
      else None
  | _ => None
  end.

Definition CHALLENGE_REGEX (s : string) : option (string * string) :=
  match s with
  | String a (String b (String u rest)) =>
      if is_digit a && is_digit b && Ascii.eqb u "_"
      then match dot_plus rest with
           | Some g => Some (String a (String b EmptyString), g)
           | None => None
           end
      else None
  | _ => None
  end.

(** [int(s)] on a string of decimal digits. *)
Definition digit_value (c : ascii) : Z := Z.of_nat (nat_of_ascii c) - 48.

Fixpoint int_from (acc : Z) (s : string) : Z :=
  match s with
  | EmptyString => acc
  | String c s' => int_from (10 * acc + digit_value c) s'
  end.

Definition int (s : string) : Z := int_from 0 s.

(** [re.sub(r"[^a-z0-9]", "-", s.lower())] *)
Definition is_lower_alnum (c : ascii) : bool :=
  ((97 <=? nat_of_ascii c)%nat && (nat_of_ascii c <=? 122)%nat) || is_digit c.

Fixpoint sub_dash (s : string) : string :=
  match s with
  | EmptyString => EmptyString
  | String c s' =>
      String (if is_lower_alnum c then c else "-"%char) (sub_dash s')
  end.

Definition normalise (s : string) : string := sub_dash (Py.lower s).

(** [os.path.join(a, *p)] of [posixpath]. *)
Fixpoint endswith_sep (s : string) : bool :=
  match s with
  | EmptyString => false
  | String c EmptyString => Ascii.eqb c "/"
  | String _ s' => endswith_sep s'
  end.

Definition join1 (path b : string) : string :=
  if Py.startswith b "/" then b
  else if String.eqb path "" || endswith_sep path then path ++ b
  else path ++ "/" ++ b.

Definition join (a : string) (p : list string) : string :=
  fold_left join1 p a.

(** How the [try] block that reads and parses [config.yaml] ends: with
    a configuration, in one of the two exceptions that [main] catches,
    or in another one. *)
Inductive ConfigLoad := Loaded | FileNotFoundError | ScannerError | OtherError.

(** How a scan ends when it does not return: [sys.exit(code)], an
    [OSError] of [os.listdir], or an exception of the [try] block that
    [main] does not catch. *)
Inductive Abort := SystemExit (code : Z) | OSError | ConfigError.

Inductive outcome (A : Type) : Type :=
| Returned (a : A)
| Aborted (e : Abort).

Arguments Returned {A} a.
Arguments Aborted {A} e.

Section Walk.

Variable os_listdir : string -> option (list string).
Variable os_path_isdir : string -> bool.
Variable script_dir : string.
Variable os_path_abspath : string -> string.
Variable load_config : string -> ConfigLoad.

(** [[f for f in os.listdir(os.path.join(a, *p))
      if os.path.isdir(os.path.join(a, *p, f))]] *)
Definition dirs (a : string) (p : list string) : outcome (list string) :=
  match os_listdir (join a p) with
  | None => Aborted OSError
  | Some l => Returned (filter (fun f => os_path_isdir (join a (p ++ [f]))) l)
  end.

(** The loop over the challenge folders of one subcategory.  It appends
    to [challs] and rebinds [category_name] and [subcategory_name],
    which outlive it. *)
Fixpoint challenge_loop
  (challenges_folder category subcategory category_id subcategory_id : string)
  (subfolders : list string) (category_name subcategory_name : string)
  (challs : list Challenge)
  : outcome (string * string * list Challenge) :=
  match subfolders with
  | [] => Returned (category_name, subcategory_name, challs)
  | challenge :: rest =>
      match CHALLENGE_REGEX challenge with
      | None => Aborted (SystemExit 1)
      | Some (challenge_id, _) =>
          let challenge_path :=
            join challenges_folder [category; subcategory; challenge] in
          let challenge_port :=
            int (category_id ++ subcategory_id ++ challenge_id) in
          match load_config (join challenge_path ["config.yaml"]) with
          | FileNotFoundError => Aborted (SystemExit 1)
          | ScannerError => Aborted (SystemExit 1)
          | OtherError => Aborted ConfigError
          | Loaded =>
              let absolute_path := os_path_abspath challenge_path in
              let challenge_name := normalise challenge in
              let category_name := normalise category_name in
              let subcategory_name := normalise subcategory_name in
              challenge_loop challenges_folder category subcategory
                category_id subcategory_id rest
                category_name subcategory_name
                (challs ++
                   [Scanner.mkChallenge challenge_name absolute_path
                      challenge_port category_name subcategory_name])
          end
      end
  end.

(** The loop over the subcategory folders of one category. *)
Fixpoint subcategory_loop (challenges_folder category category_id : string)
  (subfolders : list string) (category_name : string)
  (challs : list Challenge) : outcome (string * list Challenge) :=
  match subfolders with
  | [] => Returned (category_name, challs)
  | subcategory :: rest =>
      match SUBCATEGORY_REGEX subcategory with
      | None => Aborted (SystemExit 1)
      | Some (subcategory_id, subcategory_name) =>
          match dirs challenges_folder [category; subcategory] with
          | Aborted e => Aborted e
          | Returned inner =>
              match challenge_loop challenges_folder category subcategory
                      category_id subcategory_id inner
                      category_name subcategory_name challs with
              | Aborted e => Aborted e
              | Returned (category_name', _, challs') =>
                  subcategory_loop challenges_folder category category_id
                    rest category_name' challs'
              end
          end
      end
  end.

(** The loop over the category folders. *)
Fixpoint category_loop (challenges_folder : string) (folders : list string)
  (challs : list Challenge) : outcome (list Challenge) :=
  match folders with
  | [] => Returned challs
  | category :: rest =>
      match CATEGORY_REGEX category with
      | None => Aborted (SystemExit 1)
      | Some (category_id, category_name) =>
          match dirs challenges_folder [category] with
          | Aborted e => Aborted e
          | Returned subfolders =>
              match subcategory_loop challenges_folder category category_id
                      subfolders category_name challs with
              | Aborted e => Aborted e
              | Returned (_, challs') =>
                  category_loop challenges_folder rest challs'
              end
          end
      end
  end.

Definition main (challenges_folder : string) : outcome (list Challenge) :=
  let challenges_folder := join script_dir [challenges_folder] in
  match dirs challenges_folder [] with
  | Aborted e => Aborted e
  | Returned folders => category_loop challenges_folder folders []
  end.

(** *** Vocabulary of the statements about the scanner *)

Definition group1 (m : option (string * string)) : string :=
  match m with
  | Some (g, _) => g
  | None => EmptyString
  end.

Definition group2 (m : option (string * string)) : string :=
  match m with
  | Some (_, g) => g
  | None => EmptyString
  end.

Definition matches (m : option (string * string)) : bool :=
  match m with
  | Some _ => true
  | None => false
  end.

(** The directories of a folder, none when it cannot be listed. *)
Definition listing (a : string) (p : list string) : list string :=
  match dirs a p with
  | Returned l => l
  | Aborted _ => []
  end.

Definition listable (a : string) (p : list string) : bool :=
  match os_listdir (join a p) with
  | Some _ => true
  | None => false
  end.

(** The challenge of one challenge folder, from the names of the three
    folders on its path. *)
Definition challenge_of (challenges_folder category subcategory challenge
  : string) : Challenge :=
  Scanner.mkChallenge
    (normalise challenge)
    (os_path_abspath
       (join challenges_folder [category; subcategory; challenge]))
    (int (group1 (CATEGORY_REGEX category)
            ++ group1 (SUBCATEGORY_REGEX subcategory)
            ++ group1 (CHALLENGE_REGEX challenge)))
    (normalise (group2 (CATEGORY_REGEX category)))
    (normalise (group2 (SUBCATEGORY_REGEX subcategory))).

(** One challenge per challenge folder, in the order of the listings. *)
Definition challenges_of (challenges_folder : string) : list Challenge :=
  flat_map
    (fun category =>
       flat_map
         (fun subcategory =>
            map (challenge_of challenges_folder category subcategory)
              (listing challenges_folder [category; subcategory]))
         (listing challenges_folder [category]))
    (listing challenges_folder []).

(** The name of a challenge folder fits its pattern and its
    configuration loads. *)
Definition valid_challenge (challenges_folder category subcategory challenge
  : string) : bool :=
  matches (CHALLENGE_REGEX challenge) &&
  match load_config
          (join (join challenges_folder [category; subcategory; challenge])
             ["config.yaml"]) with
  | Loaded => true
  | _ => false
  end.

Definition valid_subcategory (challenges_folder category subcategory : string)
  : bool :=
  matches (SUBCATEGORY_REGEX subcategory) &&
  listable challenges_folder [category; subcategory] &&
  forallb (valid_challenge challenges_folder category subcategory)
    (listing challenges_folder [category; subcategory]).

Definition valid_category (challenges_folder category : string) : bool :=
  matches (CATEGORY_REGEX category) &&
  listable challenges_folder [category] &&
  forallb (valid_subcategory challenges_folder category)
    (listing challenges_folder [category]).

(** Every folder of the three levels can be listed, every name fits
    the pattern of its level and every configuration loads. *)
Definition valid_tree (challenges_folder : string) : bool :=
  listable challenges_folder [] &&
  forallb (valid_category challenges_folder) (listing challenges_folder []).

(** The ways a scan ends without a list: [sys.exit(1)]; an exception
    that [main] does not catch, raised by the loading of some
    configuration; an [OSError], raised by some listing. *)
Definition aborts_for (e : Abort) : Prop :=
  e = SystemExit 1 \/
  (e = ConfigError /\ exists p, load_config p = OtherError) \/
  (e = OSError /\ exists p, os_listdir p = None).

End Walk.

(** The characters of the result of the substitution. *)
Definition is_name_char (c : ascii) : bool :=
  is_lower_alnum c || Ascii.eqb c "-".

Fixpoint all_chars (f : ascii -> bool) (s : string) : bool :=
  match s with
  | EmptyString => true
  | String c s' => f c && all_chars f s'
  end.

End Scan.

(** A challenges folder with one category, two subcategories and three
    challenges, beside the script. *)
Module SampleTree.

Definition script_dir : string := "/opt/ctf/deployer".

Definition root : string := "/opt/ctf/deployer/../challenges".

Definition os_listdir (p : string) : option (list string) :=
  if String.eqb p root then Some ["01_Web"; "README.md"]
  else if String.eqb p (root ++ "/01_Web") then Some ["0_Easy"; "1_Hard"]
  else if String.eqb p (root ++ "/01_Web/0_Easy") then Some ["01_ctf"]
  else if String.eqb p (root ++ "/01_Web/1_Hard")
       then Some ["01_ctf"; "02_Sql Injection"]
  else None.

Definition os_path_isdir (p : string) : bool :=
  negb (String.eqb p (root ++ "/README.md")).

(** [os.path.abspath] on the paths under [root]. *)
Definition os_path_abspath (p : string) : string :=
  if String.prefix "/opt/ctf/deployer/../" p
  then "/opt/ctf/" ++ String.substring 21 (String.length p - 21) p
  else p.

Definition load_config (p : string) : Scan.ConfigLoad := Scan.Loaded.

(** The same folder with a challenge folder whose name has one digit. *)
Definition os_listdir_bad (p : string) : option (list string) :=
  if String.eqb p (root ++ "/01_Web/1_Hard")
  then Some ["01_ctf"; "2_sqli"]
  else os_listdir p.

(** Every challenge folder but the first has a Dockerfile. *)
Definition os_path_exists (p : string) : bool :=
  negb (String.eqb p "/opt/ctf/challenges/01_Web/0_Easy/01_ctf/Dockerfile").

End SampleTree.
(** ** The CTFd synchroniser

    [src/deployer/ctfd_deploy.py] brings the challenges of a CTFd
    server in line with the scanned ones through the REST interface of
    the server.  The server is an environment: a reply for every
    request, which may depend on the requests and prompts so far.  A
    request is kept by its method, the resource it addresses and what
    it carries; an identifier formatted into a URL or a body is kept as
    the value it is.  The fields of a configuration have the types the
    class [ChallengeConfig] declares.  Logging is not modelled. *)

From Stdlib Require Import DecimalString.

Module Ctfd.

(** *** Values *)

(** A decoded JSON document.  The program never computes with a
    number. *)
#[warnings="-register-all"]
Inductive Json :=
| JNull
| JBool (b : bool)
| JNum (n : Z)
| JStr (s : string)
| JList (items : list Json)
| JObject (fields : list (string * Json)).

Inductive Exn :=
| KeyError
| TypeError
| IndexError
| AttributeError
| JSONDecodeError
| RequestException
| OSError
| EOFError
| KeyboardInterrupt
| SystemExit (code : Z).

Inductive result (A : Type) : Type :=
| Ok (a : A)
| Raise (e : Exn).

Arguments Ok {A} a.
Arguments Raise {A} e.

Fixpoint field (key : string) (fields : list (string * Json))
  : option Json :=
  match fields with
  | [] => None
  | (k, v) :: rest => if String.eqb key k then Some v else field key rest
  end.

(** [value[key]] for a key that is a [str] *)
Definition subscript (value : Json) (key : string) : result Json :=
  match value with
  | JObject fields =>
      match field key fields with
      | Some v => Ok v
      | None => Raise KeyError
      end
  | _ => Raise TypeError
  end.

Fixpoint characters (s : string) : list Json :=
  match s with
  | EmptyString => []
  | String c s' => JStr (String c EmptyString) :: characters s'
  end.

(** [len(value)] *)
Definition len (value : Json) : result nat :=
  match value with
  | JList items => Ok (List.length items)
  | JStr s => Ok (String.length s)
  | JObject fields => Ok (List.length fields)
  | _ => Raise TypeError
  end.

(** [value[0]] *)
Definition first (value : Json) : result Json :=
  match value with
  | JList (item :: _) => Ok item
  | JList [] => Raise IndexError
  | JStr (String c _) => Ok (JStr (String c EmptyString))
  | JStr EmptyString => Raise IndexError
  | JObject _ => Raise KeyError
  | _ => Raise TypeError
  end.

(** [for x in value] *)
Definition iterate (value : Json) : result (list Json) :=
  match value with
  | JList items => Ok items
  | JStr s => Ok (characters s)
  | JObject fields => Ok (map (fun kv => JStr (fst kv)) fields)
  | _ => Raise TypeError
  end.

(** *** Strings *)

Definition is_upper (c : ascii) : bool :=
  (65 <=? nat_of_ascii c)%nat && (nat_of_ascii c <=? 90)%nat.

Definition is_lower (c : ascii) : bool :=
  (97 <=? nat_of_ascii c)%nat && (nat_of_ascii c <=? 122)%nat.

Definition upper_ascii (c : ascii) : ascii :=
  if is_lower c then ascii_of_nat (nat_of_ascii c - 32) else c.

(** [s.title()] *)
Fixpoint title_from (previous_is_cased : bool) (s : string) : string :=
  match s with
  | EmptyString => EmptyString
  | String c s' =>
      String (if previous_is_cased then Py.lower_ascii c else upper_ascii c)
        (title_from (is_upper c || is_lower c) s')
  end.

Definition title (s : string) : string := title_from false s.

(** [s.replace(old, new)] for an [old] that is not empty *)
Definition replace (s old new : string) : string :=
  String.concat new (Py.split s old).

(** [str(n)] *)
Definition str (n : Z) : string := NilZero.string_of_int (Z.to_int n).

(** [os.path.basename(p)] *)
Definition basename (p : string) : string :=
  List.last (Py.split p "/") EmptyString.

(** [CHALL_ID_REGEX = re.compile(r"\[\]\(ID:(.+)\)")].  At a place
    where the text goes on with ["[](ID:"], the group is what follows
    up to the last [")"] of the line, and must not be empty. *)
Definition ID_OPEN : string := "[](ID:".

Fixpoint before_last_paren (line : string) : option string :=
  match line with
  | EmptyString => None
  | String c rest =>
      match before_last_paren rest with
      | Some g => Some (String c g)
      | None => if Ascii.eqb c ")" then Some EmptyString else None
      end
  end.

Definition group_at (rest : string) : option string :=
  match before_last_paren (Scan.dot_star rest) with
  | Some EmptyString => None
  | Some g => Some g
  | None => None
  end.

Fixpoint drop (n : nat) (s : string) : string :=
  match n, s with
  | O, _ => s
  | S n', String _ s' => drop n' s'
  | S _, EmptyString => EmptyString
  end.

(** [CHALL_ID_REGEX.search(s)]: group 1 of the leftmost match, or
    [None]. *)
Fixpoint search (s : string) : option string :=
  match s with
  | EmptyString => None
  | String c rest =>
      if String.prefix ID_OPEN s
      then match group_at (drop 6 s) with
           | Some g => Some g
           | None => search rest
           end
      else search rest
  end.

(** *** Challenges *)

Record Hint := mkHint {
  text : string;
  points : Z
}.

(** The fields of [ChallengeConfig] that the synchroniser reads. *)
Record ChallengeConfig := mkConfig {
  config_title : string;
  config_description : string;
  config_connection_info : string;
  config_flag : string;
  config_points : Z;
  config_author : string;
  config_public : option (list string);
  config_type : string;
  config_requires : option (list string);
  config_hints : list Hint
}.

(** A challenge with its configuration. *)
Record Configured := mkConfigured {
  challenge : Challenge;
  config : ChallengeConfig
}.

Definition id (c : Configured) : string := Scanner.id (challenge c).

(** *** Requests *)

Inductive Method := GET | POST | PATCH | DELETE.

(** The resources under [https://{CTFD_HOST}/api/v1/]. *)
Inductive Endpoint :=
| challenges_
| challenges_id (challenge_id : Json)
| challenges_id_hints (challenge_id : Json)
| challenges_id_flags (challenge_id : Json)
| challenges_id_files (challenge_id : Json)
| hints_
| flags_
| flags_id (flag_id : Json)
| files_
| files_id (file_id : Json).

Inductive Scoring :=
| dynamic (initial : Z) (function : string) (decay : Z) (minimum : Z)
| standard (value : Z).

(** The dict [body] of [deploy_challenge]; [state] is [None] once it
    is popped. *)
Record Body := mkBody {
  body_name : string;
  body_category : string;
  body_description : string;
  body_connection_info : string;
  body_state : option string;
  body_max_attempts : Z;
  body_scoring : Scoring
}.

Inductive Payload :=
| nothing
| params_view (view : string)
| hint_json (challenge_id : Json) (content : string) (cost : string)
    (prerequisites : list Json)
| flag_json (challenge_id : Json) (content : string)
| flag_content (content : string)
| file_upload (challenge_id : Json) (name : string) (path : string)
| requirements (prerequisites : list Json)
| challenge_json (body : Body).

(** The headers of a request: the token and, where it is given, the
    content type. *)
Record Headers := mkHeaders {
  Authorization : string;
  Content_Type : option string
}.

Record Request := mkRequest {
  method : Method;
  endpoint : Endpoint;
  payload : Payload;
  headers : Headers
}.

(** The dict [HEADERS], built when the module is loaded, from the key
    that the environment holds then. *)
Definition HEADERS (key_at_import : string) : Headers :=
  mkHeaders ("Token " ++ key_at_import) (Some "application/json").

(** [if args.key is not None: CTFD_API_KEY = args.key], from the block
    under [if __name__ == "__main__"]: the key that the global
    [CTFD_API_KEY] holds once the arguments are read. *)
Definition key_after_arguments (key_at_import : string)
  (args_key : option string) : string :=
  match args_key with
  | Some key => key
  | None => key_at_import
  end.

(** What [requests] makes of a request: an exception, or a response
    with its status code and, when the body decodes, its JSON
    document. *)
Inductive Served :=
| no_response
| response (status_code : Z) (json : option Json).

(** What has happened so far: the requests sent and the prompts shown,
    each with the reply read ([None] at the end of the input). *)
Inductive Step :=
| Sent (r : Request)
| Asked (challenge_id : Json) (answer : option Reply).

Record State := mkState {
  log : list Step;
  stdin : list Reply
}.

Definition C (A : Type) : Type := State -> result A * State.

Definition ret {A} (a : A) : C A := fun s => (Ok a, s).

Definition raise {A} (e : Exn) : C A := fun s => (Raise e, s).

Definition bind {A B} (m : C A) (f : A -> C B) : C B :=
  fun s =>
    match m s with
    | (Ok a, s') => f a s'
    | (Raise e, s') => (Raise e, s')
    end.

Definition lift {A} (r : result A) : C A := fun s => (r, s).

Notation "x <~ m ;; k" := (bind m (fun x => k))
  (at level 61, m at next level, right associativity).
Notation "m ;;~ k" := (bind m (fun _ => k))
  (at level 61, right associativity).

(** A dict from [str] to identifiers, in insertion order. *)
Definition Ids := list (string * Json).

Fixpoint get (key : string) (d : Ids) : option Json :=
  match d with
  | [] => None
  | (k, v) :: d' => if String.eqb key k then Some v else get key d'
  end.

(** [d[key] = value] *)
Fixpoint set (key : string) (value : Json) (d : Ids) : Ids :=
  match d with
  | [] => [(key, value)]
  | (k, v) :: d' =>
      if String.eqb key k then (k, value) :: d' else (k, v) :: set key value d'
  end.

(** [d.pop(key)] for a key of [d] *)
Fixpoint pop (key : string) (d : Ids) : Ids :=
  match d with
  | [] => []
  | (k, v) :: d' => if String.eqb key k then d' else (k, v) :: pop key d'
  end.

Section Sync.

(** The server, the host name of the challenges and the files that
    [open] can read. *)
Variable server : list Step -> Request -> Served.
Variable CHALLENGES_HOST : string.
Variable can_open : string -> bool.

(** The key of the environment when the module is loaded, and the
    global [CTFD_API_KEY] when the functions run. *)
Variable key_at_import : string.
Variable CTFD_API_KEY : string.

Record Response := mkResponse {
  status_code : Z;
  body : option Json
}.

(** [requests.get], [requests.post], [requests.patch] and
    [requests.delete] *)
Definition send_with (h : Headers) (m : Method) (e : Endpoint) (p : Payload)
  : C Response :=
  fun s =>
    let r := mkRequest m e p h in
    let s' := mkState (log s ++ [Sent r]) (stdin s) in
    match server (log s) r with
    | no_response => (Raise RequestException, s')
    | response code json => (Ok (mkResponse code json), s')
    end.

(** A request with [headers=HEADERS] *)
Definition send (m : Method) (e : Endpoint) (p : Payload) : C Response :=
  send_with (HEADERS key_at_import) m e p.

(** [r.json()] *)
Definition json (r : Response) : result Json :=
  match body r with
  | Some j => Ok j
  | None => Raise JSONDecodeError
  end.

(** [r.json()["data"]] *)
Definition data (r : Response) : C Json :=
  j <~ lift (json r) ;; lift (subscript j "data").

(** [input(f"Delete challenge {challenge_id}? [y/N] ")] *)
Definition input (challenge_id : Json) : C string :=
  fun s =>
    match stdin s with
    | [] => (Raise EOFError, mkState (log s ++ [Asked challenge_id None]) [])
    | Line a :: rest =>
        (Ok a, mkState (log s ++ [Asked challenge_id (Some (Line a))]) rest)
    | CtrlC :: rest =>
        (Raise KeyboardInterrupt,
         mkState (log s ++ [Asked challenge_id (Some CtrlC)]) rest)
    end.

(** The loop of [create_hints]; [prev_hints_ids] grows with each hint
    created. *)
Fixpoint post_hints (challenge_id : Json) (hints : list Hint)
  (prev_hints_ids : list Json) : C unit :=
  match hints with
  | [] => ret tt
  | hint :: rest =>
      r <~ send POST hints_
             (hint_json challenge_id (text hint) (str (points hint))
                prev_hints_ids) ;;
      if negb (Z.eqb (status_code r) 200)
      then raise (SystemExit 1)
      else d <~ data r ;;
           i <~ lift (subscript d "id") ;;
           post_hints challenge_id rest (prev_hints_ids ++ [i])
  end.

Definition create_hints (challenge_id : Json) (hints : list Hint) : C unit :=
  r <~ send GET (challenges_id_hints challenge_id) nothing ;;
  existing_hints <~ data r ;;
  n <~ lift (len existing_hints) ;;
  if (0 <? n)%nat
  then ret tt
  else post_hints challenge_id hints [].

Definition create_flag (challenge_id : Json) (flag : string) : C unit :=
  r <~ send GET (challenges_id_flags challenge_id) nothing ;;
  flags <~ data r ;;
  n <~ lift (len flags) ;;
  if (n =? 0)%nat
  then send POST flags_ (flag_json challenge_id flag) ;;~ ret tt
  else f <~ lift (first flags) ;;
       current_flag <~ lift (subscript f "content") ;;
       match current_flag with
       | JStr s =>
           if String.eqb s flag
           then ret tt
           else i <~ lift (subscript f "id") ;;
                send PATCH (flags_id i) (flag_content flag) ;;~ ret tt
       | _ =>
           i <~ lift (subscript f "id") ;;
           send PATCH (flags_id i) (flag_content flag) ;;~ ret tt
       end.

(** The two loops of [upload_files]. *)
Fixpoint delete_files (files : list Json) : C unit :=
  match files with
  | [] => ret tt
  | file :: rest =>
      i <~ lift (subscript file "id") ;;
      send DELETE (files_id i) nothing ;;~
      delete_files rest
  end.

Fixpoint post_files (challenge_id : Json) (path : string)
  (public : list string) : C unit :=
  match public with
  | [] => ret tt
  | file :: rest =>
      if can_open (Scan.join path [file])
      then send_with (mkHeaders ("Token " ++ CTFD_API_KEY) None) POST files_
             (file_upload challenge_id (basename file)
                (Scan.join path [file])) ;;~
           post_files challenge_id path rest
      else raise OSError
  end.

Definition upload_files (challenge_id : Json) (c : Configured) : C unit :=
  r <~ send GET (challenges_id_files challenge_id) nothing ;;
  files <~ data r ;;
  items <~ lift (iterate files) ;;
  delete_files items ;;~
  match config_public (config c) with
  | Some public =>
      post_files challenge_id (Scanner.path (challenge c)) public
  | None => ret tt
  end.

Definition set_requirement (challenge_id : Json) (requires : list Json)
  : C unit :=
  send PATCH (challenges_id challenge_id) (requirements requires) ;;~ ret tt.

Definition MINIMUM_AFTER : Z := 20.

(** The dict [body] that [deploy_challenge] builds, before the branch
    on [challenge_id]. *)
Definition challenge_body (c : Configured) : Body :=
  let description :=
    (config_description (config c)
       ++ NEWLINE ++ NEWLINE ++ "Author: **" ++ config_author (config c)
       ++ "**" ++ NEWLINE ++ "[](ID:" ++ id c ++ ")")%string in
  let category :=
    replace (title (Scanner.category (challenge c)) ++ " - "
               ++ title (Scanner.subcategory (challenge c)))%string
      "_" " " in
  let connection_info :=
    replace
      (replace (config_connection_info (config c)) "{{host}}" CHALLENGES_HOST)
      "{{port}}" (str (Scanner.port (challenge c))) in
  mkBody (config_title (config c)) category description connection_info
    (Some "hidden") 0
    (if String.eqb (config_type (config c)) "dynamic"
     then dynamic (config_points (config c)) "linear"
            ((config_points (config c) - 100) / MINIMUM_AFTER) 100
     else standard (config_points (config c))).

Definition pop_state (b : Body) : Body :=
  mkBody (body_name b) (body_category b) (body_description b)
    (body_connection_info b) None (body_max_attempts b) (body_scoring b).

(** [deploy_challenge(challenge, challenge_id=None)]; [JNull] is
    [None]. *)
Definition deploy_challenge (c : Configured) (challenge_id : Json)
  : C Json :=
  let body := challenge_body c in
  challenge_id <~
    match challenge_id with
    | JNull =>
        r <~ send POST challenges_ (challenge_json body) ;;
        if negb (Z.eqb (status_code r) 200)
        then raise (SystemExit 1)
        else d <~ data r ;; lift (subscript d "id")
    | _ =>
        r <~ send PATCH (challenges_id challenge_id)
               (challenge_json (pop_state body)) ;;
        if negb (Z.eqb (status_code r) 200)
        then raise (SystemExit 1)
        else ret challenge_id
    end ;;
  create_flag challenge_id (config_flag (config c)) ;;~
  upload_files challenge_id c ;;~
  create_hints challenge_id (config_hints (config c)) ;;~
  ret challenge_id.

(** [get_challenge]: the identifier of the server and the id read from
    the description. *)
Definition get_challenge (challenge_id : Json) : C (Json * string) :=
  r <~ send GET (challenges_id challenge_id) nothing ;;
  chall <~ data r ;;
  description <~ lift (subscript chall "description") ;;
  match description with
  | JStr d =>
      match search d with
      | None => raise AttributeError
      | Some chall_id =>
          i <~ lift (subscript chall "id") ;;
          ret (i, chall_id)
      end
  | _ => raise TypeError
  end.

(** The loop of [get_challenges]. *)
Fixpoint get_each (challenges : list Json) (ret_ : Ids) : C Ids :=
  match challenges with
  | [] => ret ret_
  | challenge :: rest =>
      i <~ lift (subscript challenge "id") ;;
      c <~ get_challenge i ;;
      get_each rest (set (snd c) (fst c) ret_)
  end.

Definition get_challenges : C Ids :=
  r <~ send GET challenges_ (params_view "admin") ;;
  challenges <~ data r ;;
  items <~ lift (iterate challenges) ;;
  get_each items [].

(** The first loop of [main]: the challenges are created or updated;
    [existing_challenges] loses the ones updated and
    [processed_challenges] gains every one. *)
Fixpoint deploy_each (challenges : list Configured)
  (existing_challenges processed_challenges : Ids) : C (Ids * Ids) :=
  match challenges with
  | [] => ret (existing_challenges, processed_challenges)
  | c :: rest =>
      match get (id c) existing_challenges with
      | Some i =>
          c_id <~ deploy_challenge c i ;;
          deploy_each rest (pop (id c) existing_challenges)
            (set (id c) c_id processed_challenges)
      | None =>
          c_id <~ deploy_challenge c JNull ;;
          deploy_each rest existing_challenges
            (set (id c) c_id processed_challenges)
      end
  end.

(** [[processed_challenges[f"{challenge.category}-{req.replace("_", "-")}"]
      for req in challenge.config.requires]] *)
Fixpoint prerequisites_of (category : string) (requires : list string)
  (processed_challenges : Ids) : result (list Json) :=
  match requires with
  | [] => Ok []
  | req :: rest =>
      match get (category ++ "-" ++ replace req "_" "-")%string
              processed_challenges with
      | None => Raise KeyError
      | Some i =>
          match prerequisites_of category rest processed_challenges with
          | Ok l => Ok (i :: l)
          | Raise e => Raise e
          end
      end
  end.

(** The second loop of [main]. *)
Fixpoint require_each (challenges : list Configured)
  (processed_challenges : Ids) : C unit :=
  match challenges with
  | [] => ret tt
  | c :: rest =>
      match config_requires (config c) with
      | Some requires =>
          match get (id c) processed_challenges with
          | None => raise KeyError
          | Some i =>
              l <~ lift (prerequisites_of (Scanner.category (challenge c))
                           requires processed_challenges) ;;
              set_requirement i l
          end
      | None => ret tt
      end ;;~
      require_each rest processed_challenges
  end.

(** The last loop of [main], over [existing_challenges.values()]. *)
Fixpoint delete_each (ids : list Json) : C unit :=
  match ids with
  | [] => ret tt
  | challenge_id :: rest =>
      answer <~ input challenge_id ;;
      if negb (String.eqb (Py.lower answer) "y")
      then delete_each rest
      else r <~ send DELETE (challenges_id challenge_id) nothing ;;
           if negb (Z.eqb (status_code r) 200)
           then raise (SystemExit 1)
           else delete_each rest
  end.

Definition main (challenges : list Configured) : C unit :=
  existing_challenges <~ get_challenges ;;
  d <~ deploy_each challenges existing_challenges [] ;;
  require_each challenges (snd d) ;;~
  delete_each (map snd (fst d)).

End Sync.

(** *** Vocabulary of the statements about the synchroniser *)

(** The places of a text where the marker of an id opens. *)
Fixpoint occurs (p s : string) : bool :=
  String.prefix p s ||
  match s with
  | EmptyString => false
  | String _ s' => occurs p s'
  end.

(** A request that creates or updates a challenge with its body. *)
Definition is_write (e : Step) : bool :=
  match e with
  | Sent (mkRequest _ _ (challenge_json _) _) => true
  | _ => false
  end.

(** The deletion of a challenge. *)
Definition is_delete (e : Step) : bool :=
  match e with
  | Sent (mkRequest DELETE (challenges_id _) _ _) => true
  | _ => false
  end.

Definition is_asked (e : Step) : bool :=
  match e with
  | Asked _ _ => true
  | _ => false
  end.

(** A step that is neither of these nor a prompt. *)
Definition quiet (e : Step) : bool :=
  negb (is_write e) && negb (is_delete e) && negb (is_asked e).

(** The request that creates or updates a challenge. *)
Definition write_request (CHALLENGES_HOST key_at_import : string)
  (c : Configured) (challenge_id : Json) : Request :=
  match challenge_id with
  | JNull =>
      mkRequest POST challenges_
        (challenge_json (challenge_body CHALLENGES_HOST c))
        (HEADERS key_at_import)
  | _ =>
      mkRequest PATCH (challenges_id challenge_id)
        (challenge_json (pop_state (challenge_body CHALLENGES_HOST c)))
        (HEADERS key_at_import)
  end.

(** The creations and updates of the first loop of [main], from the
    challenges and the dict of the challenges of the server. *)
Fixpoint writes (CHALLENGES_HOST key_at_import : string)
  (challenges : list Configured) (existing_challenges : Ids)
  : list Request :=
  match challenges with
  | [] => []
  | c :: rest =>
      match get (id c) existing_challenges with
      | Some i =>
          write_request CHALLENGES_HOST key_at_import c i
            :: writes CHALLENGES_HOST key_at_import rest
                 (pop (id c) existing_challenges)
      | None =>
          write_request CHALLENGES_HOST key_at_import c JNull
            :: writes CHALLENGES_HOST key_at_import rest existing_challenges
      end
  end.

(** The dict of the challenges of the server after the first loop. *)
Definition left_over (challenges : list Configured)
  (existing_challenges : Ids) : Ids :=
  fold_left (fun d c => pop (id c) d) challenges existing_challenges.

Definition asked_id (e : Step) : list Json :=
  match e with
  | Asked i _ => [i]
  | _ => []
  end.

(** Every run of the computation adds steps of the class [P] only. *)
Definition grows {A} (P : Step -> bool) (m : C A) : Prop :=
  forall s r s',
    m s = (r, s') -> exists t, log s' = log s ++ t /\ forallb P t = true.

(** In the steps [t], which follow the step [prev], every deletion of a
    challenge comes right after the prompt for that challenge, answered
    by ["y"] or ["Y"]. *)
Fixpoint gated (prev : option Step) (t : list Step) : Prop :=
  match t with
  | [] => True
  | e :: t' =>
      (is_delete e = true ->
       exists i a p h,
         e = Sent (mkRequest DELETE (challenges_id i) p h) /\
         prev = Some (Asked i (Some (Line a))) /\
         (a = "y" \/ a = "Y")) /\
      gated (Some e) t'
  end.

(** The upload of a file. *)
Definition is_upload (r : Request) : bool :=
  match payload r with
  | file_upload _ _ _ => true
  | _ => false
  end.

(** The token of a step that is a request is the one built from
    [upload_key] for an upload and from [key] for any other request. *)
Definition carries (key upload_key : string) (e : Step) : bool :=
  match e with
  | Sent r =>
      String.eqb (Authorization (headers r))
        ("Token " ++ (if is_upload r then upload_key else key))
  | Asked _ _ => true
  end.

(** A request with the headers [HEADERS]. *)
Definition request (key_at_import : string) (m : Method) (e : Endpoint)
  (p : Payload) : Request :=
  mkRequest m e p (HEADERS key_at_import).

(** No character of the text is [a]. *)
Definition without (a : ascii) (s : string) : bool :=
  Scan.all_chars (fun c => negb (Ascii.eqb c a)) s.

(** The steps a computation adds. *)
Definition steps {A} (m : C A) (s : State) : list Step :=
  skipn (List.length (log s)) (log (snd (m s))).

End Ctfd.

(** A server with one challenge, written by an earlier synchronisation,
    and two scanned challenges of one id. *)
Module SampleCtfd.

Definition host : string := "ctf.example.org".

(** The key of the environment, and the one given with [--key]. *)
Definition env_key : string := "key-of-the-environment".
Definition given_key : string := "key-of-the-command-line".

Definition warm_up : Ctfd.ChallengeConfig :=
  Ctfd.mkConfig "Warm up" "Find the flag." "nc {{host}} {{port}}"
    "flag{warm}" 500 "unitn" (Some []) "dynamic" (Some []) [].

Definition easy : Ctfd.Configured :=
  Ctfd.mkConfigured Sample.web_01_ctf warm_up.

Definition hard : Ctfd.Configured :=
  Ctfd.mkConfigured
    (Scanner.mkChallenge "01-ctf" "/srv/challenges/01_web/1_hard/01_ctf"
       10201 "web" "hard")
    warm_up.

Definition can_open (path : string) : bool := true.

Definition stored (description : string) : Ctfd.Json :=
  Ctfd.JObject
    [("data",
      Ctfd.JObject
        [("id", Ctfd.JNum 7); ("description", Ctfd.JStr description)])].

Definition answers (description : string)
  (history : list Ctfd.Step) (r : Ctfd.Request) : Ctfd.Served :=
  match Ctfd.method r, Ctfd.endpoint r with
  | Ctfd.GET, Ctfd.challenges_ =>
      Ctfd.response 200
        (Some (Ctfd.JObject
                 [("data", Ctfd.JList [Ctfd.JObject [("id", Ctfd.JNum 7)]])]))
  | Ctfd.GET, Ctfd.challenges_id _ =>
      Ctfd.response 200 (Some (stored description))
  | Ctfd.POST, Ctfd.challenges_ =>
      Ctfd.response 200
        (Some (Ctfd.JObject [("data", Ctfd.JObject [("id", Ctfd.JNum 8)])]))
  | _, _ =>
      Ctfd.response 200 (Some (Ctfd.JObject [("data", Ctfd.JList [])]))
  end.

(** The server holds the challenge as [deploy_challenge] wrote it. *)
Definition server : list Ctfd.Step -> Ctfd.Request -> Ctfd.Served :=
  answers (Ctfd.body_description (Ctfd.challenge_body host easy)).

(** The challenge of the server was made by hand. *)
Definition server_by_hand : list Ctfd.Step -> Ctfd.Request -> Ctfd.Served :=
  answers "Made in the admin panel.".

Definition start : Ctfd.State := Ctfd.mkState [] [].

End SampleCtfd.
(** ** The deployer *)

Section Deployer.

Set Default Proof Using "Type".

(** The environment of one run: which API calls the server fails on
    its own account (answered 500), which paths exist on disk, and what
    [docker images] prints before the builds and after the pushes. *)
Variable api_fails : Client -> ApiCall -> bool.
Variable os_path_exists : string -> bool.
Variable docker_images_before docker_images_after : string.

(** A method call [cl.method(...)]: looking the method up on a client
    that does not have it raises [AttributeError] before anything is
    sent; otherwise the call is sent, and the server may fail it. *)
Definition request (cl : Client) (k : ResKind) (c : ApiCall) : M unit :=
  if serves cl k
  then emit (EvApi cl c) ;;;
       (if api_fails cl c then raise (ApiException 500) else ret tt)
  else raise (AttributeError cl c).

Definition api_read (cl : Client) (k : ResKind) (n : string) : M Resource :=
  request cl k (read_namespaced k n) ;;;
  c <- get_cluster ;;
  match find (named n) (stored k c) with
  | Some r => ret r
  | None => raise (ApiException 404)
  end.

Definition api_replace (cl : Client) (k : ResKind) (n : string)
  (body : Resource) : M unit :=
  request cl k (replace_namespaced k n body) ;;;
  c <- get_cluster ;;
  if present n (stored k c)
  then put_cluster
         (store k (map (fun r => if named n r then body else r) (stored k c)) c)
  else raise (ApiException 404).

Definition api_create (cl : Client) (k : ResKind) (body : Resource) : M unit :=
  request cl k (create_namespaced k body) ;;;
  c <- get_cluster ;;
  if present (res_name body) (stored k c)
  then raise (ApiException 409)
  else put_cluster (store k (stored k c ++ [body]) c).

Definition api_delete (cl : Client) (k : ResKind) (n : string) : M unit :=
  request cl k (delete_namespaced k n) ;;;
  c <- get_cluster ;;
  if present n (stored k c)
  then put_cluster
         (store k (filter (fun r => negb (named n r)) (stored k c)) c)
  else raise (ApiException 404).

Definition api_list (cl : Client) (k : ResKind)
  (sel : option (string * string)) : M (list Resource) :=
  request cl k (list_namespaced k sel) ;;;
  c <- get_cluster ;;
  ret (match sel with
       | Some s => filter (selects s) (stored k c)
       | None => stored k c
       end).

(** [create_or_update_service], [create_or_update_deployment] and
    [create_or_update_horizontal_pod_autoscaler] differ only in the
    client and the kind: read, then replace; on any exception of either,
    create. *)
Definition create_or_update (cl : Client) (k : ResKind) (body : Resource)
  : M unit :=
  try_except
    (api_read cl k (res_name body) ;;;
     api_replace cl k (res_name body) body)
    (fun _ => api_create cl k body).

Definition create_or_update_service := create_or_update core_v1 Services.
Definition create_or_update_deployment := create_or_update apps_v1 Deployments.
Definition create_or_update_horizontal_pod_autoscaler :=
  create_or_update autoscaling_v1 Autoscalers.

Definition create_or_update_resource (resource : Resource) : M unit :=
  if String.eqb (kind resource) "Service"
  then create_or_update_service resource
  else if String.eqb (kind resource) "Deployment"
  then create_or_update_deployment resource
  else if String.eqb (kind resource) "HorizontalPodAutoscaler"
  then create_or_update_horizontal_pod_autoscaler resource
  else raise ValueError.

(** [run_command]: the command is handed to the shell, its output and
    its exit status are dropped. *)
Definition run_command (command : string) : M unit :=
  emit (EvShell command).

(** The loop of [update_pods] that fills [pods_to_delete];
    [pod.spec.containers[0]] raises [IndexError] on a pod without
    containers. *)
Fixpoint select_pods (images : list string) (items : list Resource)
  : result (list string) :=
  match items with
  | [] => Ok []
  | pod :: rest =>
      match spec_containers pod with
      | [] => Raise IndexError
      | c0 :: _ =>
          match select_pods images rest with
          | Ok l =>
              Ok (if Py.str_in (image c0) images
                  then res_name pod :: l else l)
          | Raise e => Raise e
          end
      end
  end.

Definition lift {A} (r : result A) : M A := fun w => (r, w).

(** The confirmation gate shared by the four batches: nothing happens
    on an empty batch; otherwise one prompt, and the calls only if the
    answer, in lower case, is ["y"]. *)
Definition confirm_and_delete (what : string) (cl : Client) (k : ResKind)
  (names : list string) : M unit :=
  if (0 <? List.length names)%nat
  then answer <- input (ConfirmDelete what names) ;;
       if String.eqb (Py.lower answer) "y"
       then for_each names (fun n => api_delete cl k n)
       else ret tt
  else ret tt.

Definition update_pods (images : list string) : M unit :=
  items <- api_list core_v1 Pods (Some MANAGED) ;;
  pods_to_delete <- lift (select_pods images items) ;;
  confirm_and_delete "pods" core_v1 Pods pods_to_delete.
(** *** Image build pipeline *)

(** A Python [dict] from repository to digest, in insertion order; the
    program only tests membership and reads entries. *)
Definition Dict := list (string * string).

Fixpoint dict_get (k : string) (d : Dict) : option string :=
  match d with
  | [] => None
  | (k', v) :: d' => if String.eqb k k' then Some v else dict_get k d'
  end.

Definition DOCKER_IMAGES : string :=
  "sudo docker images --format '{{.Repository}}__:__{{.Digest}}'".

(** One line of the output of [docker images]: [None] for a line the
    loops pass over ([continue]), the pair [(repository, digest)]
    otherwise; unpacking anything but two pieces raises [ValueError]. *)
Definition parse_line (line : string) : result (option (string * string)) :=
  if String.eqb (Py.remove_all line "__:__") ""
  then Ok None
  else match Py.split line "__:__" with
       | [repository; digest] => Ok (Some (repository, digest))
       | _ => Raise ValueError
       end.

(** The first loop of [build_and_push_images]: the digest of every
    repository of the registry, the first one listed. *)
Fixpoint registry_digests (lines : list string) (images_repo_digests : Dict)
  : result Dict :=
  match lines with
  | [] => Ok images_repo_digests
  | line :: rest =>
      match parse_line line with
      | Raise e => Raise e
      | Ok None => registry_digests rest images_repo_digests
      | Ok (Some (repository, digest)) =>
          if Py.startswith repository REGISTRY
          then match dict_get repository images_repo_digests with
               | None =>
                   registry_digests rest
                     (images_repo_digests ++ [(repository, digest)])
               | Some _ => registry_digests rest images_repo_digests
               end
          else registry_digests rest images_repo_digests
      end
  end.

(** The last loop of [build_and_push_images]. *)
Fixpoint updated_images (lines : list string) (images_repo_digests : Dict)
  (acc : list string) : result (list string) :=
  match lines with
  | [] => Ok acc
  | line :: rest =>
      match parse_line line with
      | Raise e => Raise e
      | Ok None => updated_images rest images_repo_digests acc
      | Ok (Some (repository, digest)) =>
          if Py.startswith repository REGISTRY
          then match dict_get repository images_repo_digests with
               | Some old =>
                   if negb (String.eqb old digest)
                      && negb (String.eqb digest "")
                      && negb (String.eqb old "")
                   then updated_images rest images_repo_digests
                          (acc ++ [repository])
                   else updated_images rest images_repo_digests acc
               | None => updated_images rest images_repo_digests acc
               end
          else updated_images rest images_repo_digests acc
      end
  end.

Definition has_dockerfile (challenge : Challenge) : bool :=
  os_path_exists (Scanner.path challenge ++ "/Dockerfile").

Definition image_tag (challenge : Challenge) : string :=
  REGISTRY ++ Scanner.id challenge.

(** [f"sudo docker build -t {tag} {challenge.path}"] and
    [f"sudo docker push {tag}"] *)
Definition build_command (challenge : Challenge) : string :=
  "sudo docker build -t " ++ image_tag challenge ++ " "
    ++ Scanner.path challenge.

Definition push_command (challenge : Challenge) : string :=
  "sudo docker push " ++ image_tag challenge.

(** The loop that fills [build_commands] and [push_commands].  The
    variable [images_repositories] is bound only by
    [if not ignore_existing: images_repositories = []]; it is [None]
    here when that assignment did not run, and reading it then raises
    [UnboundLocalError], which is a [NameError]. *)
Fixpoint build_plan (challenges : list Challenge)
  (images_repositories : option (list string))
  (build_commands push_commands : list string)
  : result (list string * list string) :=
  match challenges with
  | [] => Ok (build_commands, push_commands)
  | challenge :: rest =>
      if negb (has_dockerfile challenge)
      then build_plan rest images_repositories build_commands push_commands
      else
        let tag := image_tag challenge in
        match images_repositories with
        | None => Raise (NameError "images_repositories")
        | Some repos =>
            if Py.str_in tag repos
            then build_plan rest images_repositories
                   build_commands push_commands
            else build_plan rest images_repositories
                   (build_commands ++ [build_command challenge])
                   (push_commands ++ [push_command challenge])
        end
  end.

(** [build_and_push_images].  The two [Pool.map] calls run their
    commands side by side; the trace lists them in the order of the
    command lists, all builds before all pushes. *)
Definition build_and_push_images (challenges : list Challenge)
  (ignore_existing : bool) : M unit :=
  emit (EvShell DOCKER_IMAGES) ;;;
  images_repo_digests <-
    lift (registry_digests (Py.split docker_images_before NEWLINE) []) ;;
  cmds <- lift (build_plan challenges
                  (if negb ignore_existing then Some [] else None) [] []) ;;
  for_each (fst cmds) run_command ;;;
  for_each (snd cmds) run_command ;;;
  emit (EvShell DOCKER_IMAGES) ;;;
  updated <-
    lift (updated_images (Py.split docker_images_after NEWLINE)
            images_repo_digests []) ;;
  if (0 <? List.length updated)%nat
  then update_pods updated
  else ret tt.

(** *** Cleaning *)

Definition clean_cluster : M unit :=
  resources <- api_list core_v1 Services (Some MANAGED) ;;
  for_each resources
    (fun resource => api_delete core_v1 Services (res_name resource)) ;;;
  resources <- api_list apps_v1 Deployments (Some MANAGED) ;;
  for_each resources
    (fun resource => api_delete apps_v1 Deployments (res_name resource)).

(** *** The reconciliation run *)

(** [try: create_or_update_resource(r); deployed.append(challenge)
    except Exception: print(...)] *)
Definition try_deploy (r : Resource) (challenge : Challenge)
  (deployed : list Challenge) : M (list Challenge) :=
  try_except
    (create_or_update_resource r ;;; ret (deployed ++ [challenge]))
    (fun _ => ret deployed).

(** The three lists [deployed_deployments], [deployed_services] and
    [deployed_hpas]. *)
Record Deployed := mkDeployed {
  deployed_deployments : list Challenge;
  deployed_services : list Challenge;
  deployed_hpas : list Challenge
}.

(** The condition [1 + 1 == 1] that guards the autoscaler. *)
Definition autoscaler_condition : bool := Nat.eqb (1 + 1) 1.

(** One turn of the loop over the challenges, for a challenge with a
    Dockerfile. *)
Definition deploy_challenge (challenge : Challenge) (d : Deployed)
  : M Deployed :=
  dd <- try_deploy (deployment_manifest challenge) challenge
          (deployed_deployments d) ;;
  dh <- (if autoscaler_condition
         then try_deploy (hpa_manifest challenge) challenge (deployed_hpas d)
         else ret (deployed_hpas d)) ;;
  ds <- try_deploy (service_manifest challenge) challenge
          (deployed_services d) ;;
  ret (mkDeployed dd ds dh).

Fixpoint deploy_all (challenges : list Challenge) (d : Deployed)
  : M Deployed :=
  match challenges with
  | [] => ret d
  | challenge :: rest =>
      if negb (has_dockerfile challenge)
      then deploy_all rest d
      else d' <- deploy_challenge challenge d ;; deploy_all rest d'
  end.

(** The names gathered by a deletion pass: every listed object whose
    name is not the id of a deployed challenge. *)
Definition names_to_delete (items : list Resource) (deployed : list Challenge)
  : list string :=
  map res_name
    (filter (fun r => negb (Py.str_in (res_name r) (map Scanner.id deployed)))
       items).

(** One deletion pass of [main]: the objects of the kind are listed by
    [list_cl] without a label selector, the stale ones deleted through
    [del_cl] behind the confirmation gate. *)
Definition delete_pass (what : string) (list_cl del_cl : Client)
  (k : ResKind) (deployed : list Challenge) : M unit :=
  items <- api_list list_cl k None ;;
  confirm_and_delete what del_cl k (names_to_delete items deployed).

Definition delete_deployments (d : Deployed) : M unit :=
  delete_pass "deployments" apps_v1 apps_v1 Deployments
    (deployed_deployments d).

Definition delete_services (d : Deployed) : M unit :=
  delete_pass "services" core_v1 core_v1 Services (deployed_services d).

(** The autoscalers are listed through [autoscaling_v1] and deleted
    through [core_v1]. *)
Definition delete_hpas (d : Deployed) : M unit :=
  delete_pass "HorizontalPodAutoscalers" autoscaling_v1 core_v1 Autoscalers
    (deployed_hpas d).

(** [try: input("Press Enter to continue...") except KeyboardInterrupt:
    return]: [false] when the run is called off. *)
Definition press_enter : M bool :=
  fun w =>
    match input PressEnter w with
    | (Ok _, w') => (Ok true, w')
    | (Raise KeyboardInterrupt, w') => (Ok false, w')
    | (Raise e, w') => (Raise e, w')
    end.

Definition main (challenges : list Challenge)
  (build_images ignore_existing : bool) : M unit :=
  go <- press_enter ;;
  if negb go then ret tt else
  (if build_images
   then build_and_push_images challenges ignore_existing
   else ret tt) ;;;
  d <- deploy_all challenges (mkDeployed [] [] []) ;;
  delete_deployments d ;;;
  delete_services d ;;;
  delete_hpas d.


(** *** The command line

    The block under [if __name__ == "__main__"].  The arguments are
    taken as [argparse] returns them.  The two prompts of the block are
    not events of a run: they are kept apart, in the order they are
    shown, and both are shown before anything else happens.  The
    scanner reads the file system through its own environment. *)

Variable os_listdir : string -> option (list string).
Variable os_path_isdir : string -> bool.
Variable script_dir : string.
Variable os_path_abspath : string -> string.
Variable load_config : string -> Scan.ConfigLoad.

Record Args := mkArgs {
  args_challenges : option string;
  args_build : bool;
  args_ignore_existing : bool;
  args_verbose : bool;
  args_clean : bool
}.

Inductive ScriptPrompt :=
| SureToDelete
| ScanningIn (absolute_path : string).

(** How the script ends: at its last line, in [sys.exit(code)], in an
    exception of the deployer or of [input], or in an exception of the
    scanner. *)
Inductive Ending :=
| Completed
| SysExit (code : Z)
| Uncaught (e : exn)
| ScanFailed (e : Scan.Abort).

Record ScriptRun := mkScriptRun {
  asked : list ScriptPrompt;
  ending : Ending;
  world : World
}.

(** The reply to a prompt of the block. *)
Definition reply (w : World) : result string * World :=
  match stdin w with
  | [] => (Raise EOFError, w)
  | Line s :: rest => (Ok s, mkWorld (cluster w) (trace w) rest)
  | CtrlC :: rest =>
      (Raise KeyboardInterrupt, mkWorld (cluster w) (trace w) rest)
  end.

Definition scan_challenges (challenges_folder : string)
  : Scan.outcome (list Challenge) :=
  Scan.main os_listdir os_path_isdir script_dir os_path_abspath load_config
    challenges_folder.

(** [challenges = scan_challenges(...); main(challenges, args.build,
    args.ignore_existing)] *)
Definition scan_and_run (args : Args) (shown : list ScriptPrompt)
  (challenges_folder : string) (w : World) : ScriptRun :=
  match scan_challenges challenges_folder with
  | Scan.Aborted (Scan.SystemExit code) => mkScriptRun shown (SysExit code) w
  | Scan.Aborted e => mkScriptRun shown (ScanFailed e) w
  | Scan.Returned challenges =>
      match main challenges (args_build args) (args_ignore_existing args) w
      with
      | (Ok _, w') => mkScriptRun shown Completed w'
      | (Raise e, w') => mkScriptRun shown (Uncaught e) w'
      end
  end.

Definition script (args : Args) (w : World) : ScriptRun :=
  if args_clean args
  then match reply w with
       | (Raise e, w') => mkScriptRun [SureToDelete] (Uncaught e) w'
       | (Ok answer, w') =>
           if negb (String.eqb (Py.lower answer) "y")
           then mkScriptRun [SureToDelete] (SysExit 0) w'
           else match clean_cluster w' with
                | (Ok _, w'') => mkScriptRun [SureToDelete] (SysExit 0) w''
                | (Raise e, w'') => mkScriptRun [SureToDelete] (Uncaught e) w''
                end
       end
  else match args_challenges args with
       | None => scan_and_run args [] Scan.CALLENGES_FOLDER w
       | Some challenges =>
           let absolute_path := os_path_abspath challenges in
           match reply w with
           | (Raise e, w') =>
               mkScriptRun [ScanningIn absolute_path] (Uncaught e) w'
           | (Ok _, w') =>
               scan_and_run args [ScanningIn absolute_path] absolute_path w'
           end
       end.
(** ** Vocabulary of the statements *)

(** [evolves P K w w']: from [w] to [w'] the trace grew by events that
    all satisfy [P], and the objects of every kind in [K] stayed as
    they were. *)
Definition evolves (P : Event -> Prop) (K : ResKind -> bool)
  (w w' : World) : Prop :=
  (exists t, trace w' = trace w ++ t /\ Forall P t) /\
  (forall k, K k = true -> stored k (cluster w') = stored k (cluster w)).

(** A computation keeps [(P, K)] when every one of its runs, whether it
    returns or raises, evolves the world that way. *)
Definition keeps {A} (P : Event -> Prop) (K : ResKind -> bool) (m : M A)
  : Prop :=
  forall w r w', m w = (r, w') -> evolves P K w w'.

Definition no_kind : ResKind -> bool := fun _ => false.

(** The API calls that change the cluster. *)
Definition is_mutation (e : Event) : bool :=
  match e with
  | EvApi _ (replace_namespaced _ _ _) => true
  | EvApi _ (create_namespaced _ _) => true
  | EvApi _ (delete_namespaced _ _) => true
  | _ => false
  end.

Definition no_faults : Prop := forall cl c, api_fails cl c = false.

(** The events a computation adds to the trace of [w]. *)
Definition events {A} (m : M A) (w : World) : list Event :=
  skipn (List.length (trace w)) (trace (snd (m w))).

(** The three stages of a run, by their events.  The build stage is the
    opening prompt, the shell commands, and the restart of pods: their
    listing, the prompt of the batch and the evictions. *)
Definition build_event (e : Event) : bool :=
  match e with
  | EvShell _ => true
  | EvInput PressEnter => true
  | EvInput (ConfirmDelete what _) => String.eqb what "pods"
  | EvApi _ (list_namespaced Pods _) => true
  | EvApi _ (delete_namespaced Pods _) => true
  | _ => false
  end.

Definition workload_kind (k : ResKind) : bool :=
  match k with
  | Deployments | Services => true
  | _ => false
  end.

(** The apply stage reads, replaces and creates deployments and
    services. *)
Definition apply_event (e : Event) : bool :=
  match e with
  | EvApi _ (read_namespaced k _) => workload_kind k
  | EvApi _ (replace_namespaced k _ _) => workload_kind k
  | EvApi _ (create_namespaced k _) => workload_kind k
  | _ => false
  end.

(** The deletion stage lists and deletes deployments, services and
    autoscalers, behind its prompts. *)
Definition delete_event (e : Event) : bool :=
  match e with
  | EvInput (ConfirmDelete what _) => negb (String.eqb what "pods")
  | EvApi _ (list_namespaced k _) => negb (ResKind_eqb k Pods)
  | EvApi _ (delete_namespaced k _) => negb (ResKind_eqb k Pods)
  | _ => false
  end.

(** A restart eviction, and the deletion of a deployment, a service or
    an autoscaler. *)
Definition is_eviction (e : Event) : bool :=
  match e with
  | EvApi _ (delete_namespaced Pods _) => true
  | _ => false
  end.

Definition is_deletion (e : Event) : bool :=
  match e with
  | EvApi _ (delete_namespaced k _) => negb (ResKind_eqb k Pods)
  | _ => false
  end.

Definition is_apply (e : Event) : bool :=
  match e with
  | EvApi _ (replace_namespaced k _ _) => negb (ResKind_eqb k Pods)
  | EvApi _ (create_namespaced k _) => negb (ResKind_eqb k Pods)
  | _ => false
  end.

(** In the trace [t], every event of class [A] comes before every event
    of class [B]. *)
Definition precedes (A B : Event -> bool) (t : list Event) : Prop :=
  forall i j a b,
    nth_error t i = Some a -> nth_error t j = Some b ->
    A a = true -> B b = true -> (i < j)%nat.

(** What a successful create-or-update leaves in the list of stored
    objects: the body in the place of the object of its name, or at
    the end. *)
Definition upsert (body : Resource) (l : list Resource) : list Resource :=
  if present (res_name body) l
  then map (fun r => if named (res_name body) r then body else r) l
  else l ++ [body].

(** The call that changes the cluster in a create-or-update. *)
Definition upsert_call (k : ResKind) (body : Resource) (l : list Resource)
  : ApiCall :=
  if present (res_name body) l
  then replace_namespaced k (res_name body) body
  else create_namespaced k body.


(** The events of one turn of the loop when no call fails. *)
Definition apply_events (challenge : Challenge) (c : Cluster) : list Event :=
  [EvApi apps_v1 (read_namespaced Deployments (Scanner.id challenge));
   EvApi apps_v1
     (upsert_call Deployments (deployment_manifest challenge) (deployments c));
   EvApi core_v1 (read_namespaced Services (Scanner.id challenge));
   EvApi core_v1
     (upsert_call Services (service_manifest challenge) (services c))].

(** The cluster after one turn of the loop when no call fails. *)
Definition applied (challenge : Challenge) (c : Cluster) : Cluster :=
  mkCluster (upsert (deployment_manifest challenge) (deployments c))
    (upsert (service_manifest challenge) (services c))
    (autoscalers c) (pods c).

(** The loop over the challenges when no call fails: the cluster it
    leaves and the events it adds. *)
Fixpoint applied_all (challenges : list Challenge) (c : Cluster) : Cluster :=
  match challenges with
  | [] => c
  | challenge :: rest =>
      if has_dockerfile challenge
      then applied_all rest (applied challenge c)
      else applied_all rest c
  end.

Fixpoint apply_events_all (challenges : list Challenge) (c : Cluster)
  : list Event :=
  match challenges with
  | [] => []
  | challenge :: rest =>
      if has_dockerfile challenge
      then apply_events challenge c
             ++ apply_events_all rest (applied challenge c)
      else apply_events_all rest c
  end.

(** The body is stored under its name, and whatever is stored under its
    name is the body. *)
Definition in_place (body : Resource) (l : list Resource) : Prop :=
  present (res_name body) l = true /\
  forall r, In r l -> res_name r = res_name body -> r = body.

(** A cluster in which the run has nothing left to change: the
    manifests of every challenge with a Dockerfile are in place, every
    deployment and every service is that of such a challenge, and
    there is no autoscaler. *)
Definition settled (challenges : list Challenge) (c : Cluster) : Prop :=
  (forall ch, In ch challenges -> has_dockerfile ch = true ->
     in_place (deployment_manifest ch) (deployments c) /\
     in_place (service_manifest ch) (services c)) /\
  (forall r, In r (deployments c) ->
     exists ch, In ch challenges /\ has_dockerfile ch = true /\
                res_name r = Scanner.id ch) /\
  (forall r, In r (services c) ->
     exists ch, In ch challenges /\ has_dockerfile ch = true /\
                res_name r = Scanner.id ch) /\
  autoscalers c = [].

(** The build step finds no image changed. *)
Definition quiet_build : Prop :=
  exists d,
    registry_digests (Py.split docker_images_before NEWLINE) [] = Ok d /\
    updated_images (Py.split docker_images_after NEWLINE) d [] = Ok [].

(** The shell commands of the build step. *)
Definition shell_events (challenges : list Challenge) : list Event :=
  EvShell DOCKER_IMAGES
    :: map (fun ch => EvShell (build_command ch))
         (filter has_dockerfile challenges)
    ++ map (fun ch => EvShell (push_command ch))
         (filter has_dockerfile challenges)
    ++ [EvShell DOCKER_IMAGES].

(** The replacements of a run on a settled cluster. *)
Definition replacements (challenges : list Challenge) : list Event :=
  flat_map
    (fun ch =>
       [EvApi apps_v1
          (replace_namespaced Deployments (Scanner.id ch)
             (deployment_manifest ch));
        EvApi core_v1
          (replace_namespaced Services (Scanner.id ch)
             (service_manifest ch))])
    (filter has_dockerfile challenges).

(** A prompt that proposes a batch. *)
Definition is_proposal (e : Event) : bool :=
  match e with
  | EvInput (ConfirmDelete _ _) => true
  | _ => false
  end.

(** The pairs [(repository, digest)] of a listing of [docker images],
    line by line. *)
Fixpoint entries (lines : list string) : result (list (string * string)) :=
  match lines with
  | [] => Ok []
  | line :: rest =>
      match parse_line line with
      | Raise e => Raise e
      | Ok None => entries rest
      | Ok (Some p) =>
          match entries rest with
          | Ok l => Ok (p :: l)
          | Raise e => Raise e
          end
      end
  end.

(** One turn of the first loop of the build step. *)
Definition add_first (d : Dict) (p : string * string) : Dict :=
  if Py.startswith (fst p) REGISTRY
  then match dict_get (fst p) d with
       | None => d ++ [p]
       | Some _ => d
       end
  else d.

(** The test of the last loop of the build step. *)
Definition changed (d : Dict) (p : string * string) : bool :=
  Py.startswith (fst p) REGISTRY &&
  match dict_get (fst p) d with
  | Some old =>
      negb (String.eqb old (snd p)) && negb (String.eqb (snd p) "")
        && negb (String.eqb old "")
  | None => false
  end.

(** A read call, and a shell command. *)
Definition is_read (e : Event) : bool :=
  match e with
  | EvApi _ (read_namespaced _ _) => true
  | _ => false
  end.

Definition is_shell (e : Event) : bool :=
  match e with
  | EvShell _ => true
  | _ => false
  end.


(** A call on pods, or the prompt of a batch of pods. *)
Definition on_pods (e : Event) : bool :=
  match e with
  | EvApi _ (read_namespaced k _) => ResKind_eqb k Pods
  | EvApi _ (replace_namespaced k _ _) => ResKind_eqb k Pods
  | EvApi _ (create_namespaced k _) => ResKind_eqb k Pods
  | EvApi _ (delete_namespaced k _) => ResKind_eqb k Pods
  | EvApi _ (list_namespaced k _) => ResKind_eqb k Pods
  | EvInput (ConfirmDelete what _) => String.eqb what "pods"
  | _ => false
  end.

(** *** The run, stage by stage *)




(** The world in which the turn of a challenge starts, [pre] being the
    challenges before it and [w1] the world at the start of the loop. *)
Definition turn_start (pre : list Challenge) (w1 : World) : World :=
  snd (deploy_all pre (mkDeployed [] [] []) w1).








(** The pod is proposed for restart: it carries the management label
    and its first container runs one of the images. *)
Definition restarted (images : list string) (pod : Resource) : bool :=
  managed pod &&
  match spec_containers pod with
  | c0 :: _ => Py.str_in (image c0) images
  | [] => false
  end.

(** ** Reasoning about computations *)

Lemma evolves_refl P K w : evolves P K w w.
Proof.
  split.
  - exists []. rewrite app_nil_r. auto.
  - auto.
Qed.

Lemma evolves_trans P K w1 w2 w3 :
  evolves P K w1 w2 -> evolves P K w2 w3 -> evolves P K w1 w3.
Proof.
  intros [[t1 [E1 F1]] S1] [[t2 [E2 F2]] S2]. split.
  - exists (t1 ++ t2). rewrite E2, E1, app_assoc. split; auto.
    apply Forall_app; auto.
  - intros k Hk. rewrite S2, S1; auto.
Qed.

Lemma evolves_weaken (P Q : Event -> Prop) (K L : ResKind -> bool) w w' :
  (forall e, P e -> Q e) ->
  (forall k, L k = true -> K k = true) ->
  evolves P K w w' -> evolves Q L w w'.
Proof.
  intros HP HK [[t [E F]] S]. split.
  - exists t. split; auto. eapply Forall_impl; eauto.
  - auto.
Qed.

Lemma keeps_weaken A (P Q : Event -> Prop) (K L : ResKind -> bool) (m : M A) :
  (forall e, P e -> Q e) ->
  (forall k, L k = true -> K k = true) ->
  keeps P K m -> keeps Q L m.
Proof.
  intros HP HK H w r w' E. eapply evolves_weaken; eauto.
Qed.

Lemma keeps_ret A P K (a : A) : keeps P K (ret a).
Proof. intros w r w' E. inversion E; subst. apply evolves_refl. Qed.

Lemma keeps_raise A P K e : keeps P K (@raise A e).
Proof. intros w r w' E. inversion E; subst. apply evolves_refl. Qed.

Lemma keeps_lift A P K (x : result A) : keeps P K (lift x).
Proof. intros w r w' E. inversion E; subst. apply evolves_refl. Qed.

Lemma keeps_get_cluster P K : keeps P K get_cluster.
Proof. intros w r w' E. inversion E; subst. apply evolves_refl. Qed.

Lemma keeps_bind A B P K (m : M A) (f : A -> M B) :
  keeps P K m -> (forall a, keeps P K (f a)) -> keeps P K (bind m f).
Proof.
  intros Hm Hf w r w' E. unfold bind in E.
  destruct (m w) as [[a|e] w1] eqn:Em.
  - eapply evolves_trans; [eapply Hm; eauto | eapply Hf; eauto].
  - inversion E; subst. eapply Hm; eauto.
Qed.

Lemma bind_inv A B (m : M A) (f : A -> M B) w r w' :
  bind m f w = (r, w') ->
  (exists a w1, m w = (Ok a, w1) /\ f a w1 = (r, w')) \/
  (exists e, m w = (Raise e, w') /\ r = Raise e).
Proof.
  unfold bind. destruct (m w) as [[a|e] w1]; intros E.
  - left. eauto.
  - right. inversion E; subst. eauto.
Qed.

Lemma keeps_try_except A P K (m : M A) (h : exn -> M A) :
  keeps P K m -> (forall e, keeps P K (h e)) -> keeps P K (try_except m h).
Proof.
  intros Hm Hh w r w' E. unfold try_except in E.
  destruct (m w) as [[a|e] w1] eqn:Em.
  - inversion E; subst. eapply Hm; eauto.
  - destruct (is_Exception e).
    + eapply evolves_trans; [eapply Hm; eauto | eapply Hh; eauto].
    + inversion E; subst. eapply Hm; eauto.
Qed.

Lemma keeps_for_each A P K (l : list A) (body : A -> M unit) :
  (forall x, In x l -> keeps P K (body x)) -> keeps P K (for_each l body).
Proof.
  induction l as [|x l IH]; intros H; simpl.
  - apply keeps_ret.
  - apply keeps_bind.
    + apply H. now left.
    + intros _. apply IH. intros y Hy. apply H. now right.
Qed.

Lemma keeps_if A P K (b : bool) (m1 m2 : M A) :
  (b = true -> keeps P K m1) -> (b = false -> keeps P K m2) ->
  keeps P K (if b then m1 else m2).
Proof. destruct b; auto. Qed.

Lemma keeps_emit (P : Event -> Prop) K e : P e -> keeps P K (emit e).
Proof.
  intros He w r w' E. inversion E; subst. split; simpl.
  - exists [e]. auto.
  - auto.
Qed.

Lemma keeps_put_cluster P (K : ResKind -> bool) k l :
  K k = false ->
  keeps P K (fun w => put_cluster (store k l (cluster w)) w).
Proof.
  intros Hk w r w' E. inversion E; subst. split; simpl.
  - exists []. rewrite app_nil_r. auto.
  - intros k' Hk'. destruct k, k'; simpl; congruence.
Qed.

Lemma keeps_input (P : Event -> Prop) K p : P (EvInput p) -> keeps P K (input p).
Proof.
  intros Hp. unfold input. apply keeps_bind.
  - now apply keeps_emit.
  - intros _ w r w' E.
    destruct (stdin w) as [|[s|] rest]; inversion E; subst;
      (split; simpl; [exists []; rewrite app_nil_r; auto | auto]).
Qed.

(** *** The API operations *)

Lemma keeps_request (P : Event -> Prop) K cl k c :
  (serves cl k = true -> P (EvApi cl c)) -> keeps P K (request cl k c).
Proof.
  intros H. unfold request. destruct (serves cl k).
  - apply keeps_bind.
    + apply keeps_emit; auto.
    + intros _. destruct (api_fails cl c); [apply keeps_raise | apply keeps_ret].
  - apply keeps_raise.
Qed.

Lemma keeps_api_read (P : Event -> Prop) K cl k n :
  (serves cl k = true -> P (EvApi cl (read_namespaced k n))) ->
  keeps P K (api_read cl k n).
Proof.
  intros H. unfold api_read. apply keeps_bind.
  - now apply keeps_request.
  - intros _ w r w' E. unfold bind, get_cluster in E.
    destruct (find (named n) (stored k (cluster w)));
      inversion E; subst; apply evolves_refl.
Qed.

Lemma keeps_api_list (P : Event -> Prop) K cl k sel :
  (serves cl k = true -> P (EvApi cl (list_namespaced k sel))) ->
  keeps P K (api_list cl k sel).
Proof.
  intros H. unfold api_list. apply keeps_bind.
  - now apply keeps_request.
  - intros _ w r w' E. inversion E; subst; apply evolves_refl.
Qed.

Lemma keeps_update P (K : ResKind -> bool) k (b : Cluster -> bool)
  (f : Cluster -> list Resource) e :
  K k = false ->
  keeps P K (c <- get_cluster ;;
             if b c then put_cluster (store k (f c) c) else raise e).
Proof.
  intros Hk w r w' E. unfold bind, get_cluster in E.
  destruct (b (cluster w)).
  - eapply (keeps_put_cluster P K k (f (cluster w)) Hk); eauto.
  - inversion E; subst. apply evolves_refl.
Qed.

Lemma keeps_api_replace (P : Event -> Prop) (K : ResKind -> bool) cl k n body :
  (serves cl k = true -> P (EvApi cl (replace_namespaced k n body))) ->
  K k = false ->
  keeps P K (api_replace cl k n body).
Proof.
  intros H Hk. unfold api_replace. apply keeps_bind.
  - now apply keeps_request.
  - intros _.
    apply (keeps_update P K k (fun c => present n (stored k c))
             (fun c => map (fun r => if named n r then body else r) (stored k c))
             (ApiException 404) Hk).
Qed.

Lemma keeps_api_create (P : Event -> Prop) (K : ResKind -> bool) cl k body :
  (serves cl k = true -> P (EvApi cl (create_namespaced k body))) ->
  K k = false ->
  keeps P K (api_create cl k body).
Proof.
  intros H Hk. unfold api_create. apply keeps_bind.
  - now apply keeps_request.
  - intros _ w r w' E. unfold bind, get_cluster in E.
    destruct (present (res_name body) (stored k (cluster w))).
    + inversion E; subst. apply evolves_refl.
    + eapply (keeps_put_cluster P K k _ Hk); eauto.
Qed.

Lemma keeps_api_delete (P : Event -> Prop) (K : ResKind -> bool) cl k n :
  (serves cl k = true -> P (EvApi cl (delete_namespaced k n))) ->
  (serves cl k = true -> K k = false) ->
  keeps P K (api_delete cl k n).
Proof.
  intros H Hk. unfold api_delete, request.
  destruct (serves cl k) eqn:Es.
  - apply keeps_bind.
    + apply keeps_bind; [apply keeps_emit; auto|].
      intros _. destruct (api_fails cl _); [apply keeps_raise | apply keeps_ret].
    + intros _.
      apply (keeps_update P K k (fun c => present n (stored k c))
               (fun c => filter (fun r => negb (named n r)) (stored k c))
               (ApiException 404) (Hk eq_refl)).
  - intros w r w' E. unfold bind, raise in E. inversion E; subst.
    apply evolves_refl.
Qed.

Lemma events_spec A P K (m : M A) w :
  keeps P K m ->
  trace (snd (m w)) = trace w ++ events m w /\ Forall P (events m w).
Proof.
  intros H. destruct (m w) as [r w'] eqn:E.
  destruct (H _ _ _ E) as [[t [Et Ft]] _].
  unfold events. rewrite E. simpl. rewrite Et.
  rewrite skipn_app, skipn_all, Nat.sub_diag. simpl. auto.
Qed.

(** *** The functions of the deployer *)

Lemma keeps_create_or_update (P : Event -> Prop) (K : ResKind -> bool)
  cl k body :
  P (EvApi cl (read_namespaced k (res_name body))) ->
  P (EvApi cl (replace_namespaced k (res_name body) body)) ->
  P (EvApi cl (create_namespaced k body)) ->
  K k = false ->
  keeps P K (create_or_update cl k body).
Proof.
  intros H1 H2 H3 Hk. unfold create_or_update.
  apply keeps_try_except.
  - apply keeps_bind; [apply keeps_api_read; auto|].
    intros _. apply keeps_api_replace; auto.
  - intros _. apply keeps_api_create; auto.
Qed.

Lemma keeps_confirm_and_delete (P : Event -> Prop) (K : ResKind -> bool)
  what cl k names :
  P (EvInput (ConfirmDelete what names)) ->
  (forall n, In n names -> serves cl k = true ->
             P (EvApi cl (delete_namespaced k n))) ->
  (serves cl k = true -> K k = false) ->
  keeps P K (confirm_and_delete what cl k names).
Proof.
  intros H1 H2 Hk. unfold confirm_and_delete.
  destruct (0 <? List.length names)%nat; [|apply keeps_ret].
  apply keeps_bind; [apply keeps_input; auto|].
  intros answer. destruct (String.eqb (Py.lower answer) "y"); [|apply keeps_ret].
  apply keeps_for_each. intros n Hn. apply keeps_api_delete; auto.
Qed.

Lemma keeps_update_pods (P : Event -> Prop) (K : ResKind -> bool) images :
  (forall e, build_event e = true -> P e) ->
  K Pods = false ->
  keeps P K (update_pods images).
Proof.
  intros HP Hk. unfold update_pods.
  apply keeps_bind; [apply keeps_api_list; intros _; apply HP; reflexivity|].
  intros items. apply keeps_bind; [apply keeps_lift|].
  intros names. apply keeps_confirm_and_delete.
  - apply HP; reflexivity.
  - intros n _ _. apply HP; reflexivity.
  - auto.
Qed.

Lemma keeps_build_and_push_images (P : Event -> Prop) (K : ResKind -> bool)
  challenges ignore_existing :
  (forall e, build_event e = true -> P e) ->
  K Pods = false ->
  keeps P K (build_and_push_images challenges ignore_existing).
Proof.
  intros HP Hk. unfold build_and_push_images.
  apply keeps_bind; [apply keeps_emit; apply HP; reflexivity|]. intros _.
  apply keeps_bind; [apply keeps_lift|]. intros d.
  apply keeps_bind; [apply keeps_lift|]. intros cmds.
  apply keeps_bind;
    [apply keeps_for_each; intros c _; apply keeps_emit; apply HP; reflexivity|].
  intros _.
  apply keeps_bind;
    [apply keeps_for_each; intros c _; apply keeps_emit; apply HP; reflexivity|].
  intros _.
  apply keeps_bind; [apply keeps_emit; apply HP; reflexivity|]. intros _.
  apply keeps_bind; [apply keeps_lift|]. intros updated.
  apply keeps_if; intros _; [apply keeps_update_pods; auto | apply keeps_ret].
Qed.

Lemma keeps_press_enter (P : Event -> Prop) K :
  P (EvInput PressEnter) -> keeps P K press_enter.
Proof.
  intros HP w r w' E. unfold press_enter in E.
  destruct (input PressEnter w) as [[s|e] w1] eqn:Ei.
  - inversion E; subst. eapply keeps_input; eauto.
  - assert (evolves P K w w1) by (eapply keeps_input; eauto).
    destruct e; inversion E; subst; auto.
Qed.

Lemma keeps_try_deploy (P : Event -> Prop) (K : ResKind -> bool)
  r challenge deployed :
  (forall e, apply_event e = true -> P e) ->
  (forall k, workload_kind k = true -> K k = false) ->
  kind r = "Service" \/ kind r = "Deployment" ->
  keeps P K (try_deploy r challenge deployed).
Proof.
  intros HP Hk Hkind. unfold try_deploy.
  apply keeps_try_except; [|intros _; apply keeps_ret].
  apply keeps_bind; [|intros _; apply keeps_ret].
  unfold create_or_update_resource.
  destruct Hkind as [E|E]; rewrite E; simpl.
  - apply keeps_create_or_update; try (apply HP; reflexivity).
    apply Hk; reflexivity.
  - apply keeps_create_or_update; try (apply HP; reflexivity).
    apply Hk; reflexivity.
Qed.

Lemma keeps_deploy_challenge (P : Event -> Prop) (K : ResKind -> bool)
  challenge d :
  (forall e, apply_event e = true -> P e) ->
  (forall k, workload_kind k = true -> K k = false) ->
  keeps P K (deploy_challenge challenge d).
Proof.
  intros HP Hk. unfold deploy_challenge.
  apply keeps_bind; [apply keeps_try_deploy; auto|]. intros dd.
  apply keeps_bind; [simpl; apply keeps_ret|]. intros dh.
  apply keeps_bind; [apply keeps_try_deploy; auto|]. intros ds.
  apply keeps_ret.
Qed.

Lemma keeps_deploy_all (P : Event -> Prop) (K : ResKind -> bool)
  challenges d :
  (forall e, apply_event e = true -> P e) ->
  (forall k, workload_kind k = true -> K k = false) ->
  keeps P K (deploy_all challenges d).
Proof.
  intros HP Hk. revert d.
  induction challenges as [|c cs IH]; intros d; simpl.
  - apply keeps_ret.
  - destruct (negb (has_dockerfile c)); [apply IH|].
    apply keeps_bind; [apply keeps_deploy_challenge; auto|].
    intros d'. apply IH.
Qed.

Lemma keeps_delete_pass (P : Event -> Prop) (K : ResKind -> bool)
  what list_cl del_cl k deployed :
  (forall e, delete_event e = true -> is_deletion e = false -> P e) ->
  (serves del_cl k = true ->
   forall n, P (EvApi del_cl (delete_namespaced k n))) ->
  String.eqb what "pods" = false ->
  k <> Pods ->
  (serves del_cl k = true -> K k = false) ->
  keeps P K (delete_pass what list_cl del_cl k deployed).
Proof.
  intros HP HD Hw Hp Hk. unfold delete_pass.
  assert (Hkp : negb (ResKind_eqb k Pods) = true) by (destruct k; auto; congruence).
  apply keeps_bind; [apply keeps_api_list; intros _; apply HP; simpl; auto|].
  intros items. apply keeps_confirm_and_delete.
  - apply HP; simpl; auto. now rewrite Hw.
  - intros n _ Hs. apply HD; auto.
  - auto.
Qed.

(** The whole run, for a class of events that holds the events of the
    three stages, the deletions only where the client has the method. *)
Lemma keeps_main (P : Event -> Prop) (K : ResKind -> bool)
  challenges build_images ignore_existing :
  (forall e, build_event e = true -> P e) ->
  (forall e, apply_event e = true -> P e) ->
  (forall e, delete_event e = true -> is_deletion e = false -> P e) ->
  (forall cl k n, serves cl k = true -> cl <> autoscaling_v1 ->
                  P (EvApi cl (delete_namespaced k n))) ->
  (forall k, K k = true -> k = Autoscalers) ->
  keeps P K (main challenges build_images ignore_existing).
Proof.
  intros Hb Ha Hd Hdel HK.
  assert (Knot : forall k, k <> Autoscalers -> K k = false).
  { intros k Hk. destruct (K k) eqn:E; auto. apply HK in E. contradiction. }
  unfold main.
  apply keeps_bind; [apply keeps_press_enter; apply Hb; reflexivity|].
  intros go. destruct go; simpl; [|apply keeps_ret].
  apply keeps_bind.
  { destruct build_images; [|apply keeps_ret].
    apply keeps_build_and_push_images; auto. apply Knot; discriminate. }
  intros _. apply keeps_bind.
  { apply keeps_deploy_all; auto.
    intros k Hk. apply Knot. destruct k; discriminate. }
  intros d.
  apply keeps_bind; [|intros _; apply keeps_bind; [|intros _]];
    apply keeps_delete_pass; auto; try discriminate;
    try (intros Hs n; apply Hdel; [exact Hs | discriminate]);
    intros _; apply Knot; discriminate.
Qed.

(** ** Single steps, run *)

Lemma request_ok cl k c w :
  serves cl k = true -> api_fails cl c = false ->
  request cl k c w = (Ok tt, logged (EvApi cl c) w).
Proof.
  intros Hs Hf. unfold request, bind, emit, ret. rewrite Hs, Hf. reflexivity.
Qed.

Lemma request_no_method cl k c w :
  serves cl k = false -> request cl k c w = (Raise (AttributeError cl c), w).
Proof. intros Hs. unfold request. rewrite Hs. reflexivity. Qed.

Lemma api_list_ok cl k sel w :
  serves cl k = true -> api_fails cl (list_namespaced k sel) = false ->
  api_list cl k sel w =
    (Ok (match sel with
         | Some s => filter (selects s) (stored k (cluster w))
         | None => stored k (cluster w)
         end),
     logged (EvApi cl (list_namespaced k sel)) w).
Proof.
  intros Hs Hf. unfold api_list, bind. rewrite request_ok by assumption.
  reflexivity.
Qed.

Lemma api_delete_no_method cl k n w :
  serves cl k = false ->
  api_delete cl k n w = (Raise (AttributeError cl (delete_namespaced k n)), w).
Proof.
  intros Hs. unfold api_delete, bind. rewrite request_no_method by assumption.
  reflexivity.
Qed.

Lemma input_line p w a rest :
  stdin w = Line a :: rest ->
  input p w = (Ok a, mkWorld (cluster w) (trace w ++ [EvInput p]) rest).
Proof.
  intros Hs. unfold input, bind, emit, logged. simpl. rewrite Hs. reflexivity.
Qed.

Lemma lower_ascii_y c :
  Py.lower_ascii c = "y"%char -> c = "y"%char \/ c = "Y"%char.
Proof.
  destruct c as [[] [] [] [] [] [] [] []]; vm_compute; intros H;
    solve [auto | discriminate H].
Qed.

(** [answer.lower() == "y"] holds of the answers ["y"] and ["Y"] and
    of no other. *)
Lemma lower_y a :
  String.eqb (Py.lower a) "y" = true <-> a = "y" \/ a = "Y".
Proof.
  split.
  - intros H. apply String.eqb_eq in H.
    destruct a as [|c [|c' s]]; simpl in H; try discriminate.
    inversion H as [Hc]. destruct (lower_ascii_y c Hc); subst; auto.
  - intros [->| ->]; reflexivity.
Qed.

Lemma confirm_and_delete_nil what cl k w :
  confirm_and_delete what cl k [] w = (Ok tt, w).
Proof. reflexivity. Qed.

(** A non-empty batch: the prompt is the first event, with the names of
    the batch, and the events after it are deletions of these names. *)
Lemma confirm_and_delete_cons what cl k names w r w' :
  names <> [] ->
  confirm_and_delete what cl k names w = (r, w') ->
  exists t,
    trace w' = trace w ++ EvInput (ConfirmDelete what names) :: t /\
    Forall (fun e => exists n, In n names /\
                       e = EvApi cl (delete_namespaced k n)) t.
Proof.
  intros Hn E. unfold confirm_and_delete in E.
  destruct names as [|n ns]; [congruence|]. simpl (0 <? _)%nat in E.
  apply bind_inv in E as [[a [w1 [E1 E]]]|[e [E1 ->]]].
  - unfold input in E1.
    apply bind_inv in E1 as [[u [w0 [E0 E1]]]|[e [E0 _]]]; [|discriminate E0].
    inversion E0; subst w0. clear E0.
    assert (T1 : trace w1 = trace w ++ [EvInput (ConfirmDelete what (n :: ns))]).
    { destruct (stdin (logged (EvInput (ConfirmDelete what (n :: ns))) w))
        as [|[s|] rest]; inversion E1; subst; reflexivity. }
    assert (Kr : keeps (fun e => exists m, In m (n :: ns) /\
                                  e = EvApi cl (delete_namespaced k m))
                   no_kind
                   (if String.eqb (Py.lower a) "y"
                    then for_each (n :: ns) (fun n => api_delete cl k n)
                    else ret tt)).
    { destruct (String.eqb (Py.lower a) "y"); [|apply keeps_ret].
      apply keeps_for_each. intros m Hm. apply keeps_api_delete; eauto. }
    destruct (Kr _ _ _ E) as [[t [Et Ft]] _].
    exists t. split; auto. rewrite Et, T1, <- app_assoc. reflexivity.
  - unfold input in E1.
    apply bind_inv in E1 as [[u [w0 [E0 E1]]]|[e' [E0 _]]]; [|discriminate E0].
    inversion E0; subst w0. clear E0.
    exists []. split; auto.
    destruct (stdin (logged (EvInput (ConfirmDelete what (n :: ns))) w))
      as [|[s|] rest]; inversion E1; subst; reflexivity.
Qed.

(** An answer other than ["y"] and ["Y"]: the prompt, no call, no
    error. *)
Lemma confirm_and_delete_denied what cl k names w a rest :
  names <> [] ->
  stdin w = Line a :: rest ->
  a <> "y" -> a <> "Y" ->
  confirm_and_delete what cl k names w =
    (Ok tt,
     mkWorld (cluster w) (trace w ++ [EvInput (ConfirmDelete what names)])
       rest).
Proof.
  intros Hn Hs H1 H2. unfold confirm_and_delete.
  destruct names as [|n ns]; [congruence|].
  change (0 <? List.length (n :: ns))%nat with true. cbv iota.
  unfold bind at 1. rewrite (input_line _ _ Hs).
  destruct (String.eqb (Py.lower a) "y") eqn:E; [|reflexivity].
  apply lower_y in E. destruct E; contradiction.
Qed.

Lemma find_named n l :
  find (named n) l = None <-> present n l = false.
Proof.
  unfold present. induction l as [|r l IH]; simpl; [split; reflexivity|].
  destruct (named n r); simpl; [split; discriminate | exact IH].
Qed.

Lemma api_read_ok cl k n w :
  serves cl k = true -> api_fails cl (read_namespaced k n) = false ->
  api_read cl k n w =
    (match find (named n) (stored k (cluster w)) with
     | Some r => Ok r
     | None => Raise (ApiException 404)
     end, logged (EvApi cl (read_namespaced k n)) w).
Proof.
  intros Hs Hf. unfold api_read. unfold bind at 1.
  rewrite request_ok by assumption. unfold bind, get_cluster. simpl.
  destruct (find (named n) (stored k (cluster w))); reflexivity.
Qed.

Lemma api_replace_ok cl k n body w :
  serves cl k = true -> api_fails cl (replace_namespaced k n body) = false ->
  present n (stored k (cluster w)) = true ->
  api_replace cl k n body w =
    (Ok tt,
     mkWorld
       (store k (map (fun r => if named n r then body else r)
                   (stored k (cluster w))) (cluster w))
       (trace w ++ [EvApi cl (replace_namespaced k n body)]) (stdin w)).
Proof.
  intros Hs Hf Hp. unfold api_replace. unfold bind at 1.
  rewrite request_ok by assumption. unfold bind, get_cluster. simpl.
  rewrite Hp. reflexivity.
Qed.

Lemma api_create_ok cl k body w :
  serves cl k = true -> api_fails cl (create_namespaced k body) = false ->
  present (res_name body) (stored k (cluster w)) = false ->
  api_create cl k body w =
    (Ok tt,
     mkWorld (store k (stored k (cluster w) ++ [body]) (cluster w))
       (trace w ++ [EvApi cl (create_namespaced k body)]) (stdin w)).
Proof.
  intros Hs Hf Hp. unfold api_create. unfold bind at 1.
  rewrite request_ok by assumption. unfold bind, get_cluster. simpl.
  rewrite Hp. reflexivity.
Qed.

Lemma api_delete_ok cl k n w :
  serves cl k = true -> api_fails cl (delete_namespaced k n) = false ->
  present n (stored k (cluster w)) = true ->
  api_delete cl k n w =
    (Ok tt,
     mkWorld
       (store k (filter (fun r => negb (named n r)) (stored k (cluster w)))
          (cluster w))
       (trace w ++ [EvApi cl (delete_namespaced k n)]) (stdin w)).
Proof.
  intros Hs Hf Hp. unfold api_delete. unfold bind at 1.
  rewrite request_ok by assumption. unfold bind, get_cluster. simpl.
  rewrite Hp. reflexivity.
Qed.

(** A create-or-update on a server that fails no call: the read, then
    the replacement of the stored object or, when there is none, the
    creation. *)
Lemma create_or_update_ok cl k body w :
  no_faults -> serves cl k = true ->
  create_or_update cl k body w =
    (Ok tt,
     mkWorld
       (store k (upsert body (stored k (cluster w))) (cluster w))
       (trace w ++
          [EvApi cl (read_namespaced k (res_name body));
           EvApi cl (upsert_call k body (stored k (cluster w)))])
       (stdin w)).
Proof.
  intros Hf Hs. unfold create_or_update, try_except, upsert, upsert_call.
  unfold bind at 1. rewrite api_read_ok by auto.
  destruct (present (res_name body) (stored k (cluster w))) eqn:Hp.
  - destruct (find (named (res_name body)) (stored k (cluster w))) eqn:Hfind.
    + rewrite api_replace_ok by auto. simpl. rewrite <- app_assoc. reflexivity.
    + apply find_named in Hfind. congruence.
  - apply find_named in Hp. rewrite Hp. simpl is_Exception. cbv iota.
    apply find_named in Hp.
    rewrite api_create_ok by auto. simpl. rewrite <- app_assoc. reflexivity.
Qed.

(** ** The order of the stages of a run *)

Lemma events_eq A (m : M A) w r w' t :
  m w = (r, w') -> trace w' = trace w ++ t -> events m w = t.
Proof.
  intros E Et. unfold events. rewrite E. simpl. rewrite Et.
  rewrite skipn_app, skipn_all, Nat.sub_diag. reflexivity.
Qed.

Lemma precedes_split (A B : Event -> bool) l1 l2 :
  Forall (fun e => B e = false) l1 ->
  Forall (fun e => A e = false) l2 ->
  precedes A B (l1 ++ l2).
Proof.
  intros HB HA i j a b Hi Hj Aa Bb.
  destruct (Nat.lt_ge_cases i (List.length l1)) as [Li|Li].
  - destruct (Nat.lt_ge_cases j (List.length l1)) as [Lj|Lj]; [|lia].
    rewrite nth_error_app1 in Hj by assumption.
    apply nth_error_In in Hj. rewrite Forall_forall in HB.
    rewrite (HB _ Hj) in Bb. discriminate.
  - rewrite nth_error_app2 in Hi by assumption.
    apply nth_error_In in Hi. rewrite Forall_forall in HA.
    rewrite (HA _ Hi) in Aa. discriminate.
Qed.

Lemma Forall_class (P Q : Event -> bool) l :
  (forall e, P e = true -> Q e = false) ->
  Forall (fun e => P e = true) l -> Forall (fun e => Q e = false) l.
Proof. intros H F. eapply Forall_impl; [|exact F]. auto. Qed.

Lemma build_not_apply e : build_event e = true -> is_apply e = false.
Proof. destruct e as [p|cl c|s]; simpl; auto; destruct c; simpl; auto; discriminate. Qed.

Lemma build_not_deletion e : build_event e = true -> is_deletion e = false.
Proof.
  destruct e as [p|cl c|s]; simpl; auto.
  destruct c as [k n|k n b|k b|k n|k s]; simpl; auto; try discriminate.
  destruct k; simpl; auto; discriminate.
Qed.

Lemma apply_not_eviction e : apply_event e = true -> is_eviction e = false.
Proof. destruct e as [p|cl c|s]; simpl; auto; destruct c; simpl; auto; discriminate. Qed.

Lemma apply_not_deletion e : apply_event e = true -> is_deletion e = false.
Proof. destruct e as [p|cl c|s]; simpl; auto; destruct c; simpl; auto; discriminate. Qed.

Lemma delete_not_eviction e : delete_event e = true -> is_eviction e = false.
Proof.
  destruct e as [p|cl c|s]; simpl; auto.
  destruct c as [k n|k n b|k b|k n|k s]; simpl; auto.
  destruct k; simpl; auto; discriminate.
Qed.

Lemma delete_not_apply e : delete_event e = true -> is_apply e = false.
Proof. destruct e as [p|cl c|s]; simpl; auto; destruct c; simpl; auto; discriminate. Qed.

(** The trace of a run, cut into its three stages. *)
Lemma main_stages challenges build_images ignore_existing w :
  exists t0 t1 t2,
    events (main challenges build_images ignore_existing) w = t0 ++ t1 ++ t2 /\
    Forall (fun e => build_event e = true) t0 /\
    Forall (fun e => apply_event e = true) t1 /\
    Forall (fun e => delete_event e = true) t2.
Proof.
  destruct (main challenges build_images ignore_existing w) as [r w'] eqn:E.
  assert (Hend : forall t0, trace w' = trace w ++ t0 ->
            Forall (fun e => build_event e = true) t0 ->
            exists t0 t1 t2,
              events (main challenges build_images ignore_existing) w
                = t0 ++ t1 ++ t2 /\
              Forall (fun e => build_event e = true) t0 /\
              Forall (fun e => apply_event e = true) t1 /\
              Forall (fun e => delete_event e = true) t2).
  { intros t0 Et Ft. exists t0, [], []. simpl. rewrite app_nil_r.
    split; [eapply events_eq; eauto | auto]. }
  pose proof E as Emain. unfold main in E.
  apply bind_inv in E as [[go [w0 [E0 E]]]|[e0 [E0 ->]]];
    pose proof (keeps_press_enter (fun e => build_event e = true)
                  no_kind eq_refl w E0)
      as [[ta [Eta Fta]] _].
  2:{ eauto. }
  destruct go; simpl in E.
  2:{ inversion E; subst. eauto. }
  apply bind_inv in E as [[u [w1 [E1 E]]]|[e1 [E1 ->]]].
  2:{ assert (Kb : evolves (fun e => build_event e = true) no_kind w0 w').
      { destruct build_images.
        - eapply keeps_build_and_push_images; eauto.
        - eapply keeps_ret; eauto. }
      destruct Kb as [[tb [Etb Ftb]] _].
      apply (Hend (ta ++ tb)).
      - rewrite Etb, Eta, app_assoc. reflexivity.
      - apply Forall_app; auto. }
  assert (Kb : evolves (fun e => build_event e = true) no_kind w0 w1).
  { destruct build_images.
    - eapply keeps_build_and_push_images; eauto.
    - eapply keeps_ret; eauto. }
  destruct Kb as [[tb [Etb Ftb]] _].
  apply bind_inv in E as [[d [w2 [E2 E]]]|[e2 [E2 ->]]];
    pose proof (keeps_deploy_all (fun e => apply_event e = true) no_kind
                  challenges (mkDeployed [] [] [])
                  (fun e H => H) (fun k _ => eq_refl) w1 E2)
      as [[tc [Etc Ftc]] _].
  2:{ exists (ta ++ tb), tc, []. rewrite app_nil_r.
      split; [|split; [apply Forall_app; auto | auto]].
      eapply events_eq; [exact Emain|].
      rewrite Etc, Etb, Eta, !app_assoc. reflexivity. }
  assert (Kd : keeps (fun e => delete_event e = true) no_kind
                 (delete_deployments d ;;; delete_services d ;;; delete_hpas d)).
  { apply keeps_bind; [|intros _; apply keeps_bind; [|intros _]];
      apply keeps_delete_pass; auto; try discriminate;
      intros _ n; reflexivity. }
  pose proof (Kd _ _ _ E) as [[td [Etd Ftd]] _].
  exists (ta ++ tb), tc, td.
  split; [|split; [apply Forall_app; auto | auto]].
  eapply events_eq; [exact Emain|].
  rewrite Etd, Etc, Etb, Eta, !app_assoc. reflexivity.
Qed.

(** C3, as the code has it: within one run the restart evictions of
    pods, which belong to the image build step, are issued before every
    creation or update; every creation or update is issued before every
    deletion of a deployment, a service or an autoscaler; hence the
    evictions come before the deletions, not after them. *)
Theorem C3_stage_order challenges build_images ignore_existing w :
  let t := events (main challenges build_images ignore_existing) w in
  precedes is_eviction is_apply t /\
  precedes is_apply is_deletion t /\
  precedes is_eviction is_deletion t.
Proof.
  destruct (main_stages challenges build_images ignore_existing w)
    as [t0 [t1 [t2 [Et [F0 [F1 F2]]]]]].
  simpl. rewrite Et. split; [|split].
  - apply precedes_split.
    + apply Forall_class with (P := build_event); auto using build_not_apply.
    + apply Forall_app; split.
      * apply Forall_class with (P := apply_event); auto using apply_not_eviction.
      * apply Forall_class with (P := delete_event); auto using delete_not_eviction.
  - rewrite app_assoc. apply precedes_split.
    + apply Forall_app; split.
      * apply Forall_class with (P := build_event); auto using build_not_deletion.
      * apply Forall_class with (P := apply_event); auto using apply_not_deletion.
    + apply Forall_class with (P := delete_event); auto using delete_not_apply.
  - apply precedes_split.
    + apply Forall_class with (P := build_event); auto using build_not_deletion.
    + apply Forall_app; split.
      * apply Forall_class with (P := apply_event); auto using apply_not_eviction.
      * apply Forall_class with (P := delete_event); auto using delete_not_eviction.
Qed.

(** ** What a deletion pass proposes *)

Lemma str_in_In x l : Py.str_in x l = true <-> In x l.
Proof.
  unfold Py.str_in. rewrite existsb_exists. split.
  - intros [y [Hy E]]. apply String.eqb_eq in E. now subst.
  - intros H. exists x. split; auto. apply String.eqb_refl.
Qed.

Lemma names_to_delete_In items deployed n :
  In n (names_to_delete items deployed) <->
  (exists r, In r items /\ res_name r = n) /\
  ~ In n (map Scanner.id deployed).
Proof.
  unfold names_to_delete. rewrite in_map_iff. split.
  - intros [r [Hn Hr]]. apply filter_In in Hr as [Hr Hd]. subst n. split.
    + eauto.
    + intros Hin. apply str_in_In in Hin. rewrite Hin in Hd. discriminate.
  - intros [[r [Hr Hn]] Hd]. exists r. split; auto.
    apply filter_In. split; auto. subst n.
    destruct (Py.str_in (res_name r) (map Scanner.id deployed)) eqn:E; auto.
    apply str_in_In in E. contradiction.
Qed.

Lemma api_list_inv cl k sel w r w1 :
  api_list cl k sel w = (r, w1) ->
  (r = Ok (match sel with
           | Some s => filter (selects s) (stored k (cluster w))
           | None => stored k (cluster w)
           end) /\
   w1 = logged (EvApi cl (list_namespaced k sel)) w) \/
  (exists e, r = Raise e /\
             (w1 = w \/ w1 = logged (EvApi cl (list_namespaced k sel)) w)).
Proof.
  unfold api_list, request, bind, emit, ret, raise, get_cluster.
  destruct (serves cl k); [destruct (api_fails cl _)|];
    intros E; inversion E; subst; eauto.
Qed.

(** The lists of deployed challenges come from the challenges of the
    run that have a Dockerfile, and no challenge ever enters
    [deployed_hpas]. *)
Lemma try_deploy_deployed r challenge deployed w l w' :
  try_deploy r challenge deployed w = (Ok l, w') ->
  l = deployed \/ l = deployed ++ [challenge].
Proof.
  unfold try_deploy, try_except, bind, ret.
  destruct (create_or_update_resource r w) as [[u|e] w1].
  - intros E. inversion E. auto.
  - destruct (is_Exception e); intros E; inversion E. auto.
Qed.

Lemma deploy_challenge_deployed challenge d w d' w' :
  deploy_challenge challenge d w = (Ok d', w') ->
  deployed_hpas d' = deployed_hpas d /\
  (forall c, In c (deployed_deployments d') ->
             In c (deployed_deployments d) \/ c = challenge) /\
  (forall c, In c (deployed_services d') ->
             In c (deployed_services d) \/ c = challenge).
Proof.
  unfold deploy_challenge. intros E.
  apply bind_inv in E as [[dd [w1 [E1 E]]]|[e [_ E]]]; [|discriminate E].
  change (if autoscaler_condition
          then try_deploy (hpa_manifest challenge) challenge (deployed_hpas d)
          else ret (deployed_hpas d))
    with (@ret (list Challenge) (deployed_hpas d)) in E.
  apply bind_inv in E as [[dh [w2 [E2 E]]]|[e [_ E]]]; [|discriminate E].
  apply bind_inv in E as [[ds [w3 [E3 E]]]|[e [_ E]]]; [|discriminate E].
  inversion E2; subst dh w2. inversion E; subst d' w'. simpl.
  apply try_deploy_deployed in E1, E3. split; [reflexivity|]. split; intros c Hc.
  - destruct E1 as [->| ->]; auto. apply in_app_or in Hc as [Hc|[Hc|[]]]; auto.
  - destruct E3 as [->| ->]; auto. apply in_app_or in Hc as [Hc|[Hc|[]]]; auto.
Qed.

Lemma deploy_all_deployed challenges d w d' w' :
  deploy_all challenges d w = (Ok d', w') ->
  deployed_hpas d' = deployed_hpas d /\
  (forall c, In c (deployed_deployments d') ->
             In c (deployed_deployments d) \/
             (In c challenges /\ has_dockerfile c = true)) /\
  (forall c, In c (deployed_services d') ->
             In c (deployed_services d) \/
             (In c challenges /\ has_dockerfile c = true)).
Proof.
  revert d w. induction challenges as [|ch cs IH]; intros d w E; simpl in E.
  - inversion E; subst. auto.
  - destruct (has_dockerfile ch) eqn:Hd; simpl in E.
    + apply bind_inv in E as [[d1 [w1 [E1 E]]]|[e [_ E]]]; [|discriminate E].
      apply deploy_challenge_deployed in E1 as [H1 [H2 H3]].
      apply IH in E as [G1 [G2 G3]]. split; [congruence|].
      split; intros c Hc.
      * destruct (G2 c Hc) as [Hc'|[Hc' Hf]]; [|right; split; simpl; auto].
        destruct (H2 c Hc') as [?| ->]; auto. right. split; simpl; auto.
      * destruct (G3 c Hc) as [Hc'|[Hc' Hf]]; [|right; split; simpl; auto].
        destruct (H3 c Hc') as [?| ->]; auto. right. split; simpl; auto.
    + apply IH in E as [G1 [G2 G3]]. split; [auto|].
      split; intros c Hc.
      * destruct (G2 c Hc) as [?|[? ?]]; auto. right. split; simpl; auto.
      * destruct (G3 c Hc) as [?|[? ?]]; auto. right. split; simpl; auto.
Qed.

(** A deletion pass lists the objects of its kind in the namespace
    without a label selector, and gathers the names that are not the id
    of a challenge of the list it is given.  It shows these names in one
    prompt, after which it issues deletions of these names only. *)
Lemma delete_pass_proposals what list_cl del_cl k deployed w :
  serves list_cl k = true ->
  api_fails list_cl (list_namespaced k None) = false ->
  let pass := delete_pass what list_cl del_cl k deployed in
  let names := names_to_delete (stored k (cluster w)) deployed in
  (forall n, In n names <->
     (exists r, In r (stored k (cluster w)) /\ res_name r = n) /\
     ~ In n (map Scanner.id deployed)) /\
  (names = [] ->
   events pass w = [EvApi list_cl (list_namespaced k None)]) /\
  (names <> [] ->
   exists t,
     events pass w =
       EvApi list_cl (list_namespaced k None)
         :: EvInput (ConfirmDelete what names) :: t /\
     Forall (fun e => exists n, In n names /\
                        e = EvApi del_cl (delete_namespaced k n)) t).
Proof.
  intros Hs Hf pass names. split; [|split].
  - intros n. apply names_to_delete_In.
  - intros Hn. destruct (pass w) as [r w'] eqn:E.
    eapply events_eq; [exact E|].
    unfold pass, delete_pass, bind in E.
    rewrite api_list_ok in E by assumption.
    fold names in E. rewrite Hn, confirm_and_delete_nil in E.
    inversion E; subst. reflexivity.
  - intros Hn. destruct (pass w) as [r w'] eqn:E.
    pose proof E as E'. unfold pass, delete_pass, bind in E'.
    rewrite api_list_ok in E' by assumption. fold names in E'.
    apply confirm_and_delete_cons in E' as [t [Et Ft]]; [|assumption].
    exists t. split; [|assumption].
    eapply events_eq; [exact E|]. rewrite Et. simpl.
    rewrite <- app_assoc. reflexivity.
Qed.

(** ** Which pods are restarted *)

Lemma select_pods_In images items names :
  select_pods images items = Ok names ->
  forall n, In n names <->
    exists pod c0 rest,
      In pod items /\ res_name pod = n /\
      spec_containers pod = c0 :: rest /\ In (image c0) images.
Proof.
  revert names. induction items as [|p items IH]; intros names E n; simpl in E.
  - inversion E; subst. split; [intros []|intros [? [? [? [[] _]]]]].
  - destruct (spec_containers p) as [|c0 rest] eqn:Ec; [discriminate|].
    destruct (select_pods images items) as [l|e]; [|discriminate].
    specialize (IH l eq_refl n). inversion E; subst names; clear E.
    destruct (Py.str_in (image c0) images) eqn:Ei; split.
    + intros [Hn|Hn].
      * exists p, c0, rest. apply str_in_In in Ei. simpl; auto.
      * apply IH in Hn as [q [d0 [dr [Hq H]]]]. exists q, d0, dr. simpl; auto.
    + intros [q [d0 [dr [[->|Hq] [Hn [Hc Hi]]]]]].
      * left; auto.
      * right. apply IH. eauto 8.
    + intros Hn. apply IH in Hn as [q [d0 [dr [Hq H]]]].
      exists q, d0, dr. simpl; auto.
    + intros [q [d0 [dr [[->|Hq] [Hn [Hc Hi]]]]]].
      * rewrite Ec in Hc. inversion Hc; subst.
        apply str_in_In in Hi. congruence.
      * apply IH. eauto 8.
Qed.

Lemma NoDup_map_inj A B (f : A -> B) l a b :
  NoDup (map f l) -> In a l -> In b l -> f a = f b -> a = b.
Proof.
  induction l as [|x l IH]; simpl; intros Hn Ha Hb E; [contradiction|].
  inversion Hn as [|y ys Hx Hl]; subst.
  destruct Ha as [->|Ha], Hb as [->|Hb]; auto.
  - exfalso. apply Hx. rewrite E. now apply in_map.
  - exfalso. apply Hx. rewrite <- E. now apply in_map.
Qed.

(** The events of [update_pods]: its listing, and when pods were
    selected the prompt with their names and deletions of these
    names. *)
Lemma update_pods_events images w :
  events (update_pods images) w = [] \/
  events (update_pods images) w
    = [EvApi core_v1 (list_namespaced Pods (Some MANAGED))] \/
  exists names t,
    select_pods images (filter managed (pods (cluster w))) = Ok names /\
    events (update_pods images) w
      = EvApi core_v1 (list_namespaced Pods (Some MANAGED))
          :: EvInput (ConfirmDelete "pods" names) :: t /\
    Forall (fun e => exists n, In n names /\
                       e = EvApi core_v1 (delete_namespaced Pods n)) t.
Proof.
  destruct (update_pods images w) as [r w'] eqn:E. pose proof E as E'.
  unfold update_pods in E'.
  apply bind_inv in E' as [[items [w1 [E1 E2]]]|[e [E1 _]]].
  - apply api_list_inv in E1 as [[Hi ->]|[e [He _]]]; [|discriminate He].
    inversion Hi; subst items; clear Hi.
    change (filter (selects MANAGED) (stored Pods (cluster w)))
      with (filter managed (pods (cluster w))) in E2.
    apply bind_inv in E2 as [[names [w2 [E2 E3]]]|[e [E2 _]]].
    + inversion E2; subst w2. destruct names as [|n ns].
      * rewrite confirm_and_delete_nil in E3. inversion E3; subst.
        right; left. eapply events_eq; [exact E|]. reflexivity.
      * apply confirm_and_delete_cons in E3 as [t [Et Ft]]; [|discriminate].
        right; right. exists (n :: ns), t. split; [assumption|].
        split; [|assumption]. eapply events_eq; [exact E|].
        rewrite Et. simpl. rewrite <- app_assoc. reflexivity.
    + inversion E2; subst. right; left.
      eapply events_eq; [exact E|]. reflexivity.
  - apply api_list_inv in E1 as [[Hi _]|[e' [_ [->| ->]]]]; [discriminate Hi| |].
    + left. eapply events_eq; [exact E|]. now rewrite app_nil_r.
    + right; left. eapply events_eq; [exact E|]. reflexivity.
Qed.

(** C9: the restart selection looks at the image of the first container
    of each managed pod only.  A managed pod whose first container runs
    an image that is not among the changed ones is named in no prompt
    and is not evicted, whatever its other containers run. *)
Theorem C9_first_container_only images w pod c0 rest :
  In pod (filter managed (pods (cluster w))) ->
  NoDup (map res_name (pods (cluster w))) ->
  spec_containers pod = c0 :: rest ->
  ~ In (image c0) images ->
  Forall (fun e =>
            match e with
            | EvInput (ConfirmDelete _ names) => ~ In (res_name pod) names
            | EvApi _ (delete_namespaced Pods n) => n <> res_name pod
            | _ => True
            end) (events (update_pods images) w).
Proof.
  intros Hp Hn Hc Hi.
  destruct (update_pods_events images w) as [E|[E|[names [t [Es [E Ft]]]]]];
    rewrite E; [constructor | constructor; [exact I | constructor] |].
  assert (Hnot : ~ In (res_name pod) names).
  { intros Hin. apply (select_pods_In _ _ Es) in Hin
      as [q [d0 [dr [Hq [Hname [Hqc Hqi]]]]]].
    assert (q = pod).
    { apply (NoDup_map_inj res_name (pods (cluster w))); auto.
      - apply filter_In in Hq. exact (proj1 Hq).
      - apply filter_In in Hp. exact (proj1 Hp). }
    subst q. rewrite Hc in Hqc. inversion Hqc; subst. contradiction. }
  constructor; [exact I|]. constructor; [exact Hnot|].
  eapply Forall_impl; [|exact Ft].
  intros e [n [Hin ->]]. intros ->. contradiction.
Qed.

(** ** The autoscalers *)

(** C8: when the operator approves a non-empty batch of autoscaler
    deletions, the deletion is looked up on the core client, which has
    no such method: the pass raises at the first name, after its
    listing and its prompt, and the cluster is as before.  No run of
    the reconciler issues the deletion of an autoscaler or changes the
    autoscalers of the namespace. *)
Theorem C8_autoscaler_delete_raises d w a rest n ns :
  api_fails autoscaling_v1 (list_namespaced Autoscalers None) = false ->
  names_to_delete (autoscalers (cluster w)) (deployed_hpas d) = n :: ns ->
  stdin w = Line a :: rest ->
  a = "y" \/ a = "Y" ->
  delete_hpas d w =
    (Raise (AttributeError core_v1 (delete_namespaced Autoscalers n)),
     mkWorld (cluster w)
       (trace w ++
          [EvApi autoscaling_v1 (list_namespaced Autoscalers None);
           EvInput (ConfirmDelete "HorizontalPodAutoscalers" (n :: ns))])
       rest) /\
  (forall challenges build_images ignore_existing w0,
     let run := main challenges build_images ignore_existing in
     autoscalers (cluster (snd (run w0))) = autoscalers (cluster w0) /\
     Forall (fun e => forall cl m,
                        e <> EvApi cl (delete_namespaced Autoscalers m))
       (events run w0)).
Proof.
  intros Hf Hn Hs Ha. split.
  - unfold delete_hpas, delete_pass. unfold bind at 1.
    rewrite api_list_ok by (reflexivity || assumption).
    change (stored Autoscalers (cluster w)) with (autoscalers (cluster w)).
    rewrite Hn. unfold confirm_and_delete.
    change (0 <? List.length (n :: ns))%nat with true. cbv iota.
    unfold bind at 1.
    rewrite (@input_line _ (logged _ w) a rest) by exact Hs.
    apply lower_y in Ha. rewrite Ha. simpl for_each. unfold bind at 1.
    rewrite api_delete_no_method by reflexivity.
    simpl. rewrite <- app_assoc. reflexivity.
  - intros challenges build_images ignore_existing w0 run.
    assert (K : keeps (fun e => forall cl m,
                         e <> EvApi cl (delete_namespaced Autoscalers m))
                  (fun k => ResKind_eqb k Autoscalers) run).
    { apply keeps_main.
      - intros e He cl m ->. discriminate He.
      - intros e He cl m ->. discriminate He.
      - intros e He Hd cl m ->. discriminate Hd.
      - intros cl k m Hserves Hcl cl' m' E. inversion E; subst.
        destruct cl'; try discriminate Hserves. contradiction.
      - intros k Hk. destruct k; try discriminate Hk. reflexivity. }
    split.
    + destruct (run w0) as [r w'] eqn:E. simpl.
      destruct (K _ _ _ E) as [_ S]. apply (S Autoscalers). reflexivity.
    + apply (events_spec w0 K).
Qed.

(** ** What is applied for a challenge *)

Lemma try_deploy_deployment_ok challenge deployed w :
  no_faults ->
  try_deploy (deployment_manifest challenge) challenge deployed w =
    (Ok (deployed ++ [challenge]),
     snd (create_or_update apps_v1 Deployments
            (deployment_manifest challenge) w)).
Proof.
  intros Hf. unfold try_deploy, try_except, create_or_update_resource.
  simpl String.eqb. cbv iota. unfold create_or_update_deployment.
  unfold bind. rewrite create_or_update_ok by auto. reflexivity.
Qed.

Lemma try_deploy_service_ok challenge deployed w :
  no_faults ->
  try_deploy (service_manifest challenge) challenge deployed w =
    (Ok (deployed ++ [challenge]),
     snd (create_or_update core_v1 Services (service_manifest challenge) w)).
Proof.
  intros Hf. unfold try_deploy, try_except, create_or_update_resource.
  simpl String.eqb. cbv iota. unfold create_or_update_service.
  unfold bind. rewrite create_or_update_ok by auto. reflexivity.
Qed.

Lemma deploy_challenge_ok challenge d w :
  no_faults ->
  deploy_challenge challenge d w =
    (Ok (mkDeployed (deployed_deployments d ++ [challenge])
           (deployed_services d ++ [challenge]) (deployed_hpas d)),
     mkWorld (applied challenge (cluster w))
       (trace w ++ apply_events challenge (cluster w)) (stdin w)).
Proof.
  intros Hf. unfold deploy_challenge. unfold bind at 1.
  rewrite try_deploy_deployment_ok by assumption.
  rewrite create_or_update_ok by auto. simpl snd.
  change (if autoscaler_condition
          then try_deploy (hpa_manifest challenge) challenge (deployed_hpas d)
          else ret (deployed_hpas d))
    with (@ret (list Challenge) (deployed_hpas d)).
  unfold bind at 1. unfold ret at 1. unfold bind at 1.
  rewrite try_deploy_service_ok by assumption.
  rewrite create_or_update_ok by auto. simpl.
  unfold apply_events. rewrite <- app_assoc. reflexivity.
Qed.

(** ** A run on a settled cluster *)

Lemma deploy_all_ok challenges d w :
  no_faults ->
  deploy_all challenges d w =
    (Ok (mkDeployed
           (deployed_deployments d ++ filter has_dockerfile challenges)
           (deployed_services d ++ filter has_dockerfile challenges)
           (deployed_hpas d)),
     mkWorld (applied_all challenges (cluster w))
       (trace w ++ apply_events_all challenges (cluster w)) (stdin w)).
Proof.
  intros Hf. revert d w.
  induction challenges as [|ch cs IH]; intros d w; simpl.
  - unfold ret. rewrite !app_nil_r. destruct d, w. reflexivity.
  - destruct (has_dockerfile ch); simpl.
    + unfold bind. rewrite deploy_challenge_ok by assumption.
      rewrite IH. simpl. rewrite <- !app_assoc. reflexivity.
    + apply IH.
Qed.

Lemma in_place_upsert k body l :
  in_place body l ->
  upsert body l = l /\
  upsert_call k body l = replace_namespaced k (res_name body) body.
Proof.
  intros [Hp Hu]. unfold upsert, upsert_call. rewrite Hp. split; [|reflexivity].
  rewrite <- (map_id l) at 2. apply map_ext_in. intros r Hr.
  unfold named. destruct (String.eqb (res_name r) (res_name body)) eqn:E.
  - apply String.eqb_eq in E. symmetry. now apply Hu.
  - reflexivity.
Qed.

Lemma applied_in_place ch c :
  in_place (deployment_manifest ch) (deployments c) ->
  in_place (service_manifest ch) (services c) ->
  applied ch c = c /\
  apply_events ch c =
    [EvApi apps_v1 (read_namespaced Deployments (Scanner.id ch));
     EvApi apps_v1
       (replace_namespaced Deployments (Scanner.id ch) (deployment_manifest ch));
     EvApi core_v1 (read_namespaced Services (Scanner.id ch));
     EvApi core_v1
       (replace_namespaced Services (Scanner.id ch) (service_manifest ch))].
Proof.
  intros Hd Hs.
  destruct (@in_place_upsert Deployments _ _ Hd) as [Ud Cd].
  destruct (@in_place_upsert Services _ _ Hs) as [Us Cs].
  unfold applied, apply_events. rewrite Ud, Us, Cd, Cs.
  split; [destruct c; reflexivity | reflexivity].
Qed.

Lemma applied_all_settled challenges c :
  (forall ch, In ch challenges -> has_dockerfile ch = true ->
     in_place (deployment_manifest ch) (deployments c) /\
     in_place (service_manifest ch) (services c)) ->
  applied_all challenges c = c /\
  apply_events_all challenges c =
    flat_map (fun ch => apply_events ch c) (filter has_dockerfile challenges).
Proof.
  induction challenges as [|ch cs IH]; intros H; simpl; [auto|].
  assert (IH' : applied_all cs c = c /\
                apply_events_all cs c =
                  flat_map (fun ch => apply_events ch c)
                    (filter has_dockerfile cs)).
  { apply IH. intros ch' Hin. apply H. now right. }
  destruct IH' as [IH1 IH2].
  destruct (has_dockerfile ch) eqn:E; [|auto].
  destruct (H ch (or_introl eq_refl) E) as [Hd Hs].
  destruct (@applied_in_place ch c Hd Hs) as [A _].
  rewrite A. simpl. rewrite IH2. auto.
Qed.

Lemma names_to_delete_nil items deployed :
  (forall r, In r items -> In (res_name r) (map Scanner.id deployed)) ->
  names_to_delete items deployed = [].
Proof.
  intros H. unfold names_to_delete.
  induction items as [|r items IH]; simpl; [reflexivity|].
  assert (E : Py.str_in (res_name r) (map Scanner.id deployed) = true).
  { apply str_in_In. apply H. now left. }
  rewrite E. simpl. apply IH. intros r' Hr'. apply H. now right.
Qed.

Lemma delete_pass_quiet what list_cl del_cl k deployed w :
  serves list_cl k = true ->
  api_fails list_cl (list_namespaced k None) = false ->
  names_to_delete (stored k (cluster w)) deployed = [] ->
  delete_pass what list_cl del_cl k deployed w =
    (Ok tt, logged (EvApi list_cl (list_namespaced k None)) w).
Proof.
  intros Hs Hf Hn. unfold delete_pass, bind.
  rewrite api_list_ok by assumption. rewrite Hn. reflexivity.
Qed.

Lemma for_each_run_command commands w :
  for_each commands run_command w =
    (Ok tt, mkWorld (cluster w) (trace w ++ map EvShell commands) (stdin w)).
Proof.
  revert w. induction commands as [|c cs IH]; intros w; simpl.
  - unfold ret. rewrite app_nil_r. destruct w. reflexivity.
  - unfold bind, run_command, emit. rewrite IH. simpl.
    rewrite <- app_assoc. reflexivity.
Qed.

(** With [ignore_existing] off the list [images_repositories] is empty:
    every challenge with a Dockerfile is built and pushed. *)
Lemma build_plan_ok challenges build_commands push_commands :
  build_plan challenges (Some []) build_commands push_commands =
    Ok (build_commands ++ map build_command (filter has_dockerfile challenges),
        push_commands ++ map push_command (filter has_dockerfile challenges)).
Proof.
  revert build_commands push_commands.
  induction challenges as [|ch cs IH]; intros b p; simpl.
  - now rewrite !app_nil_r.
  - destruct (has_dockerfile ch); simpl.
    + rewrite IH, <- !app_assoc. reflexivity.
    + apply IH.
Qed.

Lemma build_quiet challenges w :
  quiet_build ->
  build_and_push_images challenges false w =
    (Ok tt,
     mkWorld (cluster w) (trace w ++ shell_events challenges) (stdin w)).
Proof.
  intros [d [Hb Ha]]. unfold build_and_push_images.
  unfold bind at 1. unfold emit at 1. unfold bind at 1. unfold lift at 1.
  rewrite Hb. unfold bind at 1. unfold lift at 1. simpl negb. cbv iota.
  rewrite build_plan_ok. simpl fst. simpl snd.
  unfold bind at 1. rewrite for_each_run_command.
  unfold bind at 1. rewrite for_each_run_command.
  unfold bind at 1. unfold emit at 1. unfold bind at 1. unfold lift at 1.
  rewrite Ha. simpl. unfold ret, shell_events, logged. simpl.
  rewrite !map_map, <- !app_assoc. simpl. reflexivity.
Qed.

Lemma settled_no_stale challenges c :
  settled challenges c ->
  names_to_delete (deployments c) (filter has_dockerfile challenges) = [] /\
  names_to_delete (services c) (filter has_dockerfile challenges) = [] /\
  names_to_delete (autoscalers c) [] = [].
Proof.
  intros [_ [Hd [Hs Ha]]]. split; [|split].
  - apply names_to_delete_nil. intros r Hr.
    destruct (Hd r Hr) as [ch [Hin [Hf ->]]].
    apply in_map. apply filter_In. auto.
  - apply names_to_delete_nil. intros r Hr.
    destruct (Hs r Hr) as [ch [Hin [Hf ->]]].
    apply in_map. apply filter_In. auto.
  - rewrite Ha. reflexivity.
Qed.

(** The whole run on a settled cluster, event by event. *)
Lemma main_settled challenges build_images w a rest :
  no_faults ->
  settled challenges (cluster w) ->
  (build_images = true -> quiet_build) ->
  stdin w = Line a :: rest ->
  main challenges build_images false w =
    (Ok tt,
     mkWorld (cluster w)
       (trace w ++
          EvInput PressEnter
            :: (if build_images then shell_events challenges else [])
            ++ flat_map (fun ch => apply_events ch (cluster w))
                 (filter has_dockerfile challenges)
            ++ [EvApi apps_v1 (list_namespaced Deployments None);
                EvApi core_v1 (list_namespaced Services None);
                EvApi autoscaling_v1 (list_namespaced Autoscalers None)])
       rest).
Proof.
  intros Hf Hset Hq Hs.
  destruct (@settled_no_stale _ _ Hset) as [Nd [Ns Nh]].
  destruct Hset as [Hin _].
  destruct (applied_all_settled challenges (cluster w) Hin) as [A1 A2].
  unfold main. unfold bind at 1. unfold press_enter.
  rewrite (input_line _ _ Hs). cbv beta iota.
  change (negb true) with false. cbv beta iota.
  set (w0 := mkWorld (cluster w) (trace w ++ [EvInput PressEnter]) rest).
  set (sh := if build_images then shell_events challenges else []).
  assert (Eb : (if build_images
                then build_and_push_images challenges false
                else ret tt) w0
               = (Ok tt, mkWorld (cluster w) (trace w0 ++ sh) rest)).
  { unfold sh. destruct build_images.
    - rewrite build_quiet by auto. reflexivity.
    - unfold ret. rewrite app_nil_r. reflexivity. }
  unfold bind at 1. rewrite Eb.
  unfold bind at 1. rewrite deploy_all_ok by assumption.
  simpl cluster. simpl trace. simpl stdin. rewrite A1, A2.
  unfold delete_deployments, delete_services, delete_hpas. simpl.
  unfold bind at 1. rewrite delete_pass_quiet by (auto; exact Nd).
  unfold bind at 1. rewrite delete_pass_quiet by (auto; exact Ns).
  rewrite delete_pass_quiet by (auto; exact Nh).
  unfold logged, w0. simpl. rewrite <- !app_assoc. reflexivity.
Qed.

Lemma filter_shell_events (f : Event -> bool) challenges :
  (forall s, f (EvShell s) = false) ->
  filter f (shell_events challenges) = [].
Proof.
  intros Hf. unfold shell_events. simpl. rewrite Hf.
  rewrite !filter_app. simpl. rewrite Hf.
  assert (N : forall (g : Challenge -> string) l,
            filter f (map (fun ch => EvShell (g ch)) l) = []).
  { intros g l. induction l as [|x l IH]; simpl; [reflexivity|].
    now rewrite Hf. }
  now rewrite !N.
Qed.

Lemma settled_mutations challenges c :
  settled challenges c ->
  filter is_mutation
    (flat_map (fun ch => apply_events ch c) (filter has_dockerfile challenges))
    = replacements challenges /\
  filter is_proposal
    (flat_map (fun ch => apply_events ch c) (filter has_dockerfile challenges))
    = [].
Proof.
  intros [Hin _]. unfold replacements.
  assert (H : forall ch, In ch (filter has_dockerfile challenges) ->
            in_place (deployment_manifest ch) (deployments c) /\
            in_place (service_manifest ch) (services c)).
  { intros ch Hc. apply filter_In in Hc as [Hc Hd]. auto. }
  clear Hin. induction (filter has_dockerfile challenges) as [|ch l IH].
  - split; reflexivity.
  - destruct (H ch (or_introl eq_refl)) as [Hd Hs].
    destruct (@applied_in_place ch c Hd Hs) as [_ E].
    destruct IH as [IH1 IH2]; [intros x Hx; apply H; now right|].
    cbn [flat_map]. rewrite !filter_app, IH1, IH2, E. split; reflexivity.
Qed.

(** C2, as the code has it: on a settled cluster, where the manifests
    of every challenge with a Dockerfile are in place and nothing else
    is left in the namespace, with a server that fails no call and a
    build step that finds no image changed, a run ends normally and
    leaves the cluster as it was; it proposes no batch and issues no
    creation, deletion or eviction; the calls it issues that change the
    cluster are one replacement of the deployment and one of the
    service of each challenge with a Dockerfile, by its own manifest. *)
Theorem C2_second_run challenges build_images w a rest :
  no_faults ->
  settled challenges (cluster w) ->
  (build_images = true -> quiet_build) ->
  stdin w = Line a :: rest ->
  let run := main challenges build_images false in
  fst (run w) = Ok tt /\
  cluster (snd (run w)) = cluster w /\
  filter is_mutation (events run w) = replacements challenges /\
  filter is_proposal (events run w) = [].
Proof.
  intros Hf Hset Hq Hs run.
  pose proof (@main_settled challenges build_images w a rest Hf Hset Hq Hs) as E.
  fold run in E.
  destruct (@settled_mutations challenges (cluster w) Hset) as [M1 M2].
  assert (Ev : events run w =
               EvInput PressEnter
                 :: (if build_images then shell_events challenges else [])
                 ++ flat_map (fun ch => apply_events ch (cluster w))
                      (filter has_dockerfile challenges)
                 ++ [EvApi apps_v1 (list_namespaced Deployments None);
                     EvApi core_v1 (list_namespaced Services None);
                     EvApi autoscaling_v1 (list_namespaced Autoscalers None)]).
  { eapply events_eq; [exact E|]. reflexivity. }
  rewrite E, Ev. simpl fst. simpl snd. simpl cluster.
  split; [reflexivity|]. split; [reflexivity|].
  cbn [filter is_mutation is_proposal]. rewrite !filter_app, M1, M2.
  assert (S1 : filter is_mutation
                 (if build_images then shell_events challenges else []) = []).
  { destruct build_images; [|reflexivity].
    apply filter_shell_events. reflexivity. }
  assert (S2 : filter is_proposal
                 (if build_images then shell_events challenges else []) = []).
  { destruct build_images; [|reflexivity].
    apply filter_shell_events. reflexivity. }
  rewrite S1, S2. simpl. rewrite app_nil_r. split; reflexivity.
Qed.

(** ** The image build step *)

Lemma parse_line_raise line e : parse_line line = Raise e -> e = ValueError.
Proof.
  unfold parse_line.
  destruct (String.eqb (Py.remove_all line "__:__") ""); [discriminate|].
  destruct (Py.split line "__:__") as [|a [|b [|c l]]]; intros E;
    inversion E; reflexivity.
Qed.

Lemma registry_digests_raise lines d e :
  registry_digests lines d = Raise e -> e = ValueError.
Proof.
  revert d. induction lines as [|line rest IH]; intros d; simpl; [discriminate|].
  destruct (parse_line line) as [[[r dg]|]|e'] eqn:E.
  - destruct (Py.startswith r REGISTRY); [|apply IH].
    destruct (dict_get r d); apply IH.
  - apply IH.
  - intros H. inversion H; subst. eapply parse_line_raise; eauto.
Qed.

(** With [ignore_existing] on, [images_repositories] is unbound, and the
    first challenge with a Dockerfile reads it. *)
Lemma build_plan_unbound challenges build_commands push_commands :
  existsb has_dockerfile challenges = true ->
  build_plan challenges None build_commands push_commands
    = Raise (NameError "images_repositories").
Proof.
  induction challenges as [|ch cs IH]; simpl; [discriminate|].
  destruct (has_dockerfile ch); simpl; [reflexivity | exact IH].
Qed.

(** C5 on the code: with the policy on and a challenge that has a
    Dockerfile, the build step ends in an exception after its first
    [docker images], before any build or push command; the exception
    is the [NameError] of the unbound [images_repositories], unless the
    listing itself could not be unpacked. *)
Theorem C5_ignore_existing_raises challenges w :
  existsb has_dockerfile challenges = true ->
  exists e,
    build_and_push_images challenges true w
      = (Raise e, logged (EvShell DOCKER_IMAGES) w) /\
    (e = NameError "images_repositories" \/ e = ValueError).
Proof.
  intros H. unfold build_and_push_images.
  unfold bind at 1. unfold emit at 1. unfold bind at 1. unfold lift at 1.
  destruct (registry_digests (Py.split docker_images_before NEWLINE) [])
    as [d|e] eqn:E.
  - unfold bind at 1. unfold lift at 1. simpl negb. cbv iota.
    rewrite build_plan_unbound by assumption. eauto.
  - exists e. split; [reflexivity|]. right.
    eapply registry_digests_raise; eauto.
Qed.

(** *** The images that changed *)

Lemma registry_digests_entries lines es d :
  entries lines = Ok es ->
  registry_digests lines d = Ok (fold_left add_first es d).
Proof.
  revert es d. induction lines as [|line rest IH]; intros es d; simpl.
  - intros E. inversion E. reflexivity.
  - destruct (parse_line line) as [[[r dg]|]|e]; [| apply IH | discriminate].
    destruct (entries rest) as [l|e]; [|discriminate].
    intros E. inversion E; subst es. simpl. unfold add_first at 2. simpl.
    destruct (Py.startswith r REGISTRY); [|apply IH; reflexivity].
    destruct (dict_get r d); apply IH; reflexivity.
Qed.

Lemma updated_images_entries lines es d acc :
  entries lines = Ok es ->
  updated_images lines d acc = Ok (acc ++ map fst (filter (changed d) es)).
Proof.
  revert es acc. induction lines as [|line rest IH]; intros es acc; simpl.
  - intros E. inversion E. simpl. now rewrite app_nil_r.
  - destruct (parse_line line) as [[[r dg]|]|e]; [| apply IH | discriminate].
    destruct (entries rest) as [l|e]; [|discriminate].
    intros E. inversion E; subst es. simpl. unfold changed at 1. simpl.
    destruct (Py.startswith r REGISTRY); simpl; [|apply IH; reflexivity].
    destruct (dict_get r d) as [old|]; [|apply IH; reflexivity].
    destruct (negb (String.eqb old dg) && negb (String.eqb dg "")
              && negb (String.eqb old "")).
    + rewrite (IH l) by reflexivity. simpl. rewrite <- app_assoc. reflexivity.
    + apply IH; reflexivity.
Qed.

Lemma dict_get_app r d k v :
  dict_get r (d ++ [(k, v)]) =
    match dict_get r d with
    | Some x => Some x
    | None => if String.eqb r k then Some v else None
    end.
Proof.
  induction d as [|[k' v'] d IH]; simpl; [reflexivity|].
  destruct (String.eqb r k'); [reflexivity | exact IH].
Qed.

(** The dict of the first loop holds, for a repository of the registry,
    the first digest listed for it. *)
Lemma dict_get_fold r es d :
  dict_get r (fold_left add_first es d) =
    match dict_get r d with
    | Some v => Some v
    | None => if Py.startswith r REGISTRY then dict_get r es else None
    end.
Proof.
  revert d. induction es as [|[k v] es IH]; intros d; simpl.
  - destruct (dict_get r d); [reflexivity|]. now destruct (Py.startswith r REGISTRY).
  - rewrite IH. unfold add_first. simpl.
    destruct (Py.startswith k REGISTRY) eqn:Ek.
    + destruct (dict_get k d) eqn:Ed.
      * destruct (dict_get r d) eqn:Er; [reflexivity|].
        destruct (String.eqb r k) eqn:Erk; [|reflexivity].
        apply String.eqb_eq in Erk. subst r. congruence.
      * rewrite dict_get_app. destruct (dict_get r d); [reflexivity|].
        destruct (String.eqb r k) eqn:Erk; [|reflexivity].
        apply String.eqb_eq in Erk. subst r. now rewrite Ek.
    + destruct (dict_get r d); [reflexivity|].
      destruct (String.eqb r k) eqn:Erk; [|reflexivity].
      apply String.eqb_eq in Erk. subst r. now rewrite Ek.
Qed.

Lemma dict_get_In r v es : dict_get r es = Some v -> In (r, v) es.
Proof.
  induction es as [|[k x] es IH]; simpl; [discriminate|].
  destruct (String.eqb r k) eqn:E.
  - apply String.eqb_eq in E. intros H. inversion H; subst. now left.
  - intros H. right. now apply IH.
Qed.

Lemma In_dict_get r v es : In (r, v) es -> exists x, dict_get r es = Some x.
Proof.
  induction es as [|[k x] es IH]; simpl; [intros []|].
  intros [E|H].
  - inversion E; subst. rewrite String.eqb_refl. eauto.
  - destruct (String.eqb r k); eauto.
Qed.

Lemma eqb_false_neq a b : negb (String.eqb a b) = true <-> a <> b.
Proof.
  destruct (String.eqb a b) eqn:E; simpl; split; intros H.
  - discriminate.
  - apply String.eqb_eq in E. contradiction.
  - apply String.eqb_neq. exact E.
  - reflexivity.
Qed.

(** The changed-image set in general: some line of the listing after
    the push differs from the first digest listed before. *)
Lemma changed_In eb ea r :
  In r (map fst (filter (changed (fold_left add_first eb [])) ea)) <->
  Py.startswith r REGISTRY = true /\
  exists old new,
    dict_get r eb = Some old /\ In (r, new) ea /\
    old <> new /\ new <> "" /\ old <> "".
Proof.
  rewrite in_map_iff. split.
  - intros [[k new] [Hk Hin]]. simpl in Hk. subst k.
    apply filter_In in Hin as [Hin Hc]. unfold changed in Hc. simpl in Hc.
    apply andb_prop in Hc as [Hs Hc]. split; [exact Hs|].
    rewrite dict_get_fold in Hc. simpl in Hc. rewrite Hs in Hc.
    destruct (dict_get r eb) as [old|]; [|discriminate].
    apply andb_prop in Hc as [Hc H3]. apply andb_prop in Hc as [H1 H2].
    exists old, new. rewrite eqb_false_neq in H1, H2, H3. auto.
  - intros [Hs [old [new [Hb [Ha [H1 [H2 H3]]]]]]].
    exists (r, new). split; [reflexivity|].
    apply filter_In. split; [exact Ha|].
    unfold changed. simpl. rewrite Hs, dict_get_fold. simpl. rewrite Hs, Hb.
    rewrite <- eqb_false_neq in H1, H2, H3. rewrite H1, H2, H3. reflexivity.
Qed.

(** The build step with [ignore_existing] off, once its two listings
    are read: the shell commands, then the restart of the pods of the
    changed images when there are any. *)
Lemma build_and_push_images_restart challenges w d upd :
  registry_digests (Py.split docker_images_before NEWLINE) [] = Ok d ->
  updated_images (Py.split docker_images_after NEWLINE) d [] = Ok upd ->
  build_and_push_images challenges false w =
    (if (0 <? List.length upd)%nat then update_pods upd else ret tt)
      (mkWorld (cluster w) (trace w ++ shell_events challenges) (stdin w)).
Proof.
  intros Hb Ha. unfold build_and_push_images.
  unfold bind at 1. unfold emit at 1. unfold bind at 1. unfold lift at 1.
  rewrite Hb. unfold bind at 1. unfold lift at 1. simpl negb. cbv iota.
  rewrite build_plan_ok. simpl fst. simpl snd.
  unfold bind at 1. rewrite for_each_run_command.
  unfold bind at 1. rewrite for_each_run_command.
  unfold bind at 1. unfold emit at 1. unfold bind at 1. unfold lift at 1.
  rewrite Ha. unfold shell_events, logged. simpl.
  rewrite !map_map, <- !app_assoc. simpl. reflexivity.
Qed.

(** The selection of [update_pods] on the pods that carry the label:
    when every one of them has a container, the names of those whose
    first container runs one of the images, in the order of the
    listing. *)
Lemma select_pods_restarted images l :
  Forall (fun pod => spec_containers pod <> []) (filter managed l) ->
  select_pods images (filter managed l)
    = Ok (map res_name (filter (restarted images) l)).
Proof.
  induction l as [|p l IH]; simpl; intros H; [reflexivity|].
  unfold restarted at 1. destruct (managed p) eqn:Hm; simpl.
  - inversion H as [|x xs Hp Hl]; subst.
    destruct (spec_containers p) as [|c0 rest]; [congruence|].
    rewrite (IH Hl).
    destruct (Py.str_in (image c0) images); reflexivity.
  - apply IH. exact H.
Qed.

Lemma restarted_In images l n :
  In n (map res_name (filter (restarted images) l)) <->
  exists pod c0 rest,
    In pod l /\ managed pod = true /\ res_name pod = n /\
    spec_containers pod = c0 :: rest /\ In (image c0) images.
Proof.
  rewrite in_map_iff. split.
  - intros [pod [Hn Hp]]. apply filter_In in Hp as [Hp Hr].
    unfold restarted in Hr. apply andb_prop in Hr as [Hm Hi].
    destruct (spec_containers pod) as [|c0 rest] eqn:Hc; [discriminate|].
    exists pod, c0, rest. apply str_in_In in Hi. auto.
  - intros [pod [c0 [rest [Hp [Hm [Hn [Hc Hi]]]]]]].
    exists pod. split; [exact Hn|]. apply filter_In. split; [exact Hp|].
    unfold restarted. rewrite Hm, Hc. apply str_in_In. exact Hi.
Qed.

(** [update_pods] on a server that serves its listing, every labelled
    pod having a container. *)
Lemma update_pods_run images w :
  api_fails core_v1 (list_namespaced Pods (Some MANAGED)) = false ->
  Forall (fun pod => spec_containers pod <> [])
    (filter managed (pods (cluster w))) ->
  update_pods images w =
    confirm_and_delete "pods" core_v1 Pods
      (map res_name (filter (restarted images) (pods (cluster w))))
      (logged (EvApi core_v1 (list_namespaced Pods (Some MANAGED))) w).
Proof.
  intros Hf Hc. unfold update_pods. unfold bind at 1.
  rewrite api_list_ok by auto.
  change (filter (selects MANAGED) (stored Pods (cluster w)))
    with (filter managed (pods (cluster w))).
  unfold bind at 1. unfold lift at 1.
  rewrite (select_pods_restarted images _ Hc). reflexivity.
Qed.

(** C6, as the code has it.  For a repository that the listing after
    the push has once, the repository is in the changed-image set
    exactly when it starts with the registry prefix, the listing before
    the build has it, and its digest after the push is not empty and
    differs from the first digest listed for it before the build,
    itself not empty.  After its shell commands the build step sends
    nothing when the set is empty; otherwise it lists the pods that
    carry the management label and proposes for restart, in one prompt,
    exactly those among them whose first container runs an image of the
    set, and prompts for nothing when there is none; the calls after
    the prompt are evictions of the pods proposed. *)
Theorem C6_changed_images eb ea challenges w :
  entries (Py.split docker_images_before NEWLINE) = Ok eb ->
  entries (Py.split docker_images_after NEWLINE) = Ok ea ->
  api_fails core_v1 (list_namespaced Pods (Some MANAGED)) = false ->
  Forall (fun pod => spec_containers pod <> [])
    (filter managed (pods (cluster w))) ->
  let run := build_and_push_images challenges false in
  exists d upd,
    registry_digests (Py.split docker_images_before NEWLINE) [] = Ok d /\
    updated_images (Py.split docker_images_after NEWLINE) d [] = Ok upd /\
    (forall r,
       (forall n1 n2, In (r, n1) ea -> In (r, n2) ea -> n1 = n2) ->
       (In r upd <->
        Py.startswith r REGISTRY = true /\
        exists old new,
          dict_get r eb = Some old /\ dict_get r ea = Some new /\
          old <> new /\ new <> "" /\ old <> "")) /\
    let names := map res_name (filter (restarted upd) (pods (cluster w))) in
    (forall n,
       In n names <->
       exists pod c0 rest,
         In pod (pods (cluster w)) /\ managed pod = true /\
         res_name pod = n /\
         spec_containers pod = c0 :: rest /\ In (image c0) upd) /\
    (upd = [] -> events run w = shell_events challenges) /\
    (upd <> [] -> names = [] ->
     events run w =
       shell_events challenges
         ++ [EvApi core_v1 (list_namespaced Pods (Some MANAGED))]) /\
    (upd <> [] -> names <> [] ->
     exists t,
       events run w =
         shell_events challenges
           ++ EvApi core_v1 (list_namespaced Pods (Some MANAGED))
           :: EvInput (ConfirmDelete "pods" names) :: t /\
       Forall (fun e => exists n, In n names /\
                          e = EvApi core_v1 (delete_namespaced Pods n)) t).
Proof.
  intros Hb Ha Hf Hc run.
  exists (fold_left add_first eb []),
         (map fst (filter (changed (fold_left add_first eb [])) ea)).
  set (upd := map fst (filter (changed (fold_left add_first eb [])) ea)).
  assert (E1 := registry_digests_entries _ [] Hb).
  assert (E2 := updated_images_entries _ (fold_left add_first eb []) [] Ha).
  simpl in E2. fold upd in E2.
  split; [exact E1|]. split; [exact E2|]. split.
  { intros r Hu. unfold upd. rewrite changed_In. split.
    + intros [Hs [old [new [H1 [H2 H3]]]]]. split; [exact Hs|].
      exists old, new. split; [exact H1|]. split; [|exact H3].
      destruct (In_dict_get _ _ _ H2) as [x Hx].
      rewrite Hx. f_equal. apply Hu; [|exact H2].
      now apply dict_get_In.
    + intros [Hs [old [new [H1 [H2 H3]]]]]. split; [exact Hs|].
      exists old, new. split; [exact H1|]. split; [|exact H3].
      now apply dict_get_In. }
  intros names.
  split; [intros n; apply restarted_In|].
  pose proof (@build_and_push_images_restart challenges w _ _ E1 E2) as R.
  fold run in R.
  set (ws := mkWorld (cluster w) (trace w ++ shell_events challenges)
               (stdin w)) in R.
  split; [|split].
  - intros Hu. rewrite Hu in R. simpl in R.
    eapply events_eq; [exact R|]. reflexivity.
  - intros Hu Hn.
    destruct upd as [|u us] eqn:Eu; [congruence|]. simpl in R.
    rewrite (@update_pods_run (u :: us) ws Hf Hc) in R.
    change (pods (cluster ws)) with (pods (cluster w)) in R.
    fold names in R. rewrite Hn, confirm_and_delete_nil in R.
    eapply events_eq; [exact R|]. simpl. rewrite <- app_assoc. reflexivity.
  - intros Hu Hn.
    destruct upd as [|u us] eqn:Eu; [congruence|]. simpl in R.
    rewrite (@update_pods_run (u :: us) ws Hf Hc) in R.
    change (pods (cluster ws)) with (pods (cluster w)) in R.
    fold names in R.
    destruct (run w) as [r w'] eqn:E. symmetry in R.
    apply confirm_and_delete_cons in R as [t [Et Ft]]; [|exact Hn].
    exists t. split; [|exact Ft].
    eapply events_eq; [exact E|]. rewrite Et. unfold logged, ws.
    cbn [trace]. rewrite <- !app_assoc. reflexivity.
Qed.

(** ** Cleaning the cluster *)

Lemma stored_store k l c : stored k (store k l c) = l.
Proof. destruct k; reflexivity. Qed.

Lemma stored_store_other k k' l c :
  k <> k' -> stored k (store k' l c) = stored k c.
Proof. destruct k, k'; simpl; congruence. Qed.

Lemma store_store k l1 l2 c : store k l2 (store k l1 c) = store k l2 c.
Proof. destruct k; reflexivity. Qed.

Lemma store_stored k c : store k (stored k c) c = c.
Proof. destruct k, c; reflexivity. Qed.

Lemma filter_all A (f : A -> bool) l :
  (forall x, In x l -> f x = true) -> filter f l = l.
Proof.
  induction l as [|x l IH]; intros H; simpl; [reflexivity|].
  rewrite (H x (or_introl eq_refl)). f_equal. apply IH.
  intros y Hy. apply H. now right.
Qed.

Lemma filter_filter A (f g : A -> bool) l :
  filter f (filter g l) = filter (fun x => g x && f x) l.
Proof.
  induction l as [|x l IH]; simpl; [reflexivity|].
  destruct (g x); simpl; [destruct (f x)|]; now rewrite IH.
Qed.

Lemma present_In n l : present n l = true <-> exists r, In r l /\ res_name r = n.
Proof.
  unfold present. rewrite existsb_exists. unfold named.
  split; intros [r [Hr E]]; exists r; split; auto.
  - now apply String.eqb_eq.
  - subst. apply String.eqb_refl.
Qed.

Lemma NoDup_map_filter A B (f : A -> B) (p : A -> bool) l :
  NoDup (map f l) -> NoDup (map f (filter p l)).
Proof.
  induction l as [|x l IH]; simpl; intros H; [constructor|].
  inversion H as [|y ys Hx Hl]; subst.
  destruct (p x); simpl; [|auto]. constructor; [|auto].
  intros Hin. apply Hx. apply in_map_iff in Hin as [z [Ez Hz]].
  apply filter_In in Hz as [Hz _]. rewrite <- Ez. now apply in_map.
Qed.

(** A batch of deletions on a server that fails no call: every name is
    deleted, in order. *)
Lemma for_each_delete cl k names w :
  no_faults -> serves cl k = true ->
  NoDup names ->
  (forall n, In n names -> present n (stored k (cluster w)) = true) ->
  for_each names (fun n => api_delete cl k n) w =
    (Ok tt,
     mkWorld
       (store k (filter (fun r => negb (Py.str_in (res_name r) names))
                   (stored k (cluster w))) (cluster w))
       (trace w ++ map (fun n => EvApi cl (delete_namespaced k n)) names)
       (stdin w)).
Proof.
  intros Hf Hs. revert w.
  induction names as [|n ns IH]; intros w Hnd Hp; simpl.
  - unfold ret. rewrite (filter_all _ (stored k (cluster w))) by reflexivity.
    rewrite store_stored, app_nil_r. destruct w. reflexivity.
  - inversion Hnd as [|x xs Hn Hns]; subst.
    unfold bind. rewrite api_delete_ok by auto using in_eq.
    rewrite IH; [| exact Hns |].
    + simpl. rewrite stored_store, store_store, filter_filter.
      rewrite <- app_assoc.
      assert (Fx : filter (fun x => negb (named n x)
                                    && negb (Py.str_in (res_name x) ns))
                     (stored k (cluster w))
                   = filter (fun r => negb (Py.str_in (res_name r) (n :: ns)))
                       (stored k (cluster w))).
      { apply filter_ext. intros r. unfold named. simpl.
        now rewrite negb_orb. }
      rewrite Fx. reflexivity.
    + intros m Hm. simpl. rewrite stored_store.
      apply present_In. destruct (proj1 (present_In m _) (Hp m (or_intror Hm)))
        as [r [Hr Er]].
      exists r. split; [|exact Er]. apply filter_In. split; [exact Hr|].
      unfold named. rewrite Er. apply eqb_false_neq.
      intros ->. contradiction.
Qed.






(** The gate on approval, for a client that has the method and a server
    that fails no call: the prompt, then one deletion for each name of
    the batch. *)
Lemma confirm_and_delete_approved what cl k names w a rest :
  no_faults -> serves cl k = true ->
  names <> [] -> NoDup names ->
  (forall n, In n names -> present n (stored k (cluster w)) = true) ->
  stdin w = Line a :: rest ->
  a = "y" \/ a = "Y" ->
  confirm_and_delete what cl k names w =
    (Ok tt,
     mkWorld
       (store k (filter (fun r => negb (Py.str_in (res_name r) names))
                   (stored k (cluster w))) (cluster w))
       (trace w ++
          EvInput (ConfirmDelete what names)
            :: map (fun n => EvApi cl (delete_namespaced k n)) names)
       rest).
Proof.
  intros Hf Hs Hn Hnd Hp Hin Ha. unfold confirm_and_delete.
  destruct names as [|n ns]; [congruence|].
  change (0 <? List.length (n :: ns))%nat with true. cbv iota.
  unfold bind at 1. rewrite (input_line _ _ Hin).
  apply lower_y in Ha. rewrite Ha.
  rewrite for_each_delete; auto.
  simpl. rewrite <- app_assoc. reflexivity.
Qed.

(** ** What a first run leaves *)

Lemma upsert_in_place body l : in_place body (upsert body l).
Proof.
  unfold in_place, upsert.
  destruct (present (res_name body) l) eqn:Hp; split.
  - apply present_In. apply present_In in Hp as [r [Hr En]].
    exists body. split; [|reflexivity].
    apply in_map_iff. exists r. split; [|exact Hr].
    unfold named. rewrite En, String.eqb_refl. reflexivity.
  - intros r Hr En. apply in_map_iff in Hr as [r' [E Hr']].
    unfold named in E. destruct (String.eqb (res_name r') (res_name body)) eqn:Eb.
    + now symmetry.
    + subst r'. apply String.eqb_neq in Eb. contradiction.
  - apply present_In. exists body. split; [|reflexivity].
    apply in_or_app. right. now left.
  - intros r Hr En. apply in_app_or in Hr as [Hr|[Hr|[]]]; [|now symmetry].
    assert (present (res_name body) l = true)
      by (apply present_In; eauto).
    congruence.
Qed.

Lemma upsert_other body body' l :
  res_name body' <> res_name body ->
  in_place body' l -> in_place body' (upsert body l).
Proof.
  intros Hne [Hp Hu]. unfold in_place, upsert.
  destruct (present (res_name body) l) eqn:Hb; split.
  - apply present_In. apply present_In in Hp as [r [Hr En]].
    exists r. split; [|exact En]. apply in_map_iff. exists r. split; [|exact Hr].
    unfold named. rewrite En.
    destruct (String.eqb (res_name body') (res_name body)) eqn:E; [|reflexivity].
    apply String.eqb_eq in E. contradiction.
  - intros r Hr En. apply in_map_iff in Hr as [r' [E Hr']].
    unfold named in E. destruct (String.eqb (res_name r') (res_name body)).
    + subst r. contradiction Hne. now symmetry.
    + subst r'. now apply Hu.
  - apply present_In. apply present_In in Hp as [r [Hr En]].
    exists r. split; [|exact En]. apply in_or_app. now left.
  - intros r Hr En. apply in_app_or in Hr as [Hr|[Hr|[]]]; [now apply Hu|].
    subst r. contradiction Hne. now symmetry.
Qed.

Lemma NoDup_snoc A (x : A) l : NoDup l -> ~ In x l -> NoDup (l ++ [x]).
Proof.
  induction l as [|y l IH]; simpl; intros Hn Hx.
  - constructor; [intros []|constructor].
  - inversion Hn as [|z zs Hy Hl]; subst. constructor.
    + intros Hin. apply in_app_or in Hin as [H|[H|[]]]; [contradiction|].
      subst. apply Hx. now left.
    + apply IH; [exact Hl|]. intros H. apply Hx. now right.
Qed.

Lemma upsert_names body l :
  NoDup (map res_name l) -> NoDup (map res_name (upsert body l)).
Proof.
  intros Hn. unfold upsert. destruct (present (res_name body) l) eqn:Hp.
  - assert (E : map res_name
                  (map (fun r => if named (res_name body) r then body else r) l)
                = map res_name l).
    { rewrite map_map. apply map_ext. intros r. unfold named.
      destruct (String.eqb (res_name r) (res_name body)) eqn:E; [|reflexivity].
      apply String.eqb_eq in E. now symmetry. }
    now rewrite E.
  - rewrite map_app. simpl. apply NoDup_snoc; [exact Hn|].
    intros Hin. apply in_map_iff in Hin as [r [En Hr]].
    assert (present (res_name body) l = true) by (apply present_In; eauto).
    congruence.
Qed.


Lemma applied_all_other challenges c bd bs :
  (forall ch, In ch challenges -> has_dockerfile ch = true ->
     Scanner.id ch <> res_name bd /\ Scanner.id ch <> res_name bs) ->
  in_place bd (deployments c) -> in_place bs (services c) ->
  in_place bd (deployments (applied_all challenges c)) /\
  in_place bs (services (applied_all challenges c)).
Proof.
  revert c. induction challenges as [|ch cs IH]; intros c H Hd Hs; simpl;
    [auto|].
  assert (H' : forall ch', In ch' cs -> has_dockerfile ch' = true ->
                 Scanner.id ch' <> res_name bd /\ Scanner.id ch' <> res_name bs)
    by (intros ch' Hin; apply H; now right).
  destruct (has_dockerfile ch) eqn:E; [|now apply IH].
  destruct (H ch (or_introl eq_refl) E) as [N1 N2].
  apply IH; [exact H' | |]; simpl; apply upsert_other; auto.
Qed.

(** After the loop the manifests of every challenge with a Dockerfile
    are in place, when no two such challenges share an id. *)
Lemma applied_all_in_place challenges c :
  NoDup (map Scanner.id (filter has_dockerfile challenges)) ->
  forall ch, In ch challenges -> has_dockerfile ch = true ->
    in_place (deployment_manifest ch) (deployments (applied_all challenges c)) /\
    in_place (service_manifest ch) (services (applied_all challenges c)).
Proof.
  revert c. induction challenges as [|ch0 cs IH]; intros c Hn ch Hin Hf;
    [destruct Hin|].
  simpl in Hn |- *. destruct (has_dockerfile ch0) eqn:E0.
  - simpl in Hn. inversion Hn as [|x xs Hx Hxs]; subst.
    destruct Hin as [->|Hin]; [|now apply IH].
    apply applied_all_other.
    + intros ch' Hin' Hf'.
      assert (Scanner.id ch' <> Scanner.id ch).
      { intros Heq. apply Hx. rewrite <- Heq. apply in_map.
        apply filter_In. auto. }
      split; exact H.
    + simpl. apply upsert_in_place.
    + simpl. apply upsert_in_place.
  - destruct Hin as [->|Hin]; [congruence|]. now apply IH.
Qed.

Lemma applied_all_frame challenges c :
  autoscalers (applied_all challenges c) = autoscalers c /\
  pods (applied_all challenges c) = pods c /\
  (NoDup (map res_name (deployments c)) ->
   NoDup (map res_name (deployments (applied_all challenges c)))) /\
  (NoDup (map res_name (services c)) ->
   NoDup (map res_name (services (applied_all challenges c)))).
Proof.
  revert c. induction challenges as [|ch cs IH]; intros c; simpl; [auto|].
  destruct (has_dockerfile ch); [|apply IH].
  destruct (IH (applied ch c)) as [A [P [D S]]]. simpl in *.
  split; [exact A|]. split; [exact P|].
  split; intros H; [apply D | apply S]; now apply upsert_names.
Qed.

Lemma in_place_filter body l (f : Resource -> bool) :
  in_place body l -> f body = true -> in_place body (filter f l).
Proof.
  intros [Hp Hu] Hf. split.
  - apply present_In. apply present_In in Hp as [r [Hr En]].
    assert (r = body) by now apply Hu. subst r.
    exists body. split; [|reflexivity]. apply filter_In. auto.
  - intros r Hr En. apply filter_In in Hr as [Hr _]. now apply Hu.
Qed.

Lemma stale_filter items deployed r :
  In r items ->
  negb (Py.str_in (res_name r) (names_to_delete items deployed))
  = Py.str_in (res_name r) (map Scanner.id deployed).
Proof.
  intros Hr.
  destruct (Py.str_in (res_name r) (map Scanner.id deployed)) eqn:Ed.
  - destruct (Py.str_in (res_name r) (names_to_delete items deployed)) eqn:En;
      [|reflexivity].
    apply str_in_In in En. apply names_to_delete_In in En as [_ Hnot].
    apply str_in_In in Ed. contradiction.
  - assert (In (res_name r) (names_to_delete items deployed)).
    { apply names_to_delete_In. split; [eauto|].
      intros Hin. apply str_in_In in Hin. congruence. }
    apply str_in_In in H. now rewrite H.
Qed.

(** A deletion pass whose batch the operator approves, on a server that
    fails no call: the objects left are those named by a deployed
    challenge. *)
Lemma delete_pass_approved what cl k deployed w rest :
  no_faults -> serves cl k = true ->
  NoDup (map res_name (stored k (cluster w))) ->
  stdin w = Line "y" :: rest ->
  exists tr st,
    delete_pass what cl cl k deployed w =
      (Ok tt,
       mkWorld
         (store k
            (filter (fun r => Py.str_in (res_name r) (map Scanner.id deployed))
               (stored k (cluster w)))
            (cluster w))
         tr st) /\
    (st = stdin w \/ st = rest).
Proof.
  intros Hf Hs Hn Hin. unfold delete_pass, bind.
  rewrite api_list_ok by auto.
  assert (Fx : filter (fun r => negb (Py.str_in (res_name r)
                          (names_to_delete (stored k (cluster w)) deployed)))
                 (stored k (cluster w))
               = filter (fun r => Py.str_in (res_name r)
                                    (map Scanner.id deployed))
                   (stored k (cluster w))).
  { apply filter_ext_in. intros r Hr. now apply stale_filter. }
  destruct (names_to_delete (stored k (cluster w)) deployed) as [|n ns] eqn:En.
  - rewrite confirm_and_delete_nil. rewrite <- Fx.
    rewrite (filter_all _ (stored k (cluster w))) by reflexivity.
    rewrite store_stored. eexists _, _. split; [reflexivity|]. now left.
  - rewrite (@confirm_and_delete_approved what cl k (n :: ns) _ "y" rest);
      auto; try discriminate.
    + simpl cluster. rewrite Fx. eexists _, _. split; [reflexivity|]. now right.
    + rewrite <- En. unfold names_to_delete. now apply NoDup_map_filter.
    + intros m Hm. simpl cluster. apply present_In.
      rewrite <- En in Hm. apply names_to_delete_In in Hm as [Hm _]. exact Hm.
Qed.

(** A first run that deploys every challenge and whose batches the
    operator approves leaves a settled cluster. *)
Lemma first_run_settles challenges w a rest :
  no_faults ->
  NoDup (map Scanner.id (filter has_dockerfile challenges)) ->
  NoDup (map res_name (deployments (cluster w))) ->
  NoDup (map res_name (services (cluster w))) ->
  autoscalers (cluster w) = [] ->
  stdin w = Line a :: Line "y" :: Line "y" :: rest ->
  fst (main challenges false false w) = Ok tt /\
  settled challenges (cluster (snd (main challenges false false w))).
Proof.
  intros Hf Hids Hnd Hns Hna Hin.
  destruct (applied_all_frame challenges (cluster w)) as [Fa [_ [Fd Fs]]].
  pose proof (@applied_all_in_place challenges (cluster w) Hids) as Hplace.
  set (c1 := applied_all challenges (cluster w)) in *.
  set (L := filter has_dockerfile challenges) in *.
  assert (Run : exists wf,
            main challenges false false w = (Ok tt, wf) /\
            deployments (cluster wf)
              = filter (fun r => Py.str_in (res_name r) (map Scanner.id L))
                  (deployments c1) /\
            services (cluster wf)
              = filter (fun r => Py.str_in (res_name r) (map Scanner.id L))
                  (services c1) /\
            autoscalers (cluster wf) = []).
  { unfold main. unfold bind at 1. unfold press_enter.
    rewrite (input_line _ _ Hin). cbv beta iota.
    change (negb true) with false. cbv beta iota.
    unfold bind at 1. unfold ret at 1. unfold bind at 1.
    rewrite deploy_all_ok by assumption. simpl cluster. simpl stdin. fold c1.
    unfold delete_deployments, delete_services, delete_hpas.
    simpl deployed_deployments. simpl deployed_services. simpl deployed_hpas.
    fold L. unfold bind at 1.
    match goal with
    | |- context [delete_pass "deployments" apps_v1 apps_v1 Deployments L ?w0] =>
        destruct (@delete_pass_approved "deployments" apps_v1 Deployments L w0
                    (Line "y" :: rest) Hf eq_refl (Fd Hnd) eq_refl)
          as [tr1 [st1 [E1 Hst1]]]
    end.
    rewrite E1. clear E1. simpl stdin in Hst1.
    assert (Hy : exists rest1, st1 = Line "y" :: rest1)
      by (destruct Hst1 as [->| ->]; eauto).
    destruct Hy as [rest1 ->]. unfold bind at 1.
    match goal with
    | |- context [delete_pass "services" core_v1 core_v1 Services L ?w0] =>
        destruct (@delete_pass_approved "services" core_v1 Services L w0
                    rest1 Hf eq_refl (Fs Hns) eq_refl)
          as [tr2 [st2 [E2 _]]]
    end.
    rewrite E2. clear E2.
    rewrite delete_pass_quiet; auto.
    2:{ simpl. fold c1. rewrite Fa, Hna. reflexivity. }
    eexists. split; [reflexivity|]. simpl.
    split; [reflexivity|]. split; [reflexivity|].
    fold c1. rewrite Fa. exact Hna. }
  destruct Run as [wf [E [Ed [Es Ea]]]]. rewrite E. simpl.
  split; [reflexivity|].
  split; [|split; [|split]].
  - intros ch Hch Hd. destruct (Hplace ch Hch Hd) as [P1 P2].
    rewrite Ed, Es.
    split; apply in_place_filter; auto; apply str_in_In;
      apply (in_map Scanner.id L ch); apply filter_In; auto.
  - intros r Hr. rewrite Ed in Hr.
    apply filter_In in Hr as [_ Hr]. apply str_in_In in Hr.
    apply in_map_iff in Hr as [ch [En Hch]]. apply filter_In in Hch as [H1 H2].
    exists ch. auto.
  - intros r Hr. rewrite Es in Hr.
    apply filter_In in Hr as [_ Hr]. apply str_in_In in Hr.
    apply in_map_iff in Hr as [ch [En Hch]]. apply filter_In in Hch as [H1 H2].
    exists ch. auto.
  - exact Ea.
Qed.

(** ** Create or update, call by call *)

Lemma upsert_In_other body l r :
  res_name r <> res_name body -> (In r (upsert body l) <-> In r l).
Proof.
  intros Hne. unfold upsert. destruct (present (res_name body) l).
  - rewrite in_map_iff. split.
    + intros [r' [E Hr']]. unfold named in E.
      destruct (String.eqb (res_name r') (res_name body)).
      * subst r. contradiction.
      * now subst r'.
    + intros Hr. exists r. split; [|exact Hr]. unfold named.
      destruct (String.eqb (res_name r) (res_name body)) eqn:E; [|reflexivity].
      apply String.eqb_eq in E. contradiction.
  - rewrite in_app_iff. simpl. split; [|auto].
    intros [H|[H|[]]]; [exact H|]. subst r. contradiction.
Qed.

Lemma upsert_same_names body l :
  present (res_name body) l = true ->
  map res_name (upsert body l) = map res_name l.
Proof.
  intros Hp. unfold upsert. rewrite Hp, map_map. apply map_ext.
  intros r. unfold named.
  destruct (String.eqb (res_name r) (res_name body)) eqn:E; [|reflexivity].
  apply String.eqb_eq in E. now symmetry.
Qed.

(** X1: on a server that fails no call, a create-or-update reads the
    object, then replaces it when it is stored and creates it when it
    is not, and never both.  Afterwards the body is stored under its
    name and is the only object of that name; a creation puts it at the
    end, a replacement keeps the names and their order; the objects of
    other names and of other kinds are as before. *)
Theorem X1_create_or_update_partition cl k body w :
  no_faults -> serves cl k = true ->
  let l := stored k (cluster w) in
  let run := create_or_update cl k body in
  let l' := stored k (cluster (snd (run w))) in
  fst (run w) = Ok tt /\
  events run w =
    [EvApi cl (read_namespaced k (res_name body));
     EvApi cl (if present (res_name body) l
               then replace_namespaced k (res_name body) body
               else create_namespaced k body)] /\
  (present (res_name body) l = false -> l' = l ++ [body]) /\
  (present (res_name body) l = true -> map res_name l' = map res_name l) /\
  in_place body l' /\
  (forall r, res_name r <> res_name body -> (In r l' <-> In r l)) /\
  (forall k', k' <> k ->
     stored k' (cluster (snd (run w))) = stored k' (cluster w)).
Proof.
  intros Hf Hs l run l'.
  pose proof (@create_or_update_ok cl k body w Hf Hs) as E. fold run in E.
  assert (El : l' = upsert body l).
  { unfold l'. rewrite E. simpl. apply stored_store. }
  split; [rewrite E; reflexivity|]. split; [|split; [|split; [|split; [|split]]]].
  - eapply events_eq; [exact E|]. reflexivity.
  - intros Hp. rewrite El. unfold upsert. fold l. now rewrite Hp.
  - intros Hp. rewrite El. now apply upsert_same_names.
  - rewrite El. apply upsert_in_place.
  - intros r Hne. rewrite El. now apply upsert_In_other.
  - intros k' Hk. rewrite E. simpl. now apply stored_store_other.
Qed.

(** Whatever the server does, a create-or-update starts with its read,
    sends no other read, and ends normally or in an [ApiException]. *)
Lemma create_or_update_trace cl k body w :
  serves cl k = true ->
  exists r w' t,
    create_or_update cl k body w = (r, w') /\
    trace w' = trace w ++ EvApi cl (read_namespaced k (res_name body)) :: t /\
    Forall (fun e => is_read e = false) t /\
    stdin w' = stdin w /\
    (r = Ok tt \/ exists c, r = Raise (ApiException c)) /\
    (forall k', k' <> k -> stored k' (cluster w') = stored k' (cluster w)).
Proof.
  intros Hs.
  unfold create_or_update, try_except, api_read, api_replace, api_create,
    request, bind, emit, ret, raise, get_cluster, put_cluster, logged.
  rewrite Hs. simpl.
  destruct (api_fails cl (read_namespaced k (res_name body))); simpl;
    [|destruct (find (named (res_name body)) (stored k (cluster w))); simpl;
      [destruct (api_fails cl (replace_namespaced k (res_name body) body)); simpl;
       [|destruct (present (res_name body) (stored k (cluster w))); simpl]|]];
    try (destruct (api_fails cl (create_namespaced k body)); simpl;
         [|destruct (present (res_name body) (stored k (cluster w))); simpl]);
    eexists _, _, _;
    (split; [reflexivity|]);
    (split; [simpl; rewrite <- ?app_assoc; simpl; reflexivity|]);
    (split; [repeat constructor|]);
    (split; [reflexivity|]);
    (split; [eauto|]);
    intros k' Hk; simpl; try reflexivity; now apply stored_store_other.
Qed.

(** The two [try] blocks of a turn of the loop end normally whatever the
    server does, and record the challenge only when the create-or-update
    ended normally. *)
Lemma try_deploy_trace r cl k challenge deployed w :
  (kind r = "Deployment" /\ cl = apps_v1 /\ k = Deployments) \/
  (kind r = "Service" /\ cl = core_v1 /\ k = Services) ->
  exists l w' t,
    try_deploy r challenge deployed w = (Ok l, w') /\
    (l = deployed \/ l = deployed ++ [challenge]) /\
    trace w' = trace w ++ EvApi cl (read_namespaced k (res_name r)) :: t /\
    Forall (fun e => is_read e = false) t /\
    stdin w' = stdin w /\
    (forall k', k' <> k -> stored k' (cluster w') = stored k' (cluster w)).
Proof.
  intros Hk.
  assert (Hs : serves cl k = true)
    by (destruct Hk as [[_ [-> ->]]|[_ [-> ->]]]; reflexivity).
  assert (Er : create_or_update_resource r = create_or_update cl k r).
  { unfold create_or_update_resource.
    destruct Hk as [[E [-> ->]]|[E [-> ->]]]; rewrite E; reflexivity. }
  destruct (@create_or_update_trace cl k r w Hs)
    as [res [w' [t [E [Et [Ft [Es [Hres Hfr]]]]]]]].
  unfold try_deploy, try_except, bind. rewrite Er, E.
  destruct Hres as [->|[c ->]]; simpl.
  - exists (deployed ++ [challenge]), w', t.
    split; [reflexivity|]. split; [now right|]. auto.
  - exists deployed, w', t.
    split; [reflexivity|]. split; [now left|]. auto.
Qed.

Lemma deploy_challenge_trace challenge d w :
  exists d' w' t1 t2,
    deploy_challenge challenge d w = (Ok d', w') /\
    trace w' =
      trace w ++
        EvApi apps_v1 (read_namespaced Deployments (Scanner.id challenge))
          :: t1 ++
        EvApi core_v1 (read_namespaced Services (Scanner.id challenge))
          :: t2 /\
    Forall (fun e => is_read e = false) t1 /\
    Forall (fun e => is_read e = false) t2 /\
    stdin w' = stdin w /\
    autoscalers (cluster w') = autoscalers (cluster w) /\
    pods (cluster w') = pods (cluster w).
Proof.
  destruct (@try_deploy_trace (deployment_manifest challenge) apps_v1
              Deployments challenge (deployed_deployments d) w)
    as [l1 [w1 [t1 [E1 [_ [T1 [F1 [S1 K1]]]]]]]]; [left; auto|].
  destruct (@try_deploy_trace (service_manifest challenge) core_v1
              Services challenge (deployed_services d) w1)
    as [l2 [w2 [t2 [E2 [_ [T2 [F2 [S2 K2]]]]]]]]; [right; auto|].
  exists (mkDeployed l1 l2 (deployed_hpas d)), w2, t1, t2.
  split; [|split; [|split; [exact F1|split; [exact F2|split; [|split]]]]].
  - unfold deploy_challenge. unfold bind at 1. rewrite E1.
    change (if autoscaler_condition
            then try_deploy (hpa_manifest challenge) challenge (deployed_hpas d)
            else ret (deployed_hpas d))
      with (@ret (list Challenge) (deployed_hpas d)).
    unfold bind at 1. unfold ret at 1. unfold bind at 1. rewrite E2.
    reflexivity.
  - rewrite T2, T1. simpl. rewrite <- app_assoc. reflexivity.
  - congruence.
  - change (stored Autoscalers (cluster w2) = stored Autoscalers (cluster w)).
    rewrite (K2 Autoscalers), (K1 Autoscalers); [reflexivity| |]; discriminate.
  - change (stored Pods (cluster w2) = stored Pods (cluster w)).
    rewrite (K2 Pods), (K1 Pods); [reflexivity| |]; discriminate.
Qed.

(** X3: the loop over the challenges ends normally whatever calls the
    server fails: a failure for one manifest is caught in its own [try]
    block.  Every challenge with a Dockerfile has its deployment and then
    its service read, in the order of the challenges, and a challenge
    without a Dockerfile has neither; the replies of the operator, the
    autoscalers and the pods are not touched. *)
Theorem X3_deploy_loop_isolates_failures challenges d w :
  exists d' w',
    deploy_all challenges d w = (Ok d', w') /\
    filter is_read (events (deploy_all challenges d) w) =
      flat_map
        (fun ch =>
           [EvApi apps_v1 (read_namespaced Deployments (Scanner.id ch));
            EvApi core_v1 (read_namespaced Services (Scanner.id ch))])
        (filter has_dockerfile challenges) /\
    stdin w' = stdin w /\
    autoscalers (cluster w') = autoscalers (cluster w) /\
    pods (cluster w') = pods (cluster w).
Proof.
  assert (H : exists d' w' t,
            deploy_all challenges d w = (Ok d', w') /\
            trace w' = trace w ++ t /\
            filter is_read t =
              flat_map
                (fun ch =>
                   [EvApi apps_v1 (read_namespaced Deployments (Scanner.id ch));
                    EvApi core_v1 (read_namespaced Services (Scanner.id ch))])
                (filter has_dockerfile challenges) /\
            stdin w' = stdin w /\
            autoscalers (cluster w') = autoscalers (cluster w) /\
            pods (cluster w') = pods (cluster w)).
  { revert d w. induction challenges as [|ch cs IH]; intros d w; simpl.
    - exists d, w, []. rewrite app_nil_r. repeat split; reflexivity.
    - destruct (has_dockerfile ch); simpl; [|apply IH].
      destruct (deploy_challenge_trace ch d w)
        as [d1 [w1 [t1 [t2 [E1 [T1 [F1 [F2 [S1 [A1 P1]]]]]]]]]].
      destruct (IH d1 w1) as [d2 [w2 [t [E2 [T2 [R2 [S2 [A2 P2]]]]]]]].
      exists d2, w2,
        ((EvApi apps_v1 (read_namespaced Deployments (Scanner.id ch))
            :: t1 ++
          EvApi core_v1 (read_namespaced Services (Scanner.id ch)) :: t2)
         ++ t).
      split; [unfold bind; rewrite E1; exact E2|].
      split; [rewrite T2, T1, <- app_assoc; reflexivity|].
      split; [|split; [congruence|split; congruence]].
      assert (N : forall l, Forall (fun e => is_read e = false) l ->
                filter is_read l = []).
      { intros l Hl. induction Hl as [|x l Hx Hl IHl]; simpl; [reflexivity|].
        now rewrite Hx. }
      rewrite filter_app. simpl. rewrite filter_app. simpl.
      rewrite (N t1 F1), (N t2 F2), R2. reflexivity. }
  destruct H as [d' [w' [t [E [T [R [S [A P]]]]]]]].
  exists d', w'. split; [exact E|]. split; [|auto].
  rewrite (@events_eq _ _ _ _ _ t E T). exact R.
Qed.

(** X2: when the read of a stored deployment fails, the failure is taken
    for absence: the create that follows is refused with 409, the
    exception leaves [create_or_update_deployment], and the turn of the
    loop goes on without recording the challenge.  The deployment stays
    as it was and, its challenge not being recorded, is among the names
    that the deletion pass proposes. *)
Theorem X2_failed_read_is_taken_for_absence challenge d w :
  api_fails apps_v1 (read_namespaced Deployments (Scanner.id challenge))
    = true ->
  api_fails apps_v1
    (create_namespaced Deployments (deployment_manifest challenge)) = false ->
  present (Scanner.id challenge) (deployments (cluster w)) = true ->
  ~ In (Scanner.id challenge) (map Scanner.id (deployed_deployments d)) ->
  create_or_update_deployment (deployment_manifest challenge) w =
    (Raise (ApiException 409),
     mkWorld (cluster w)
       (trace w ++
          [EvApi apps_v1 (read_namespaced Deployments (Scanner.id challenge));
           EvApi apps_v1
             (create_namespaced Deployments (deployment_manifest challenge))])
       (stdin w)) /\
  exists d' w',
    deploy_challenge challenge d w = (Ok d', w') /\
    deployed_deployments d' = deployed_deployments d /\
    deployments (cluster w') = deployments (cluster w) /\
    In (Scanner.id challenge)
       (names_to_delete (deployments (cluster w')) (deployed_deployments d')).
Proof.
  intros Hr Hc Hp Hd.
  assert (E0 : create_or_update_deployment (deployment_manifest challenge) w =
    (Raise (ApiException 409),
     mkWorld (cluster w)
       (trace w ++
          [EvApi apps_v1 (read_namespaced Deployments (Scanner.id challenge));
           EvApi apps_v1
             (create_namespaced Deployments (deployment_manifest challenge))])
       (stdin w))).
  { unfold create_or_update_deployment, create_or_update, try_except,
      api_read, api_replace, api_create, request, bind, emit, ret, raise,
      get_cluster, put_cluster, logged.
    change (res_name (deployment_manifest challenge))
      with (Scanner.id challenge).
    simpl serves. cbv iota. rewrite Hr. simpl. rewrite Hc. simpl.
    change (stored Deployments (cluster w)) with (deployments (cluster w)).
    rewrite Hp. rewrite <- app_assoc. reflexivity. }
  split; [exact E0|].
  destruct (@try_deploy_trace (service_manifest challenge) core_v1
              Services challenge (deployed_services d)
              (mkWorld (cluster w)
                 (trace w ++
                    [EvApi apps_v1
                       (read_namespaced Deployments (Scanner.id challenge));
                     EvApi apps_v1
                       (create_namespaced Deployments
                          (deployment_manifest challenge))])
                 (stdin w)))
    as [l2 [w2 [t2 [E2 [_ [_ [_ [_ K2]]]]]]]]; [right; auto|].
  assert (Ed : deployments (cluster w2) = deployments (cluster w))
    by (apply (K2 Deployments); discriminate).
  exists (mkDeployed (deployed_deployments d) l2 (deployed_hpas d)), w2.
  split; [|split; [reflexivity|split; [exact Ed|]]].
  - assert (Et : try_deploy (deployment_manifest challenge) challenge
                   (deployed_deployments d) w
                 = (Ok (deployed_deployments d),
                    mkWorld (cluster w)
                      (trace w ++
                         [EvApi apps_v1
                            (read_namespaced Deployments (Scanner.id challenge));
                          EvApi apps_v1
                            (create_namespaced Deployments
                               (deployment_manifest challenge))])
                      (stdin w))).
    { unfold try_deploy, try_except, create_or_update_resource.
      simpl String.eqb. cbv iota. unfold bind. rewrite E0. reflexivity. }
    unfold deploy_challenge. unfold bind at 1. rewrite Et.
    change (if autoscaler_condition
            then try_deploy (hpa_manifest challenge) challenge (deployed_hpas d)
            else ret (deployed_hpas d))
      with (@ret (list Challenge) (deployed_hpas d)).
    unfold bind at 1. unfold ret at 1. unfold bind at 1. rewrite E2.
    reflexivity.
  - simpl. rewrite Ed. apply names_to_delete_In. split; [|exact Hd].
    apply present_In. exact Hp.
Qed.

(** ** The gate, interrupts and two runs in a row *)

(** X4: a batch that is not empty, deleted through a client that has
    the method on a server that fails no call.  The operator is asked
    once, with the names of the batch; the answers ["y"] and ["Y"], and
    no other, approve it.  On approval every name is deleted, in order,
    and the objects of these names are gone; on any other answer no
    call is sent, the objects stay and no exception is raised. *)
Theorem X4_confirmation_gate what cl k names w a rest :
  no_faults -> serves cl k = true ->
  names <> [] -> NoDup names ->
  (forall n, In n names -> present n (stored k (cluster w)) = true) ->
  stdin w = Line a :: rest ->
  let run := confirm_and_delete what cl k names in
  let approved := String.eqb (Py.lower a) "y" in
  (approved = true <-> a = "y" \/ a = "Y") /\
  fst (run w) = Ok tt /\
  events run w =
    EvInput (ConfirmDelete what names)
      :: (if approved
          then map (fun n => EvApi cl (delete_namespaced k n)) names
          else []) /\
  stored k (cluster (snd (run w))) =
    (if approved
     then filter (fun r => negb (Py.str_in (res_name r) names))
            (stored k (cluster w))
     else stored k (cluster w)) /\
  stdin (snd (run w)) = rest.
Proof.
  intros Hf Hs Hn Hnd Hp Hin run approved.
  split; [apply lower_y|].
  destruct approved eqn:Ea; unfold approved in Ea.
  - pose proof (@confirm_and_delete_approved what cl k names w a rest
                  Hf Hs Hn Hnd Hp Hin (proj1 (lower_y a) Ea)) as E.
    fold run in E. rewrite E. simpl.
    split; [reflexivity|]. split; [|split; [apply stored_store|reflexivity]].
    eapply events_eq; [exact E|]. reflexivity.
  - assert (N1 : a <> "y") by (intros ->; discriminate Ea).
    assert (N2 : a <> "Y") by (intros ->; discriminate Ea).
    pose proof (@confirm_and_delete_denied what cl k names w a rest
                  Hn Hin N1 N2) as E.
    fold run in E. rewrite E. simpl.
    split; [reflexivity|]. split; [|split; reflexivity].
    eapply events_eq; [exact E|]. reflexivity.
Qed.

Lemma input_interrupt p w rest :
  stdin w = CtrlC :: rest ->
  input p w =
    (Raise KeyboardInterrupt,
     mkWorld (cluster w) (trace w ++ [EvInput p]) rest).
Proof.
  intros Hs. unfold input, bind, emit, logged. simpl. rewrite Hs. reflexivity.
Qed.

Lemma input_end p w :
  stdin w = [] -> input p w = (Raise EOFError, logged (EvInput p) w).
Proof.
  intros Hs. unfold input, bind, emit, logged. simpl. rewrite Hs. reflexivity.
Qed.

(** X5: an interrupt at the opening prompt ends the run normally before
    any call, and the end of the input there ends it in [EOFError].  An
    interrupt at the prompt of a batch is not caught: the deletion pass
    ends in [KeyboardInterrupt] after its listing and its prompt, with
    no deletion, and the cluster as it was. *)
Theorem X5_interrupts challenges build_images ignore_existing
  what list_cl del_cl k deployed w rest :
  (stdin w = CtrlC :: rest ->
   main challenges build_images ignore_existing w =
     (Ok tt, mkWorld (cluster w) (trace w ++ [EvInput PressEnter]) rest)) /\
  (stdin w = [] ->
   main challenges build_images ignore_existing w =
     (Raise EOFError, logged (EvInput PressEnter) w)) /\
  (stdin w = CtrlC :: rest ->
   serves list_cl k = true ->
   api_fails list_cl (list_namespaced k None) = false ->
   names_to_delete (stored k (cluster w)) deployed <> [] ->
   delete_pass what list_cl del_cl k deployed w =
     (Raise KeyboardInterrupt,
      mkWorld (cluster w)
        (trace w ++
           [EvApi list_cl (list_namespaced k None);
            EvInput (ConfirmDelete what
                       (names_to_delete (stored k (cluster w)) deployed))])
        rest)).
Proof.
  split; [|split].
  - intros Hs. unfold main. unfold bind at 1. unfold press_enter.
    rewrite (input_interrupt _ _ Hs). reflexivity.
  - intros Hs. unfold main. unfold bind at 1. unfold press_enter.
    rewrite (input_end _ _ Hs). reflexivity.
  - intros Hs Hserves Hf Hn. unfold delete_pass. unfold bind at 1.
    rewrite api_list_ok by assumption.
    destruct (names_to_delete (stored k (cluster w)) deployed) as [|n ns];
      [congruence|].
    unfold confirm_and_delete.
    change (0 <? List.length (n :: ns))%nat with true. cbv iota.
    unfold bind at 1.
    rewrite (@input_interrupt _ (logged _ w) rest) by exact Hs.
    simpl. rewrite <- app_assoc. reflexivity.
Qed.

(** The run on a settled cluster, by its result, its cluster and its
    calls. *)
Lemma settled_run challenges w a rest :
  no_faults ->
  settled challenges (cluster w) ->
  stdin w = Line a :: rest ->
  let run := main challenges false false in
  fst (run w) = Ok tt /\
  cluster (snd (run w)) = cluster w /\
  filter is_mutation (events run w) = replacements challenges /\
  filter is_proposal (events run w) = [].
Proof.
  intros Hf Hset Hs run.
  assert (Hq : false = true -> quiet_build) by discriminate.
  pose proof (@main_settled challenges false w a rest Hf Hset Hq Hs) as E.
  fold run in E.
  destruct (@settled_mutations challenges (cluster w) Hset) as [M1 M2].
  assert (Ev : events run w =
               EvInput PressEnter
                 :: flat_map (fun ch => apply_events ch (cluster w))
                      (filter has_dockerfile challenges)
                 ++ [EvApi apps_v1 (list_namespaced Deployments None);
                     EvApi core_v1 (list_namespaced Services None);
                     EvApi autoscaling_v1 (list_namespaced Autoscalers None)]).
  { eapply events_eq; [exact E|]. reflexivity. }
  rewrite E, Ev. simpl fst. simpl snd. simpl cluster.
  split; [reflexivity|]. split; [reflexivity|].
  cbn [filter is_mutation is_proposal]. rewrite !filter_app, M1, M2.
  simpl. rewrite app_nil_r. split; reflexivity.
Qed.

(** X6: two runs in a row.  On a server that fails no call, with no two
    challenges of one id, no two stored objects of one name and no
    autoscaler in the namespace, a first run whose batches the operator
    approves ends normally; a second run on the cluster it leaves ends
    normally too, leaves that cluster unchanged, proposes no batch, and
    the only calls of it that change the cluster are the replacements
    of the deployment and of the service of each challenge with a
    Dockerfile by its own manifest. *)
Theorem X6_two_runs_in_a_row challenges w a rest a2 rest2 :
  no_faults ->
  NoDup (map Scanner.id (filter has_dockerfile challenges)) ->
  NoDup (map res_name (deployments (cluster w))) ->
  NoDup (map res_name (services (cluster w))) ->
  autoscalers (cluster w) = [] ->
  stdin w = Line a :: Line "y" :: Line "y" :: rest ->
  let run := main challenges false false in
  let w1 := snd (run w) in
  let w2 := mkWorld (cluster w1) (trace w1) (Line a2 :: rest2) in
  fst (run w) = Ok tt /\
  fst (run w2) = Ok tt /\
  cluster (snd (run w2)) = cluster w1 /\
  filter is_mutation (events run w2) = replacements challenges /\
  filter is_proposal (events run w2) = [].
Proof.
  intros Hf Hids Hnd Hns Hna Hin run w1 w2.
  destruct (@first_run_settles challenges w a rest Hf Hids Hnd Hns Hna Hin)
    as [E1 Hset].
  split; [exact E1|].
  apply (@settled_run challenges w2 a2 rest2 Hf Hset eq_refl).
Qed.

(** ** The listings of the build step *)

Lemma parse_line_malformed line :
  Py.remove_all line "__:__" <> "" ->
  List.length (Py.split line "__:__") <> 2%nat ->
  parse_line line = Raise ValueError.
Proof.
  intros Hr Hl. unfold parse_line.
  destruct (String.eqb (Py.remove_all line "__:__") "") eqn:E.
  - apply String.eqb_eq in E. contradiction.
  - destruct (Py.split line "__:__") as [|a [|b [|c l]]]; try reflexivity.
    exfalso. apply Hl. reflexivity.
Qed.

Lemma registry_digests_malformed line lines d :
  In line lines -> parse_line line = Raise ValueError ->
  registry_digests lines d = Raise ValueError.
Proof.
  intros Hin Hp. revert d.
  induction lines as [|l rest IH]; intros d; [destruct Hin|].
  simpl. destruct (parse_line l) as [[[r dg]|]|e] eqn:E.
  - assert (Hr : In line rest).
    { destruct Hin as [->|H]; [rewrite Hp in E; discriminate|exact H]. }
    destruct (Py.startswith r REGISTRY); [|apply IH; exact Hr].
    destruct (dict_get r d); apply IH; exact Hr.
  - assert (Hr : In line rest).
    { destruct Hin as [->|H]; [rewrite Hp in E; discriminate|exact H]. }
    apply IH; exact Hr.
  - f_equal. eapply parse_line_raise; exact E.
Qed.

Lemma updated_images_malformed line lines d acc :
  In line lines -> parse_line line = Raise ValueError ->
  updated_images lines d acc = Raise ValueError.
Proof.
  intros Hin Hp. revert acc.
  induction lines as [|l rest IH]; intros acc; [destruct Hin|].
  simpl. destruct (parse_line l) as [[[r dg]|]|e] eqn:E.
  - assert (Hr : In line rest).
    { destruct Hin as [->|H]; [rewrite Hp in E; discriminate|exact H]. }
    destruct (Py.startswith r REGISTRY); [|apply IH; exact Hr].
    destruct (dict_get r d) as [old|]; [|apply IH; exact Hr].
    destruct (negb (String.eqb old dg) && negb (String.eqb dg "")
              && negb (String.eqb old "")); apply IH; exact Hr.
  - assert (Hr : In line rest).
    { destruct Hin as [->|H]; [rewrite Hp in E; discriminate|exact H]. }
    apply IH; exact Hr.
  - f_equal. eapply parse_line_raise; exact E.
Qed.

(** X7: a line of a listing of [docker images] that is not blank once
    its separators are removed and that does not split in two pieces at
    the separator cannot be unpacked.  In the listing before the build
    it ends the build step in [ValueError] right after the listing,
    before any build or push command, and a run with the build on ends
    there, before any call to the server.  In the listing after the
    push, with [ignore_existing] off, it ends the step in [ValueError]
    after every build and push command and before any pod is listed. *)
Theorem X7_malformed_listing line challenges w :
  Py.remove_all line "__:__" <> "" ->
  List.length (Py.split line "__:__") <> 2%nat ->
  (In line (Py.split docker_images_before NEWLINE) ->
   (forall ignore_existing,
      build_and_push_images challenges ignore_existing w =
        (Raise ValueError, logged (EvShell DOCKER_IMAGES) w)) /\
   (forall ignore_existing a rest,
      stdin w = Line a :: rest ->
      main challenges true ignore_existing w =
        (Raise ValueError,
         mkWorld (cluster w)
           (trace w ++ [EvInput PressEnter; EvShell DOCKER_IMAGES]) rest))) /\
  (In line (Py.split docker_images_after NEWLINE) ->
   forall d,
     registry_digests (Py.split docker_images_before NEWLINE) [] = Ok d ->
     build_and_push_images challenges false w =
       (Raise ValueError,
        mkWorld (cluster w) (trace w ++ shell_events challenges) (stdin w))).
Proof.
  intros Hr Hl. pose proof (@parse_line_malformed line Hr Hl) as Hp.
  assert (B : In line (Py.split docker_images_before NEWLINE) ->
              forall ignore_existing w0,
                build_and_push_images challenges ignore_existing w0 =
                  (Raise ValueError, logged (EvShell DOCKER_IMAGES) w0)).
  { intros Hin ign w0. unfold build_and_push_images.
    unfold bind at 1. unfold emit at 1. unfold bind at 1. unfold lift at 1.
    rewrite (@registry_digests_malformed line _ [] Hin Hp). reflexivity. }
  split.
  - intros Hin. split; [intros ign; apply B; exact Hin|].
    intros ign a rest Hs. unfold main. unfold bind at 1. unfold press_enter.
    rewrite (input_line _ _ Hs). cbv beta iota.
    change (negb true) with false. cbv beta iota.
    unfold bind at 1. rewrite (B Hin ign). unfold logged. simpl.
    rewrite <- app_assoc. reflexivity.
  - intros Hin d Hb. unfold build_and_push_images.
    unfold bind at 1. unfold emit at 1. unfold bind at 1. unfold lift at 1.
    rewrite Hb. unfold bind at 1. unfold lift at 1. simpl negb. cbv iota.
    rewrite build_plan_ok. simpl fst. simpl snd.
    unfold bind at 1. rewrite for_each_run_command.
    unfold bind at 1. rewrite for_each_run_command.
    unfold bind at 1. unfold emit at 1. unfold bind at 1. unfold lift at 1.
    rewrite (@updated_images_malformed line _ d [] Hin Hp).
    unfold shell_events, logged. simpl.
    rewrite !map_map, <- !app_assoc. simpl. reflexivity.
Qed.

(** X8: images that did not change restart nothing.  When no
    repository is listed under two digests before the build, and every
    line of the listing after the push either was a line of the listing
    before the build or names a repository that was not listed then,
    the set of changed images is empty: the build step runs its shell
    commands and ends normally, with no pod listed, no prompt and no
    eviction. *)
Theorem X8_unchanged_images_restart_nothing eb ea challenges w :
  entries (Py.split docker_images_before NEWLINE) = Ok eb ->
  entries (Py.split docker_images_after NEWLINE) = Ok ea ->
  (forall r n1 n2, In (r, n1) eb -> In (r, n2) eb -> n1 = n2) ->
  (forall r n, In (r, n) ea -> In (r, n) eb \/ dict_get r eb = None) ->
  updated_images (Py.split docker_images_after NEWLINE)
    (fold_left add_first eb []) [] = Ok [] /\
  build_and_push_images challenges false w =
    (Ok tt,
     mkWorld (cluster w) (trace w ++ shell_events challenges) (stdin w)).
Proof.
  intros Hb Ha Hf Hn.
  pose proof (registry_digests_entries _ [] Hb) as E1.
  pose proof (updated_images_entries _ (fold_left add_first eb []) [] Ha)
    as E2.
  simpl in E2.
  assert (U : map fst (filter (changed (fold_left add_first eb [])) ea) = []).
  { destruct (map fst (filter (changed (fold_left add_first eb [])) ea))
      as [|r l] eqn:E; [reflexivity|]. exfalso.
    assert (Hin : In r (map fst
                          (filter (changed (fold_left add_first eb [])) ea))).
    { rewrite E. left. reflexivity. }
    apply changed_In in Hin as [_ [old [new [H1 [H2 [H3 _]]]]]].
    destruct (Hn r new H2) as [H|H].
    - apply H3. apply (Hf r); [apply dict_get_In; exact H1 | exact H].
    - rewrite H in H1. discriminate. }
  rewrite U in E2. split; [exact E2|].
  apply build_quiet. exists (fold_left add_first eb []). split; assumption.
Qed.
(** ** A batch cut short *)

Lemma for_each_app A (l1 l2 : list A) (body : A -> M unit) w w1 :
  for_each l1 body w = (Ok tt, w1) ->
  for_each (l1 ++ l2) body w = for_each l2 body w1.
Proof.
  revert w. induction l1 as [|x l1 IH]; intros w E.
  - simpl in E. unfold ret in E. inversion E. reflexivity.
  - simpl in E. simpl. unfold bind in E. unfold bind.
    destruct (body x w) as [[[]|e] w']; [|discriminate].
    apply IH. exact E.
Qed.

(** A batch of deletions none of which the server fails. *)
Lemma for_each_delete_served cl k names w :
  serves cl k = true ->
  (forall n, In n names -> api_fails cl (delete_namespaced k n) = false) ->
  NoDup names ->
  (forall n, In n names -> present n (stored k (cluster w)) = true) ->
  for_each names (fun n => api_delete cl k n) w =
    (Ok tt,
     mkWorld
       (store k (filter (fun r => negb (Py.str_in (res_name r) names))
                   (stored k (cluster w))) (cluster w))
       (trace w ++ map (fun n => EvApi cl (delete_namespaced k n)) names)
       (stdin w)).
Proof.
  intros Hs. revert w.
  induction names as [|n ns IH]; intros w Hf Hnd Hp; simpl.
  - unfold ret. rewrite (filter_all _ (stored k (cluster w))) by reflexivity.
    rewrite store_stored, app_nil_r. destruct w. reflexivity.
  - inversion Hnd as [|x xs Hn Hns]; subst.
    unfold bind.
    rewrite api_delete_ok;
      [| exact Hs | apply Hf; left; reflexivity | apply Hp; left; reflexivity].
    rewrite IH; [| intros m Hm; apply Hf; right; exact Hm | exact Hns |].
    + simpl. rewrite stored_store, store_store, filter_filter.
      rewrite <- app_assoc.
      assert (Fx : filter (fun x => negb (named n x)
                                    && negb (Py.str_in (res_name x) ns))
                     (stored k (cluster w))
                   = filter (fun r => negb (Py.str_in (res_name r) (n :: ns)))
                       (stored k (cluster w))).
      { apply filter_ext. intros r. unfold named. simpl.
        now rewrite negb_orb. }
      rewrite Fx. reflexivity.
    + intros m Hm. simpl. rewrite stored_store.
      apply present_In. destruct (proj1 (present_In m _) (Hp m (or_intror Hm)))
        as [r [Hr Er]].
      exists r. split; [|exact Er]. apply filter_In. split; [exact Hr|].
      unfold named. rewrite Er. apply eqb_false_neq.
      intros ->. contradiction.
Qed.

Lemma api_delete_failed cl k n w :
  serves cl k = true -> api_fails cl (delete_namespaced k n) = true ->
  api_delete cl k n w =
    (Raise (ApiException 500), logged (EvApi cl (delete_namespaced k n)) w).
Proof.
  intros Hs Hf. unfold api_delete, request, bind, emit, raise.
  rewrite Hs, Hf. reflexivity.
Qed.

(** X14: a deletion that the server fails cuts an approved batch
    short.  The names before it are deleted, in order; the failed call
    is the last one sent; the objects of the other names stay, the one
    of the failed name among them; and the exception leaves the gate,
    which has no handler, so that the passes after it do not run. *)
Theorem X14_failed_deletion_cuts_the_batch what cl k done n todo w a rest :
  serves cl k = true ->
  (forall m, In m done -> api_fails cl (delete_namespaced k m) = false) ->
  api_fails cl (delete_namespaced k n) = true ->
  NoDup done ->
  (forall m, In m done -> present m (stored k (cluster w)) = true) ->
  stdin w = Line a :: rest ->
  a = "y" \/ a = "Y" ->
  let run := confirm_and_delete what cl k (done ++ n :: todo) in
  fst (run w) = Raise (ApiException 500) /\
  events run w =
    EvInput (ConfirmDelete what (done ++ n :: todo))
      :: map (fun m => EvApi cl (delete_namespaced k m)) done
      ++ [EvApi cl (delete_namespaced k n)] /\
  stored k (cluster (snd (run w))) =
    filter (fun r => negb (Py.str_in (res_name r) done))
      (stored k (cluster w)) /\
  (forall next : M unit, fst ((run ;;; next) w) = Raise (ApiException 500) /\
                         snd ((run ;;; next) w) = snd (run w)).
Proof.
  intros Hs Hf Hn Hnd Hp Hin Ha run.
  assert (E : run w =
              (Raise (ApiException 500),
               mkWorld
                 (store k (filter (fun r => negb (Py.str_in (res_name r) done))
                             (stored k (cluster w))) (cluster w))
                 (trace w ++
                    EvInput (ConfirmDelete what (done ++ n :: todo))
                      :: map (fun m => EvApi cl (delete_namespaced k m)) done
                      ++ [EvApi cl (delete_namespaced k n)])
                 rest)).
  { unfold run, confirm_and_delete.
    assert (L : (0 <? List.length (done ++ n :: todo))%nat = true).
    { apply Nat.ltb_lt. rewrite length_app. simpl. lia. }
    rewrite L. unfold bind at 1. rewrite (input_line _ _ Hin).
    apply lower_y in Ha. rewrite Ha.
    set (w0 := mkWorld (cluster w)
                 (trace w ++ [EvInput (ConfirmDelete what (done ++ n :: todo))])
                 rest).
    rewrite (@for_each_app _ done (n :: todo) _ w0 _
               (@for_each_delete_served cl k done w0 Hs Hf Hnd Hp)).
    simpl for_each. unfold bind at 1.
    rewrite (@api_delete_failed cl k n _ Hs Hn). unfold logged, w0. simpl.
    rewrite <- !app_assoc. reflexivity. }
  split; [rewrite E; reflexivity|]. split; [|split].
  - eapply events_eq; [exact E|]. reflexivity.
  - rewrite E. simpl. apply stored_store.
  - intros next. unfold bind. rewrite E. split; reflexivity.
Qed.
(** ** What a run leaves alone *)

(** X15: whatever calls the server fails and whatever the operator
    answers, a run leaves the autoscalers of the namespace as they
    were; and a run without the build sends no shell command, no call
    on pods and no prompt for pods, and leaves the pods as they were. *)
Theorem X15_run_frames challenges build_images ignore_existing w :
  autoscalers
    (cluster (snd (main challenges build_images ignore_existing w)))
    = autoscalers (cluster w) /\
  let run := main challenges false ignore_existing in
  Forall (fun e => is_shell e = false /\ on_pods e = false) (events run w) /\
  pods (cluster (snd (run w))) = pods (cluster w).
Proof.
  split.
  - assert (K : keeps (fun _ => True) (fun k => ResKind_eqb k Autoscalers)
                  (main challenges build_images ignore_existing)).
    { apply keeps_main; auto. intros k Hk. destruct k; try discriminate.
      reflexivity. }
    destruct (main challenges build_images ignore_existing w) as [r w'] eqn:E.
    destruct (K _ _ _ E) as [_ F]. exact (F Autoscalers eq_refl).
  - intros run.
    set (P := fun e => is_shell e = false /\ on_pods e = false).
    set (K := fun k => match k with
                       | Pods | Autoscalers => true
                       | _ => false
                       end).
    assert (Hd : forall e, delete_event e = true -> is_deletion e = false ->
                           P e).
    { intros [[|what names]|cl [k n|k n b|k b|k n|k s]|c];
        simpl; intros H1 H2; try discriminate;
        (split; [reflexivity
                | first [reflexivity | apply negb_true_iff; exact H1]]). }
    assert (H : keeps P K run).
    { unfold run, main.
      apply keeps_bind; [apply keeps_press_enter; split; reflexivity|].
      intros go. destruct go; simpl; [|apply keeps_ret].
      apply keeps_bind; [apply keeps_ret|]. intros _.
      apply keeps_bind.
      { apply keeps_deploy_all.
        - intros [[|what names]|cl [k n|k n b|k b|k n|k s]|c];
            simpl; intros H1; try discriminate; split; try reflexivity;
            destruct k; try discriminate; reflexivity.
        - intros k Hk. destruct k; try discriminate; reflexivity. }
      intros d.
      apply keeps_bind; [|intros _; apply keeps_bind; [|intros _]];
        apply keeps_delete_pass; auto; try discriminate;
        try (intros _ n; split; reflexivity). }
    destruct (events_spec w H) as [_ F]. split; [exact F|].
    destruct (run w) as [r w'] eqn:E.
    destruct (H _ _ _ E) as [_ Fr]. exact (Fr Pods eq_refl).
Qed.

(** The events of [clean_cluster]: the two listings by the label and
    deletions of services and deployments. *)
Lemma keeps_clean_cluster (P : Event -> Prop) (K : ResKind -> bool) :
  P (EvApi core_v1 (list_namespaced Services (Some MANAGED))) ->
  P (EvApi apps_v1 (list_namespaced Deployments (Some MANAGED))) ->
  (forall n, P (EvApi core_v1 (delete_namespaced Services n))) ->
  (forall n, P (EvApi apps_v1 (delete_namespaced Deployments n))) ->
  K Services = false -> K Deployments = false ->
  keeps P K clean_cluster.
Proof.
  intros P1 P2 P3 P4 K1 K2. unfold clean_cluster.
  apply keeps_bind; [apply keeps_api_list; intros _; exact P1|].
  intros services.
  apply keeps_bind.
  { apply keeps_for_each. intros r _.
    apply keeps_api_delete; intros _; [apply P3 | exact K1]. }
  intros _.
  apply keeps_bind; [apply keeps_api_list; intros _; exact P2|].
  intros deployments.
  apply keeps_for_each. intros r _.
  apply keeps_api_delete; intros _; [apply P4 | exact K2].
Qed.
(** ** The run, stage by stage *)







Lemma turn_start_nil w : turn_start [] w = w.
Proof. reflexivity. Qed.






(** *** The stages of [main] *)



(** *** A deletion pass *)







(** *** The loop, turn by turn *)











End Deployer.

(** ** The scanner *)

Section ScanFacts.

Set Default Proof Using "Type".

Variable os_listdir : string -> option (list string).
Variable os_path_isdir : string -> bool.
Variable script_dir : string.
Variable os_path_abspath : string -> string.
Variable load_config : string -> Scan.ConfigLoad.

Local Abbreviation dirs := (Scan.dirs os_listdir os_path_isdir).
Local Abbreviation listing := (Scan.listing os_listdir os_path_isdir).
Local Abbreviation listable := (Scan.listable os_listdir).
Local Abbreviation challenge_loop :=
  (Scan.challenge_loop os_path_abspath load_config).
Local Abbreviation subcategory_loop :=
  (Scan.subcategory_loop os_listdir os_path_isdir os_path_abspath load_config).
Local Abbreviation category_loop :=
  (Scan.category_loop os_listdir os_path_isdir os_path_abspath load_config).
Local Abbreviation scan :=
  (Scan.main os_listdir os_path_isdir script_dir os_path_abspath load_config).
Local Abbreviation challenge_of := (Scan.challenge_of os_path_abspath).
Local Abbreviation challenges_of :=
  (Scan.challenges_of os_listdir os_path_isdir os_path_abspath).
Local Abbreviation valid_challenge := (Scan.valid_challenge load_config).
Local Abbreviation valid_subcategory :=
  (Scan.valid_subcategory os_listdir os_path_isdir load_config).
Local Abbreviation valid_category :=
  (Scan.valid_category os_listdir os_path_isdir load_config).
Local Abbreviation aborts_for := (Scan.aborts_for os_listdir load_config).
Local Abbreviation valid_tree :=
  (Scan.valid_tree os_listdir os_path_isdir load_config).

(** *** The substitution *)

Lemma normalise_char c :
  let d := if Scan.is_lower_alnum (Py.lower_ascii c)
           then Py.lower_ascii c else "-"%char in
  Py.lower_ascii d = d /\
  (if Scan.is_lower_alnum d then d else "-"%char) = d /\
  Scan.is_name_char d = true.
Proof.
  destruct c as [[] [] [] [] [] [] [] []]; vm_compute; repeat split.
Qed.

Lemma normalise_digit c :
  Scan.is_digit c = true ->
  (if Scan.is_lower_alnum (Py.lower_ascii c)
   then Py.lower_ascii c else "-"%char) = c.
Proof.
  destruct c as [[] [] [] [] [] [] [] []]; vm_compute; intros H;
    first [reflexivity | discriminate H].
Qed.

Lemma normalise_cons c s :
  Scan.normalise (String c s) =
    String (if Scan.is_lower_alnum (Py.lower_ascii c)
            then Py.lower_ascii c else "-"%char)
      (Scan.normalise s).
Proof. reflexivity. Qed.

Lemma normalise_idempotent s :
  Scan.normalise (Scan.normalise s) = Scan.normalise s.
Proof.
  induction s as [|c s IH]; [reflexivity|].
  rewrite !normalise_cons, IH.
  destruct (normalise_char c) as [H1 [H2 _]]. cbv zeta in H1, H2.
  rewrite H1, H2. reflexivity.
Qed.

Lemma normalise_chars s :
  Scan.all_chars Scan.is_name_char (Scan.normalise s) = true.
Proof.
  induction s as [|c s IH]; [reflexivity|].
  rewrite normalise_cons. cbn [Scan.all_chars]. rewrite IH.
  destruct (normalise_char c) as [_ [_ H3]]. cbv zeta in H3.
  rewrite H3. reflexivity.
Qed.

Lemma normalise_nonempty s : s <> "" -> Scan.normalise s <> "".
Proof.
  destruct s as [|c s]; [intros H; exact H|].
  intros _. rewrite normalise_cons. discriminate.
Qed.

Lemma all_chars_app f a b :
  Scan.all_chars f (a ++ b) = Scan.all_chars f a && Scan.all_chars f b.
Proof.
  induction a as [|c a IH]; [reflexivity|].
  cbn [append Scan.all_chars]. rewrite IH. apply andb_assoc.
Qed.

(** *** The patterns *)

Lemma dot_plus_nonempty s g : Scan.dot_plus s = Some g -> g <> "".
Proof.
  unfold Scan.dot_plus. destruct (Scan.dot_star s); [discriminate|].
  intros H. inversion H. discriminate.
Qed.

Lemma category_regex_inv s :
  Scan.matches (Scan.CATEGORY_REGEX s) = true ->
  exists a b rest g,
    s = String a (String b (String "_" rest)) /\
    Scan.is_digit a = true /\ Scan.is_digit b = true /\
    Scan.CATEGORY_REGEX s = Some (String a (String b ""), g) /\ g <> "".
Proof.
  destruct s as [|a [|b [|u rest]]]; try discriminate.
  unfold Scan.CATEGORY_REGEX.
  destruct (Scan.is_digit a) eqn:Ha; [|discriminate].
  destruct (Scan.is_digit b) eqn:Hb; [|discriminate].
  destruct (Ascii.eqb u "_") eqn:Hu; [|discriminate].
  destruct (Scan.dot_plus rest) as [g|] eqn:Hg; [|discriminate].
  intros _. apply Ascii.eqb_eq in Hu. subst u.
  exists a, b, rest, g. repeat split; try assumption.
  eapply dot_plus_nonempty; exact Hg.
Qed.

Lemma challenge_regex_inv s :
  Scan.matches (Scan.CHALLENGE_REGEX s) = true ->
  exists a b rest g,
    s = String a (String b (String "_" rest)) /\
    Scan.is_digit a = true /\ Scan.is_digit b = true /\
    Scan.CHALLENGE_REGEX s = Some (String a (String b ""), g) /\ g <> "".
Proof. exact (category_regex_inv s). Qed.

Lemma subcategory_regex_inv s :
  Scan.matches (Scan.SUBCATEGORY_REGEX s) = true ->
  exists a rest g,
    s = String a (String "_" rest) /\
    Scan.is_digit a = true /\
    Scan.SUBCATEGORY_REGEX s = Some (String a "", g) /\ g <> "".
Proof.
  destruct s as [|a [|u rest]]; try discriminate.
  unfold Scan.SUBCATEGORY_REGEX.
  destruct (Scan.is_digit a) eqn:Ha; [|discriminate].
  destruct (Ascii.eqb u "_") eqn:Hu; [|discriminate].
  destruct (Scan.dot_plus rest) as [g|] eqn:Hg; [|discriminate].
  intros _. apply Ascii.eqb_eq in Hu. subst u.
  exists a, rest, g. repeat split; try assumption.
  eapply dot_plus_nonempty; exact Hg.
Qed.

(** *** The digits *)

Lemma digit_value_range c :
  Scan.is_digit c = true -> (0 <= Scan.digit_value c <= 9)%Z.
Proof.
  unfold Scan.is_digit, Scan.digit_value. intros H.
  apply andb_prop in H as [H1 H2].
  apply Nat.leb_le in H1. apply Nat.leb_le in H2. lia.
Qed.

Lemma digit_value_inj a b :
  Scan.digit_value a = Scan.digit_value b -> a = b.
Proof.
  unfold Scan.digit_value. intros H.
  assert (E : nat_of_ascii a = nat_of_ascii b) by lia.
  rewrite <- (ascii_nat_embedding a), <- (ascii_nat_embedding b), E.
  reflexivity.
Qed.

Lemma int_digits a b c d e :
  Scan.int (String a (String b "") ++ String c "" ++ String d (String e ""))
  = (10000 * Scan.digit_value a + 1000 * Scan.digit_value b
     + 100 * Scan.digit_value c + 10 * Scan.digit_value d
     + Scan.digit_value e)%Z.
Proof.
  unfold Scan.int. cbn [append Scan.int_from]. lia.
Qed.

Lemma int_two d e :
  Scan.int (String d (String e ""))
  = (10 * Scan.digit_value d + Scan.digit_value e)%Z.
Proof.
  unfold Scan.int. cbn [Scan.int_from]. lia.
Qed.

(** *** The listings *)

Lemma dirs_returned a p l :
  dirs a p = Scan.Returned l -> listable a p = true /\ listing a p = l.
Proof.
  unfold Scan.listing, Scan.listable. intros H. rewrite H.
  unfold Scan.dirs in H. destruct (os_listdir (Scan.join a p)).
  - split; reflexivity.
  - discriminate.
Qed.

Lemma dirs_aborted a p e :
  dirs a p = Scan.Aborted e ->
  listable a p = false /\ e = Scan.OSError /\
  os_listdir (Scan.join a p) = None.
Proof.
  unfold Scan.listable, Scan.dirs.
  destruct (os_listdir (Scan.join a p)); [discriminate|].
  intros H. inversion H. repeat split.
Qed.

(** *** The three loops *)

Lemma challenge_loop_cons cf cat sub cid sid ch rest cn sn acc :
  challenge_loop cf cat sub cid sid (ch :: rest) cn sn acc =
    match Scan.CHALLENGE_REGEX ch with
    | None => Scan.Aborted (Scan.SystemExit 1)
    | Some (challenge_id, _) =>
        match load_config
                (Scan.join (Scan.join cf [cat; sub; ch]) ["config.yaml"]) with
        | Scan.FileNotFoundError => Scan.Aborted (Scan.SystemExit 1)
        | Scan.ScannerError => Scan.Aborted (Scan.SystemExit 1)
        | Scan.OtherError => Scan.Aborted Scan.ConfigError
        | Scan.Loaded =>
            challenge_loop cf cat sub cid sid rest
              (Scan.normalise cn) (Scan.normalise sn)
              (acc ++
                 [Scanner.mkChallenge (Scan.normalise ch)
                    (os_path_abspath (Scan.join cf [cat; sub; ch]))
                    (Scan.int (cid ++ sid ++ challenge_id))
                    (Scan.normalise cn) (Scan.normalise sn)])
        end
    end.
Proof. reflexivity. Qed.

Lemma challenge_loop_cases cf cat sub cid sid l :
  forall cn sn acc,
    match challenge_loop cf cat sub cid sid l cn sn acc with
    | Scan.Returned (cn', _, acc') =>
        forallb (valid_challenge cf cat sub) l = true /\
        acc' =
          acc ++
          map (fun ch =>
                 Scanner.mkChallenge (Scan.normalise ch)
                   (os_path_abspath (Scan.join cf [cat; sub; ch]))
                   (Scan.int
                      (cid ++ sid ++ Scan.group1 (Scan.CHALLENGE_REGEX ch)))
                   (Scan.normalise cn) (Scan.normalise sn)) l /\
        Scan.normalise cn' = Scan.normalise cn
    | Scan.Aborted e =>
        forallb (valid_challenge cf cat sub) l = false /\ aborts_for e
    end.
Proof.
  induction l as [|ch rest IH]; intros cn sn acc.
  - cbn [Scan.challenge_loop forallb map]. rewrite app_nil_r.
    repeat split.
  - rewrite challenge_loop_cons. cbn [forallb map].
    unfold Scan.valid_challenge at 1 3.
    destruct (Scan.CHALLENGE_REGEX ch) as [[hid g]|] eqn:R;
      [|split; [reflexivity | left; reflexivity]].
    destruct (load_config
                (Scan.join (Scan.join cf [cat; sub; ch]) ["config.yaml"]))
      eqn:L.
    + specialize (IH (Scan.normalise cn) (Scan.normalise sn)
                    (acc ++
                       [Scanner.mkChallenge (Scan.normalise ch)
                          (os_path_abspath (Scan.join cf [cat; sub; ch]))
                          (Scan.int (cid ++ sid ++ hid))
                          (Scan.normalise cn) (Scan.normalise sn)])).
      destruct (challenge_loop cf cat sub cid sid rest
                  (Scan.normalise cn) (Scan.normalise sn) _)
        as [[[cn' sn'] acc']|e].
      * destruct IH as [V [A N]]. split; [exact V|]. split.
        -- rewrite A, <- app_assoc. rewrite !normalise_idempotent.
           reflexivity.
        -- rewrite N. apply normalise_idempotent.
      * destruct IH as [V E]. split; [exact V | exact E].
    + split; [reflexivity | left; reflexivity].
    + split; [reflexivity | left; reflexivity].
    + split; [reflexivity|]. right. left. split; [reflexivity|]. eauto.
Qed.

Lemma subcategory_loop_cons cf cat cid sub rest cn acc :
  subcategory_loop cf cat cid (sub :: rest) cn acc =
    match Scan.SUBCATEGORY_REGEX sub with
    | None => Scan.Aborted (Scan.SystemExit 1)
    | Some (subcategory_id, subcategory_name) =>
        match dirs cf [cat; sub] with
        | Scan.Aborted e => Scan.Aborted e
        | Scan.Returned inner =>
            match challenge_loop cf cat sub cid subcategory_id inner
                    cn subcategory_name acc with
            | Scan.Aborted e => Scan.Aborted e
            | Scan.Returned (cn', _, acc') =>
                subcategory_loop cf cat cid rest cn' acc'
            end
        end
    end.
Proof. reflexivity. Qed.

Lemma subcategory_loop_cases cf cat cid l :
  forall cn acc,
    match subcategory_loop cf cat cid l cn acc with
    | Scan.Returned (cn', acc') =>
        forallb (valid_subcategory cf cat) l = true /\
        acc' =
          acc ++
          flat_map
            (fun sub =>
               map (fun ch =>
                      Scanner.mkChallenge (Scan.normalise ch)
                        (os_path_abspath (Scan.join cf [cat; sub; ch]))
                        (Scan.int
                           (cid ++ Scan.group1 (Scan.SUBCATEGORY_REGEX sub)
                              ++ Scan.group1 (Scan.CHALLENGE_REGEX ch)))
                        (Scan.normalise cn)
                        (Scan.normalise
                           (Scan.group2 (Scan.SUBCATEGORY_REGEX sub))))
                 (listing cf [cat; sub])) l /\
        Scan.normalise cn' = Scan.normalise cn
    | Scan.Aborted e =>
        forallb (valid_subcategory cf cat) l = false /\ aborts_for e
    end.
Proof.
  induction l as [|sub rest IH]; intros cn acc.
  - cbn [Scan.subcategory_loop forallb flat_map]. rewrite app_nil_r.
    repeat split.
  - rewrite subcategory_loop_cons. cbn [forallb flat_map].
    unfold Scan.valid_subcategory at 1 3.
    destruct (Scan.SUBCATEGORY_REGEX sub) as [[sid sname]|] eqn:R;
      [|split; [reflexivity | left; reflexivity]].
    cbn [Scan.matches Scan.group1 Scan.group2 andb].
    destruct (dirs cf [cat; sub]) as [inner|e] eqn:D.
    + destruct (dirs_returned _ _ D) as [D1 D2]. rewrite D1, D2.
      cbn [andb].
      pose proof (challenge_loop_cases cf cat sub cid sid inner cn sname acc)
        as C.
      destruct (challenge_loop cf cat sub cid sid inner cn sname acc)
        as [[[cn1 sn1] acc1]|e].
      * destruct C as [V [A N]]. rewrite V. cbn [andb].
        specialize (IH cn1 acc1).
        destruct (subcategory_loop cf cat cid rest cn1 acc1)
          as [[cn' acc']|e].
        -- destruct IH as [V' [A' N']]. split; [exact V'|]. split.
           ++ rewrite A', A, <- app_assoc. rewrite N. reflexivity.
           ++ rewrite N'. exact N.
        -- exact IH.
      * destruct C as [V E]. rewrite V. split; [reflexivity | exact E].
    + destruct (dirs_aborted _ _ D) as [D1 [-> D2]]. rewrite D1.
      split; [reflexivity|]. right. right. split; [reflexivity|]. eauto.
Qed.

Lemma category_loop_cons cf cat rest acc :
  category_loop cf (cat :: rest) acc =
    match Scan.CATEGORY_REGEX cat with
    | None => Scan.Aborted (Scan.SystemExit 1)
    | Some (category_id, category_name) =>
        match dirs cf [cat] with
        | Scan.Aborted e => Scan.Aborted e
        | Scan.Returned subfolders =>
            match subcategory_loop cf cat category_id subfolders
                    category_name acc with
            | Scan.Aborted e => Scan.Aborted e
            | Scan.Returned (_, acc') => category_loop cf rest acc'
            end
        end
    end.
Proof. reflexivity. Qed.

Lemma category_loop_cases cf l :
  forall acc,
    match category_loop cf l acc with
    | Scan.Returned acc' =>
        forallb (valid_category cf) l = true /\
        acc' =
          acc ++
          flat_map
            (fun cat =>
               flat_map
                 (fun sub =>
                    map (challenge_of cf cat sub) (listing cf [cat; sub]))
                 (listing cf [cat])) l
    | Scan.Aborted e =>
        forallb (valid_category cf) l = false /\ aborts_for e
    end.
Proof.
  induction l as [|cat rest IH]; intros acc.
  - cbn [Scan.category_loop forallb flat_map]. rewrite app_nil_r.
    repeat split.
  - rewrite category_loop_cons. cbn [forallb flat_map].
    unfold Scan.valid_category at 1 3.
    destruct (Scan.CATEGORY_REGEX cat) as [[cid cname]|] eqn:R;
      [|split; [reflexivity | left; reflexivity]].
    cbn [Scan.matches andb].
    destruct (dirs cf [cat]) as [subs|e] eqn:D.
    + destruct (dirs_returned _ _ D) as [D1 D2]. rewrite D1, D2.
      cbn [andb].
      pose proof (subcategory_loop_cases cf cat cid subs cname acc) as C.
      destruct (subcategory_loop cf cat cid subs cname acc)
        as [[cn1 acc1]|e].
      * destruct C as [V [A N]]. rewrite V. cbn [andb].
        specialize (IH acc1).
        destruct (category_loop cf rest acc1) as [acc'|e].
        -- destruct IH as [V' A']. split; [exact V'|].
           rewrite A', A, <- app_assoc. unfold Scan.challenge_of.
           rewrite R. reflexivity.
        -- exact IH.
      * destruct C as [V E]. rewrite V. split; [reflexivity | exact E].
    + destruct (dirs_aborted _ _ D) as [D1 [-> D2]]. rewrite D1.
      split; [reflexivity|]. right. right. split; [reflexivity|]. eauto.
Qed.

Lemma main_cases folder :
  let cf := Scan.join script_dir [folder] in
  match scan folder with
  | Scan.Returned challs =>
      valid_tree cf = true /\ challs = challenges_of cf
  | Scan.Aborted e => valid_tree cf = false /\ aborts_for e
  end.
Proof.
  intros cf. unfold Scan.main. fold cf. unfold Scan.valid_tree.
  destruct (dirs cf []) as [folders|e] eqn:D.
  - destruct (dirs_returned _ _ D) as [D1 D2]. rewrite D1, D2.
    cbn [andb].
    pose proof (category_loop_cases cf folders []) as C.
    destruct (category_loop cf folders []) as [challs|e].
    + destruct C as [V A]. split; [exact V|].
      rewrite A. unfold Scan.challenges_of. rewrite D2. reflexivity.
    + exact C.
  - destruct (dirs_aborted _ _ D) as [D1 [-> D2]]. rewrite D1.
    split; [reflexivity|]. right. right. split; [reflexivity|]. eauto.
Qed.

(** The challenges of a valid tree, by their folders. *)
Lemma In_challenges_of cf ch :
  In ch (challenges_of cf) <->
  exists cat sub c,
    In cat (listing cf []) /\ In sub (listing cf [cat]) /\
    In c (listing cf [cat; sub]) /\ ch = challenge_of cf cat sub c.
Proof.
  unfold Scan.challenges_of. rewrite in_flat_map. split.
  - intros [cat [Hc H]]. apply in_flat_map in H as [sub [Hs H]].
    apply in_map_iff in H as [c [E Hh]].
    exists cat, sub, c. repeat split; auto.
  - intros [cat [sub [c [Hc [Hs [Hh E]]]]]].
    exists cat. split; [exact Hc|]. apply in_flat_map.
    exists sub. split; [exact Hs|]. apply in_map_iff.
    exists c. split; auto.
Qed.

Lemma valid_tree_folders cf cat sub c :
  valid_tree cf = true ->
  In cat (listing cf []) -> In sub (listing cf [cat]) ->
  In c (listing cf [cat; sub]) ->
  Scan.matches (Scan.CATEGORY_REGEX cat) = true /\
  Scan.matches (Scan.SUBCATEGORY_REGEX sub) = true /\
  Scan.matches (Scan.CHALLENGE_REGEX c) = true.
Proof.
  intros V Hc Hs Hh. unfold Scan.valid_tree in V.
  apply andb_prop in V as [_ V].
  rewrite forallb_forall in V. specialize (V cat Hc).
  unfold Scan.valid_category in V.
  apply andb_prop in V as [V V2]. apply andb_prop in V as [V1 _].
  rewrite forallb_forall in V2. specialize (V2 sub Hs).
  unfold Scan.valid_subcategory in V2.
  apply andb_prop in V2 as [V2 V4]. apply andb_prop in V2 as [V3 _].
  rewrite forallb_forall in V4. specialize (V4 c Hh).
  unfold Scan.valid_challenge in V4. apply andb_prop in V4 as [V5 _].
  auto.
Qed.

(** The port of a challenge, by the digits of its three folders. *)
Lemma challenge_of_port cf cat sub c :
  Scan.matches (Scan.CATEGORY_REGEX cat) = true ->
  Scan.matches (Scan.SUBCATEGORY_REGEX sub) = true ->
  Scan.matches (Scan.CHALLENGE_REGEX c) = true ->
  exists a b s d e,
    Scan.is_digit a = true /\ Scan.is_digit b = true /\
    Scan.is_digit s = true /\ Scan.is_digit d = true /\
    Scan.is_digit e = true /\
    Scan.group1 (Scan.CATEGORY_REGEX cat) = String a (String b "") /\
    Scan.group1 (Scan.SUBCATEGORY_REGEX sub) = String s "" /\
    Scan.group1 (Scan.CHALLENGE_REGEX c) = String d (String e "") /\
    Scanner.port (challenge_of cf cat sub c) =
      (10000 * Scan.digit_value a + 1000 * Scan.digit_value b
       + 100 * Scan.digit_value s + 10 * Scan.digit_value d
       + Scan.digit_value e)%Z.
Proof.
  intros Mc Ms Mh.
  destruct (category_regex_inv _ Mc) as [a [b [r1 [g1 [_ [Ha [Hb [E1 _]]]]]]]].
  destruct (subcategory_regex_inv _ Ms) as [s [r2 [g2 [_ [Hs [E2 _]]]]]].
  destruct (challenge_regex_inv _ Mh) as [d [e [r3 [g3 [_ [Hd [He [E3 _]]]]]]]].
  exists a, b, s, d, e. unfold Scan.challenge_of. cbn [Scanner.port].
  rewrite E1, E2, E3. cbn [Scan.group1]. rewrite int_digits.
  repeat split; assumption.
Qed.

(** X9: the scan returns a list exactly when the tree is valid: every
    folder of the three levels can be listed, every directory name fits
    the pattern of its level and every [config.yaml] loads.  The list
    then holds one challenge per challenge folder, in the order of the
    listings, each with the fields computed from the names of the three
    folders on its own path: rebinding [category_name] and
    [subcategory_name] in the innermost loop changes nothing, since the
    substitution leaves its own results as they are. *)
Theorem X9_scan_returns folder challs :
  let cf := Scan.join script_dir [folder] in
  scan folder = Scan.Returned challs <->
  valid_tree cf = true /\ challs = challenges_of cf.
Proof.
  intros cf. pose proof (main_cases folder) as C. cbv zeta in C. fold cf in C.
  split.
  - intros E. rewrite E in C. exact C.
  - intros [V ->]. destruct (scan folder) as [challs'|e].
    + destruct C as [_ ->]. reflexivity.
    + destruct C as [V' _]. rewrite V in V'. discriminate.
Qed.

(** X10: a tree that is not valid yields no list at all, not even the
    challenges scanned before the fault: the scan ends in
    [sys.exit(1)], or in the [OSError] of a listing that failed, or in
    an exception of the loading of a configuration that [main] does
    not catch.  When every listing succeeds and every loading ends in a
    configuration or in one of the two exceptions caught, the scan of
    a tree that is not valid ends in [sys.exit(1)]. *)
Theorem X10_scan_aborts folder :
  let cf := Scan.join script_dir [folder] in
  valid_tree cf = false ->
  exists e,
    scan folder = Scan.Aborted e /\
    (e = Scan.SystemExit 1 \/
     (e = Scan.ConfigError /\ exists p, load_config p = Scan.OtherError) \/
     (e = Scan.OSError /\ exists p, os_listdir p = None)) /\
    ((forall p, os_listdir p <> None) ->
     (forall p, load_config p <> Scan.OtherError) ->
     e = Scan.SystemExit 1).
Proof.
  intros cf V. pose proof (main_cases folder) as C. cbv zeta in C. fold cf in C.
  destruct (scan folder) as [challs|e].
  - destruct C as [V' _]. rewrite V in V'. discriminate.
  - destruct C as [_ A]. exists e. split; [reflexivity|]. split; [exact A|].
    intros Hl Hc. destruct A as [A|[[_ [p Hp]]|[_ [p Hp]]]].
    + exact A.
    + destruct (Hc p Hp).
    + destruct (Hl p Hp).
Qed.

(** X11: the fields of a scanned challenge.  The port is the number
    written by the five digits of the three folders, between 0 and
    99999; the name begins with the two digits of the challenge folder
    and a dash, and these two digits are the last two of the port; the
    category and the subcategory are not empty; and the id is made of
    lower-case letters, digits and dashes only. *)
Theorem X11_challenge_fields folder challs ch :
  scan folder = Scan.Returned challs -> In ch challs ->
  (0 <= Scanner.port ch <= 99999)%Z /\
  (exists d e rest,
     Scanner.name ch = String d (String e (String "-" rest)) /\
     Scan.is_digit d = true /\ Scan.is_digit e = true /\
     (Scanner.port ch mod 100)%Z = Scan.int (String d (String e ""))) /\
  Scanner.category ch <> "" /\ Scanner.subcategory ch <> "" /\
  Scan.all_chars Scan.is_name_char (Scanner.id ch) = true.
Proof.
  intros E Hin. pose proof (main_cases folder) as C. cbv zeta in C.
  rewrite E in C. destruct C as [V ->].
  apply In_challenges_of in Hin
    as [cat [sub [c [Hc [Hs [Hh ->]]]]]].
  destruct (valid_tree_folders _ _ _ _ V Hc Hs Hh) as [Mc [Ms Mh]].
  destruct (challenge_of_port (Scan.join script_dir [folder]) _ _ _ Mc Ms Mh)
    as [a [b [s [d [e [Ha [Hb [Hs' [Hd [He [G1 [G2 [G3 P]]]]]]]]]]]]].
  pose proof (digit_value_range _ Ha). pose proof (digit_value_range _ Hb).
  pose proof (digit_value_range _ Hs'). pose proof (digit_value_range _ Hd).
  pose proof (digit_value_range _ He).
  destruct (category_regex_inv _ Mc) as [a1 [b1 [r1 [g1 [_ [_ [_ [E1 N1]]]]]]]].
  destruct (subcategory_regex_inv _ Ms) as [s2 [r2 [g2 [_ [_ [E2 N2]]]]]].
  destruct (challenge_regex_inv _ Mh)
    as [d3 [e3 [r3 [g3 [Ec [Hd3 [He3 [E3 _]]]]]]]].
  assert (D : d3 = d /\ e3 = e).
  { rewrite E3 in G3. cbn [Scan.group1] in G3. inversion G3. auto. }
  destruct D as [-> ->].
  split; [rewrite P; lia|]. split; [|split; [|split]].
  - exists d, e, (Scan.normalise r3). split; [|split; [|split]].
    + unfold Scan.challenge_of. cbn [Scanner.name]. rewrite Ec.
      rewrite !normalise_cons, (normalise_digit _ Hd), (normalise_digit _ He).
      reflexivity.
    + exact Hd.
    + exact He.
    + rewrite P, int_two.
      symmetry. apply Z.mod_unique_pos
        with (q := (100 * Scan.digit_value a + 10 * Scan.digit_value b
                    + Scan.digit_value s)%Z); lia.
  - unfold Scan.challenge_of. cbn [Scanner.category]. rewrite E1.
    cbn [Scan.group2]. apply normalise_nonempty. exact N1.
  - unfold Scan.challenge_of. cbn [Scanner.subcategory]. rewrite E2.
    cbn [Scan.group2]. apply normalise_nonempty. exact N2.
  - unfold Scanner.id, Scan.challenge_of.
    cbn [Scanner.category Scanner.name].
    rewrite !all_chars_app, !normalise_chars. reflexivity.
Qed.

(** X12: the port tells the numbers of the three folders.  Two
    challenge folders of a scanned tree get the same port exactly when
    their categories, their subcategories and the folders themselves
    begin with the same digits; the scan does not look for such a
    clash. *)
Theorem X12_port_of_prefixes folder challs cat1 sub1 c1 cat2 sub2 c2 :
  let cf := Scan.join script_dir [folder] in
  scan folder = Scan.Returned challs ->
  In cat1 (listing cf []) -> In sub1 (listing cf [cat1]) ->
  In c1 (listing cf [cat1; sub1]) ->
  In cat2 (listing cf []) -> In sub2 (listing cf [cat2]) ->
  In c2 (listing cf [cat2; sub2]) ->
  In (challenge_of cf cat1 sub1 c1) challs /\
  In (challenge_of cf cat2 sub2 c2) challs /\
  (Scanner.port (challenge_of cf cat1 sub1 c1)
     = Scanner.port (challenge_of cf cat2 sub2 c2) <->
   Scan.group1 (Scan.CATEGORY_REGEX cat1)
     = Scan.group1 (Scan.CATEGORY_REGEX cat2) /\
   Scan.group1 (Scan.SUBCATEGORY_REGEX sub1)
     = Scan.group1 (Scan.SUBCATEGORY_REGEX sub2) /\
   Scan.group1 (Scan.CHALLENGE_REGEX c1)
     = Scan.group1 (Scan.CHALLENGE_REGEX c2)).
Proof.
  intros cf E Hc1 Hs1 Hh1 Hc2 Hs2 Hh2.
  pose proof (main_cases folder) as C. cbv zeta in C. fold cf in C.
  rewrite E in C. destruct C as [V ->].
  split; [apply In_challenges_of; exists cat1, sub1, c1; auto|].
  split; [apply In_challenges_of; exists cat2, sub2, c2; auto|].
  destruct (valid_tree_folders _ _ _ _ V Hc1 Hs1 Hh1) as [Mc1 [Ms1 Mh1]].
  destruct (valid_tree_folders _ _ _ _ V Hc2 Hs2 Hh2) as [Mc2 [Ms2 Mh2]].
  destruct (challenge_of_port cf _ _ _ Mc1 Ms1 Mh1)
    as [a [b [s [d [e [Ha [Hb [Hs [Hd [He [G1 [G2 [G3 P]]]]]]]]]]]]].
  destruct (challenge_of_port cf _ _ _ Mc2 Ms2 Mh2)
    as [a' [b' [s' [d' [e' [Ha' [Hb' [Hs' [Hd' [He' [G1' [G2' [G3' P']]]]]]]]]]]]].
  rewrite P, P', G1, G2, G3, G1', G2', G3'.
  pose proof (digit_value_range _ Ha). pose proof (digit_value_range _ Hb).
  pose proof (digit_value_range _ Hs). pose proof (digit_value_range _ Hd).
  pose proof (digit_value_range _ He).
  pose proof (digit_value_range _ Ha'). pose proof (digit_value_range _ Hb').
  pose proof (digit_value_range _ Hs'). pose proof (digit_value_range _ Hd').
  pose proof (digit_value_range _ He').
  split.
  - intros Q.
    assert (Q1 : Scan.digit_value a = Scan.digit_value a') by lia.
    assert (Q2 : Scan.digit_value b = Scan.digit_value b') by lia.
    assert (Q3 : Scan.digit_value s = Scan.digit_value s') by lia.
    assert (Q4 : Scan.digit_value d = Scan.digit_value d') by lia.
    assert (Q5 : Scan.digit_value e = Scan.digit_value e') by lia.
    apply digit_value_inj in Q1, Q2, Q3, Q4, Q5. subst.
    repeat split.
  - intros [Q1 [Q2 Q3]]. inversion Q1. inversion Q2. inversion Q3.
    reflexivity.
Qed.

(** X13: the id of a challenge leaves the subcategory out.  Two
    challenge folders of one name in two subcategories of a category
    give two challenges of one id, hence one name for their
    deployments and one for their services, while their ports differ
    as soon as the digits of the subcategories do. *)
Theorem X13_id_without_subcategory folder challs cat sub1 sub2 c :
  let cf := Scan.join script_dir [folder] in
  scan folder = Scan.Returned challs ->
  In cat (listing cf []) ->
  In sub1 (listing cf [cat]) -> In sub2 (listing cf [cat]) ->
  In c (listing cf [cat; sub1]) -> In c (listing cf [cat; sub2]) ->
  let ch1 := challenge_of cf cat sub1 c in
  let ch2 := challenge_of cf cat sub2 c in
  In ch1 challs /\ In ch2 challs /\
  Scanner.id ch1 = Scanner.id ch2 /\
  res_name (deployment_manifest ch1) = res_name (deployment_manifest ch2) /\
  res_name (service_manifest ch1) = res_name (service_manifest ch2) /\
  (Scan.group1 (Scan.SUBCATEGORY_REGEX sub1)
     <> Scan.group1 (Scan.SUBCATEGORY_REGEX sub2) ->
   Scanner.port ch1 <> Scanner.port ch2).
Proof.
  intros cf E Hc Hs1 Hs2 Hh1 Hh2 ch1 ch2.
  pose proof (main_cases folder) as C. cbv zeta in C. fold cf in C.
  rewrite E in C. destruct C as [V ->].
  split; [apply In_challenges_of; exists cat, sub1, c; auto|].
  split; [apply In_challenges_of; exists cat, sub2, c; auto|].
  split; [reflexivity|]. split; [reflexivity|]. split; [reflexivity|].
  destruct (valid_tree_folders _ _ _ _ V Hc Hs1 Hh1) as [Mc [Ms1 Mh]].
  destruct (valid_tree_folders _ _ _ _ V Hc Hs2 Hh2) as [_ [Ms2 _]].
  destruct (challenge_of_port cf _ _ _ Mc Ms1 Mh)
    as [a [b [s [d [e [Ha [Hb [Hs [Hd [He [G1 [G2 [G3 P]]]]]]]]]]]]].
  destruct (challenge_of_port cf _ _ _ Mc Ms2 Mh)
    as [a' [b' [s' [d' [e' [Ha' [Hb' [Hs' [Hd' [He' [G1' [G2' [G3' P']]]]]]]]]]]]].
  intros N Q. apply N. unfold ch1, ch2 in Q. rewrite P, P' in Q.
  rewrite G1 in G1'. rewrite G3 in G3'. inversion G1'. inversion G3'. subst.
  rewrite G2, G2'. f_equal. apply digit_value_inj. lia.
Qed.

End ScanFacts.

(** ** The CTFd synchroniser *)

Section CtfdFacts.

Set Default Proof Using "Type".

Variable server : list Ctfd.Step -> Ctfd.Request -> Ctfd.Served.
Variable CHALLENGES_HOST : string.
Variable can_open : string -> bool.
Variable key_at_import : string.
Variable CTFD_API_KEY : string.

Local Abbreviation request := (Ctfd.request key_at_import).
Local Abbreviation challenge_body := (Ctfd.challenge_body CHALLENGES_HOST).
Local Abbreviation send := (Ctfd.send server key_at_import).
Local Abbreviation get_challenge := (Ctfd.get_challenge server key_at_import).
Local Abbreviation get_each := (Ctfd.get_each server key_at_import).
Local Abbreviation get_challenges := (Ctfd.get_challenges server key_at_import).
Local Abbreviation create_flag := (Ctfd.create_flag server key_at_import).
Local Abbreviation create_hints := (Ctfd.create_hints server key_at_import).
Local Abbreviation post_hints := (Ctfd.post_hints server key_at_import).
Local Abbreviation delete_files := (Ctfd.delete_files server key_at_import).
Local Abbreviation post_files :=
  (Ctfd.post_files server can_open CTFD_API_KEY).
Local Abbreviation upload_files :=
  (Ctfd.upload_files server can_open key_at_import CTFD_API_KEY).
Local Abbreviation set_requirement := (Ctfd.set_requirement server key_at_import).
Local Abbreviation deploy_challenge :=
  (Ctfd.deploy_challenge server CHALLENGES_HOST can_open key_at_import
     CTFD_API_KEY).
Local Abbreviation deploy_each :=
  (Ctfd.deploy_each server CHALLENGES_HOST can_open key_at_import
     CTFD_API_KEY).
Local Abbreviation require_each := (Ctfd.require_each server key_at_import).
Local Abbreviation delete_each := (Ctfd.delete_each server key_at_import).
Local Abbreviation sync :=
  (Ctfd.main server CHALLENGES_HOST can_open key_at_import CTFD_API_KEY).
Local Abbreviation writes := (Ctfd.writes CHALLENGES_HOST key_at_import).
Local Abbreviation write_request :=
  (Ctfd.write_request CHALLENGES_HOST key_at_import).

(** *** The marker of the id *)

Lemma prefix_before a p t m :
  Ctfd.without a p = true ->
  String.prefix p (t ++ String a m) = true -> String.prefix p t = true.
Proof.
  revert t. induction p as [|x p IH]; intros t Hp H; [destruct t; reflexivity|].
  unfold Ctfd.without in Hp. cbn [Scan.all_chars] in Hp.
  apply andb_prop in Hp as [Hx Hp].
  destruct t as [|y t]; simpl in H |- *.
  - destruct (ascii_dec x a) as [->|N]; [|discriminate].
    rewrite Ascii.eqb_refl in Hx. discriminate.
  - destruct (ascii_dec x y); [|discriminate]. apply IH; assumption.
Qed.

Lemma search_after pre m :
  Ctfd.occurs Ctfd.ID_OPEN pre = false ->
  Ctfd.search (pre ++ String (ascii_of_nat 10) m)
    = Ctfd.search (String (ascii_of_nat 10) m).
Proof.
  induction pre as [|c pre IH]; intros H; [reflexivity|].
  cbn [Ctfd.occurs] in H. apply orb_false_elim in H as [H1 H2].
  change ((String c pre ++ String (ascii_of_nat 10) m)%string)
    with (String c (pre ++ String (ascii_of_nat 10) m)).
  cbn [Ctfd.search].
  destruct (String.prefix Ctfd.ID_OPEN
              (String c (pre ++ String (ascii_of_nat 10) m))) eqn:E.
  - change (String c (pre ++ String (ascii_of_nat 10) m))
      with ((String c pre ++ String (ascii_of_nat 10) m)%string) in E.
    apply prefix_before in E; [|reflexivity]. rewrite E in H1. discriminate.
  - apply IH. exact H2.
Qed.

Lemma dot_star_line s m :
  Ctfd.without (ascii_of_nat 10) s = true ->
  Scan.dot_star (s ++ m) = (s ++ Scan.dot_star m)%string.
Proof.
  induction s as [|c s IH]; intros H; [reflexivity|].
  unfold Ctfd.without in H. cbn [Scan.all_chars] in H.
  apply andb_prop in H as [Hc Hs].
  cbn [append Scan.dot_star]. apply negb_true_iff in Hc. rewrite Hc.
  f_equal. apply IH. exact Hs.
Qed.

Lemma before_last_paren_end s :
  Ctfd.before_last_paren (s ++ ")") = Some s.
Proof.
  induction s as [|c s IH]; [reflexivity|].
  cbn [append Ctfd.before_last_paren]. rewrite IH. reflexivity.
Qed.

Lemma group_at_end s :
  s <> "" -> Ctfd.without (ascii_of_nat 10) s = true ->
  Ctfd.group_at (s ++ ")") = Some s.
Proof.
  intros Hn Hs. unfold Ctfd.group_at.
  rewrite (@dot_star_line s ")" Hs). cbn [Scan.dot_star].
  change (if Ascii.eqb ")" (ascii_of_nat 10) then EmptyString
          else String ")" (Scan.dot_star "")) with ")".
  rewrite before_last_paren_end. destruct s; [contradiction | reflexivity].
Qed.

Lemma search_no c rest :
  String.prefix Ctfd.ID_OPEN (String c rest) = false ->
  Ctfd.search (String c rest) = Ctfd.search rest.
Proof. intros H. cbn [Ctfd.search]. rewrite H. reflexivity. Qed.

Lemma search_yes s g :
  String.prefix Ctfd.ID_OPEN s = true ->
  Ctfd.group_at (Ctfd.drop 6 s) = Some g ->
  Ctfd.search s = Some g.
Proof.
  intros H G. destruct s as [|c rest]; [discriminate|].
  cbn [Ctfd.search]. rewrite H, G. reflexivity.
Qed.

Lemma prefix_open x :
  String.prefix Ctfd.ID_OPEN ("[](ID:" ++ x) = true.
Proof. destruct x; reflexivity. Qed.

Lemma id_nonempty c : Ctfd.id c <> "".
Proof.
  unfold Ctfd.id, Scanner.id.
  destruct (Scanner.category (Ctfd.challenge c)); discriminate.
Qed.

Lemma append_assoc (a b c : string) :
  ((a ++ b) ++ c = a ++ b ++ c)%string.
Proof. induction a as [|x a IH]; [reflexivity|]. simpl. now rewrite IH. Qed.

(** Z1 below: the description that [deploy_challenge] writes ends with
    the marker of the id, and [get_challenge] reads the id back. *)
Lemma search_description c :
  Ctfd.occurs Ctfd.ID_OPEN
    (Ctfd.config_description (Ctfd.config c) ++ NEWLINE ++ NEWLINE
       ++ "Author: **" ++ Ctfd.config_author (Ctfd.config c) ++ "**")%string
    = false ->
  Ctfd.without (ascii_of_nat 10) (Ctfd.id c) = true ->
  Ctfd.search (Ctfd.body_description (challenge_body c)) = Some (Ctfd.id c).
Proof.
  intros Ho Hn. unfold Ctfd.challenge_body. cbn [Ctfd.body_description].
  set (d := Ctfd.config_description (Ctfd.config c)) in *.
  set (a := Ctfd.config_author (Ctfd.config c)) in *.
  assert (E : (d ++ NEWLINE ++ NEWLINE ++ "Author: **" ++ a ++ "**" ++ NEWLINE
                 ++ "[](ID:" ++ Ctfd.id c ++ ")")%string
              = ((d ++ NEWLINE ++ NEWLINE ++ "Author: **" ++ a ++ "**")
                   ++ String (ascii_of_nat 10)
                        ("[](ID:" ++ Ctfd.id c ++ ")"))%string).
  { rewrite !append_assoc. reflexivity. }
  rewrite E, (@search_after _ ("[](ID:" ++ Ctfd.id c ++ ")")%string Ho).
  rewrite search_no by reflexivity.
  apply search_yes; [apply prefix_open|].
  exact (group_at_end (id_nonempty c) Hn).
Qed.

(** *** Steps *)

Lemma sync_bind_inv A B (m : Ctfd.C A) (f : A -> Ctfd.C B) s r s' :
  Ctfd.bind m f s = (r, s') ->
  (exists a s1, m s = (Ctfd.Ok a, s1) /\ f a s1 = (r, s')) \/
  (exists e, m s = (Ctfd.Raise e, s') /\ r = Ctfd.Raise e).
Proof.
  unfold Ctfd.bind. destruct (m s) as [[a|e] s1]; intros E.
  - left. exists a, s1. split; [reflexivity | exact E].
  - right. exists e. inversion E; subst. split; reflexivity.
Qed.

Lemma send_with_log h m e p s r s' :
  Ctfd.send_with server h m e p s = (r, s') ->
  Ctfd.log s' = Ctfd.log s ++ [Ctfd.Sent (Ctfd.mkRequest m e p h)] /\
  Ctfd.stdin s' = Ctfd.stdin s.
Proof.
  unfold Ctfd.send_with.
  destruct (server (Ctfd.log s) _); intros E;
    inversion E; subst; split; reflexivity.
Qed.

Lemma send_log m e p s r s' :
  send m e p s = (r, s') ->
  Ctfd.log s' = Ctfd.log s ++ [Ctfd.Sent (request m e p)] /\
  Ctfd.stdin s' = Ctfd.stdin s.
Proof. apply send_with_log. Qed.

Lemma send_response m e p s code j :
  server (Ctfd.log s) (request m e p) = Ctfd.response code j ->
  send m e p s =
    (Ctfd.Ok (Ctfd.mkResponse code j),
     Ctfd.mkState (Ctfd.log s ++ [Ctfd.Sent (request m e p)])
       (Ctfd.stdin s)).
Proof.
  intros H. unfold Ctfd.send, Ctfd.send_with. unfold Ctfd.request in H.
  rewrite H. reflexivity.
Qed.

Lemma data_ok code j d s :
  Ctfd.subscript j "data" = Ctfd.Ok d ->
  Ctfd.data (Ctfd.mkResponse code (Some j)) s = (Ctfd.Ok d, s).
Proof.
  intros H. unfold Ctfd.data, Ctfd.bind, Ctfd.lift, Ctfd.json. simpl.
  rewrite H. reflexivity.
Qed.

Lemma get_challenge_found i s code j chall d g i' :
  server (Ctfd.log s) (request Ctfd.GET (Ctfd.challenges_id i)
                         Ctfd.nothing) = Ctfd.response code (Some j) ->
  Ctfd.subscript j "data" = Ctfd.Ok chall ->
  Ctfd.subscript chall "description" = Ctfd.Ok (Ctfd.JStr d) ->
  Ctfd.search d = Some g ->
  Ctfd.subscript chall "id" = Ctfd.Ok i' ->
  get_challenge i s =
    (Ctfd.Ok (i', g),
     Ctfd.mkState
       (Ctfd.log s ++
          [Ctfd.Sent (request Ctfd.GET (Ctfd.challenges_id i)
                        Ctfd.nothing)])
       (Ctfd.stdin s)).
Proof.
  intros Hs Hd Hdesc Hg Hi. unfold Ctfd.get_challenge.
  unfold Ctfd.bind at 1. rewrite (send_response _ Hs).
  unfold Ctfd.bind at 1. rewrite (@data_ok code j chall _ Hd).
  unfold Ctfd.bind at 1. unfold Ctfd.lift at 1. rewrite Hdesc, Hg.
  unfold Ctfd.bind, Ctfd.lift, Ctfd.ret. rewrite Hi. reflexivity.
Qed.

Lemma get_challenge_unmarked i s code j chall d :
  server (Ctfd.log s) (request Ctfd.GET (Ctfd.challenges_id i)
                         Ctfd.nothing) = Ctfd.response code (Some j) ->
  Ctfd.subscript j "data" = Ctfd.Ok chall ->
  Ctfd.subscript chall "description" = Ctfd.Ok (Ctfd.JStr d) ->
  Ctfd.search d = None ->
  get_challenge i s =
    (Ctfd.Raise Ctfd.AttributeError,
     Ctfd.mkState
       (Ctfd.log s ++
          [Ctfd.Sent (request Ctfd.GET (Ctfd.challenges_id i)
                        Ctfd.nothing)])
       (Ctfd.stdin s)).
Proof.
  intros Hs Hd Hdesc Hg. unfold Ctfd.get_challenge.
  unfold Ctfd.bind at 1. rewrite (send_response _ Hs).
  unfold Ctfd.bind at 1. rewrite (@data_ok code j chall _ Hd).
  unfold Ctfd.bind at 1. unfold Ctfd.lift at 1. rewrite Hdesc, Hg.
  reflexivity.
Qed.

(** X19: the id of a challenge makes the round trip through the
    server.  The description that [deploy_challenge] writes ends with
    the marker of the id; when neither the description of the
    configuration nor the author holds the opening of a marker and the
    id has no line feed, [CHALL_ID_REGEX] reads the id back from it,
    and [get_challenge], on a server that returns this description,
    returns the id with the identifier of the server. *)
Theorem X19_id_round_trip c i s code j chall i' :
  Ctfd.occurs Ctfd.ID_OPEN
    (Ctfd.config_description (Ctfd.config c) ++ NEWLINE ++ NEWLINE
       ++ "Author: **" ++ Ctfd.config_author (Ctfd.config c) ++ "**")%string
    = false ->
  Ctfd.without (ascii_of_nat 10) (Ctfd.id c) = true ->
  server (Ctfd.log s) (request Ctfd.GET (Ctfd.challenges_id i)
                         Ctfd.nothing) = Ctfd.response code (Some j) ->
  Ctfd.subscript j "data" = Ctfd.Ok chall ->
  Ctfd.subscript chall "description"
    = Ctfd.Ok (Ctfd.JStr (Ctfd.body_description (challenge_body c))) ->
  Ctfd.subscript chall "id" = Ctfd.Ok i' ->
  Ctfd.search (Ctfd.body_description (challenge_body c)) = Some (Ctfd.id c) /\
  get_challenge i s =
    (Ctfd.Ok (i', Ctfd.id c),
     Ctfd.mkState
       (Ctfd.log s ++
          [Ctfd.Sent (request Ctfd.GET (Ctfd.challenges_id i)
                        Ctfd.nothing)])
       (Ctfd.stdin s)).
Proof.
  intros Ho Hn Hs Hd Hdesc Hi.
  pose proof (search_description c Ho Hn) as G.
  split; [exact G|].
  exact (@get_challenge_found i s code j chall _ _ i' Hs Hd Hdesc G Hi).
Qed.

(** X20: a challenge of the server whose description holds no marker,
    listed first, ends the synchronisation in [AttributeError] after
    the two requests that read it: nothing is created, updated or
    deleted and the operator is not asked. *)
Theorem X20_unmarked_challenge_stops_the_sync
  challenges s code j ch rest i code' j' chall d :
  let list_request :=
    request Ctfd.GET Ctfd.challenges_ (Ctfd.params_view "admin") in
  let read_request :=
    request Ctfd.GET (Ctfd.challenges_id i) Ctfd.nothing in
  server (Ctfd.log s) list_request = Ctfd.response code (Some j) ->
  Ctfd.subscript j "data" = Ctfd.Ok (Ctfd.JList (ch :: rest)) ->
  Ctfd.subscript ch "id" = Ctfd.Ok i ->
  server (Ctfd.log s ++ [Ctfd.Sent list_request]) read_request
    = Ctfd.response code' (Some j') ->
  Ctfd.subscript j' "data" = Ctfd.Ok chall ->
  Ctfd.subscript chall "description" = Ctfd.Ok (Ctfd.JStr d) ->
  Ctfd.search d = None ->
  sync challenges s =
    (Ctfd.Raise Ctfd.AttributeError,
     Ctfd.mkState
       (Ctfd.log s ++ [Ctfd.Sent list_request; Ctfd.Sent read_request])
       (Ctfd.stdin s)).
Proof.
  intros list_request read_request Hl Hd Hi Hr Hd' Hdesc Hg.
  unfold Ctfd.main. unfold Ctfd.bind at 1. unfold Ctfd.get_challenges.
  unfold Ctfd.bind at 1. fold list_request.
  rewrite (send_response _ Hl). fold list_request.
  unfold Ctfd.bind at 1.
  rewrite (@data_ok code j (Ctfd.JList (ch :: rest)) _ Hd).
  unfold Ctfd.bind at 1. unfold Ctfd.lift at 1. cbn [Ctfd.iterate].
  cbn [Ctfd.get_each]. unfold Ctfd.bind at 1. unfold Ctfd.lift at 1.
  rewrite Hi. unfold Ctfd.bind at 1.
  rewrite (@get_challenge_unmarked i
             (Ctfd.mkState (Ctfd.log s ++ [Ctfd.Sent list_request])
                (Ctfd.stdin s))
             code' j' chall d Hr Hd' Hdesc Hg).
  cbn [Ctfd.log Ctfd.stdin]. rewrite <- app_assoc. reflexivity.
Qed.

(** *** What the functions send *)

Lemma grows_ret A P (a : A) : Ctfd.grows P (Ctfd.ret a).
Proof.
  intros s r s' E. inversion E; subst. exists []. rewrite app_nil_r.
  split; reflexivity.
Qed.

Lemma grows_raise A P e : Ctfd.grows P (@Ctfd.raise A e).
Proof.
  intros s r s' E. inversion E; subst. exists []. rewrite app_nil_r.
  split; reflexivity.
Qed.

Lemma grows_lift A P (x : Ctfd.result A) : Ctfd.grows P (Ctfd.lift x).
Proof.
  intros s r s' E. inversion E; subst. exists []. rewrite app_nil_r.
  split; reflexivity.
Qed.

Lemma grows_bind A B P (m : Ctfd.C A) (f : A -> Ctfd.C B) :
  Ctfd.grows P m -> (forall a, Ctfd.grows P (f a)) ->
  Ctfd.grows P (Ctfd.bind m f).
Proof.
  intros Hm Hf s r s' E.
  apply sync_bind_inv in E as [[a [s1 [E1 E2]]]|[e [E1 _]]].
  - destruct (Hm _ _ _ E1) as [t1 [L1 F1]].
    destruct (Hf a _ _ _ E2) as [t2 [L2 F2]].
    exists (t1 ++ t2). rewrite L2, L1, app_assoc. split; [reflexivity|].
    rewrite forallb_app, F1, F2. reflexivity.
  - exact (Hm _ _ _ E1).
Qed.

Lemma grows_send_with P h m e p :
  P (Ctfd.Sent (Ctfd.mkRequest m e p h)) = true ->
  Ctfd.grows P (Ctfd.send_with server h m e p).
Proof.
  intros H s r s' E. apply send_with_log in E as [L _].
  exists [Ctfd.Sent (Ctfd.mkRequest m e p h)]. split; [exact L|].
  simpl. rewrite H. reflexivity.
Qed.

Lemma grows_send P m e p :
  P (Ctfd.Sent (request m e p)) = true -> Ctfd.grows P (send m e p).
Proof. apply grows_send_with. Qed.

Lemma grows_data P r : Ctfd.grows P (Ctfd.data r).
Proof.
  unfold Ctfd.data. apply grows_bind; [apply grows_lift|].
  intros j. apply grows_lift.
Qed.

Lemma grows_weaken A (P Q : Ctfd.Step -> bool) (m : Ctfd.C A) :
  (forall e, P e = true -> Q e = true) -> Ctfd.grows P m -> Ctfd.grows Q m.
Proof.
  intros H Hm s r s' E. destruct (Hm _ _ _ E) as [t [L F]].
  exists t. split; [exact L|]. rewrite forallb_forall in *. auto.
Qed.

Ltac quiet_steps :=
  repeat first
    [ apply grows_ret | apply grows_raise | apply grows_lift
    | apply grows_data
    | apply grows_send; reflexivity
    | apply grows_bind; [|intro] ].

Lemma quiet_post_hints i hints prev :
  Ctfd.grows Ctfd.quiet (post_hints i hints prev).
Proof.
  revert prev. induction hints as [|h hints IH]; intros prev;
    cbn [Ctfd.post_hints]; [apply grows_ret|].
  apply grows_bind; [apply grows_send; reflexivity|]. intros r.
  destruct (negb (Ctfd.status_code r =? 200)%Z); [apply grows_raise|].
  apply grows_bind; [apply grows_data|]. intros d.
  apply grows_bind; [apply grows_lift|]. intros i0. apply IH.
Qed.

Lemma quiet_create_hints i hints :
  Ctfd.grows Ctfd.quiet (create_hints i hints).
Proof.
  unfold Ctfd.create_hints.
  apply grows_bind; [apply grows_send; reflexivity|]. intros r.
  apply grows_bind; [apply grows_data|]. intros d.
  apply grows_bind; [apply grows_lift|]. intros n.
  destruct (0 <? n)%nat; [apply grows_ret | apply quiet_post_hints].
Qed.

Lemma quiet_create_flag i flag :
  Ctfd.grows Ctfd.quiet (create_flag i flag).
Proof.
  unfold Ctfd.create_flag.
  apply grows_bind; [apply grows_send; reflexivity|]. intros r.
  apply grows_bind; [apply grows_data|]. intros flags.
  apply grows_bind; [apply grows_lift|]. intros n.
  destruct (n =? 0)%nat; [quiet_steps|].
  apply grows_bind; [apply grows_lift|]. intros f.
  apply grows_bind; [apply grows_lift|]. intros current.
  destruct current as [|b|z|x|l|o]; try (quiet_steps; fail).
  destruct (String.eqb x flag); quiet_steps.
Qed.

Lemma quiet_delete_files files :
  Ctfd.grows Ctfd.quiet (delete_files files).
Proof.
  induction files as [|f files IH]; cbn [Ctfd.delete_files];
    [apply grows_ret|].
  apply grows_bind; [apply grows_lift|]. intros i.
  apply grows_bind; [apply grows_send; reflexivity|]. intros _. exact IH.
Qed.

Lemma quiet_post_files i path public :
  Ctfd.grows Ctfd.quiet (post_files i path public).
Proof.
  induction public as [|f public IH]; cbn [Ctfd.post_files];
    [apply grows_ret|].
  destruct (can_open (Scan.join path [f])); [|apply grows_raise].
  apply grows_bind; [apply grows_send_with; reflexivity|]. intros _. exact IH.
Qed.

Lemma quiet_upload_files i c :
  Ctfd.grows Ctfd.quiet (upload_files i c).
Proof.
  unfold Ctfd.upload_files.
  apply grows_bind; [apply grows_send; reflexivity|]. intros r.
  apply grows_bind; [apply grows_data|]. intros files.
  apply grows_bind; [apply grows_lift|]. intros items.
  apply grows_bind; [apply quiet_delete_files|]. intros _.
  destruct (Ctfd.config_public (Ctfd.config c));
    [apply quiet_post_files | apply grows_ret].
Qed.

Lemma quiet_get_challenge i : Ctfd.grows Ctfd.quiet (get_challenge i).
Proof.
  unfold Ctfd.get_challenge.
  apply grows_bind; [apply grows_send; reflexivity|]. intros r.
  apply grows_bind; [apply grows_data|]. intros chall.
  apply grows_bind; [apply grows_lift|]. intros d.
  destruct d as [|b|z|x|l|o]; try apply grows_raise.
  destruct (Ctfd.search x); [quiet_steps | apply grows_raise].
Qed.

Lemma quiet_get_each items d : Ctfd.grows Ctfd.quiet (get_each items d).
Proof.
  revert d. induction items as [|x items IH]; intros d; cbn [Ctfd.get_each];
    [apply grows_ret|].
  apply grows_bind; [apply grows_lift|]. intros i.
  apply grows_bind; [apply quiet_get_challenge|]. intros c. apply IH.
Qed.

Lemma quiet_get_challenges : Ctfd.grows Ctfd.quiet get_challenges.
Proof.
  unfold Ctfd.get_challenges.
  apply grows_bind; [apply grows_send; reflexivity|]. intros r.
  apply grows_bind; [apply grows_data|]. intros d.
  apply grows_bind; [apply grows_lift|]. intros items.
  apply quiet_get_each.
Qed.

Lemma quiet_require_each challenges processed :
  Ctfd.grows Ctfd.quiet (require_each challenges processed).
Proof.
  induction challenges as [|c cs IH]; cbn [Ctfd.require_each];
    [apply grows_ret|].
  apply grows_bind; [|intros _; exact IH].
  destruct (Ctfd.config_requires (Ctfd.config c)); [|apply grows_ret].
  destruct (Ctfd.get (Ctfd.id c) processed); [|apply grows_raise].
  unfold Ctfd.set_requirement. quiet_steps.
Qed.

(** [deploy_challenge] sends its creation or its update first, whatever
    comes of it, and nothing of the kind after it. *)
Lemma deploy_challenge_steps c i s r s' :
  deploy_challenge c i s = (r, s') ->
  exists t,
    Ctfd.log s' = Ctfd.log s ++ Ctfd.Sent (write_request c i) :: t /\
    forallb Ctfd.quiet t = true.
Proof.
  assert (G : forall m e p (k : Ctfd.Response -> Ctfd.C Ctfd.Json)
                     (rest : Ctfd.Json -> Ctfd.C Ctfd.Json),
            (forall a, Ctfd.grows Ctfd.quiet (k a)) ->
            (forall a, Ctfd.grows Ctfd.quiet (rest a)) ->
            Ctfd.bind (Ctfd.bind (send m e p) k) rest s = (r, s') ->
            exists t,
              Ctfd.log s' =
                Ctfd.log s ++ Ctfd.Sent (request m e p) :: t /\
              forallb Ctfd.quiet t = true).
  { intros m e p k rest Hk Hrest E.
    apply sync_bind_inv in E as [[a [s2 [E1 E2]]]|[x [E1 _]]].
    - apply sync_bind_inv in E1 as [[resp [s1 [Es Ek]]]|[y [_ Hy]]];
        [|discriminate Hy].
      apply send_log in Es as [L _].
      destruct (Hk resp _ _ _ Ek) as [t1 [L1 F1]].
      destruct (Hrest a _ _ _ E2) as [t2 [L2 F2]].
      exists (t1 ++ t2). rewrite L2, L1, L, <- !app_assoc.
      split; [reflexivity|]. rewrite forallb_app, F1, F2. reflexivity.
    - apply sync_bind_inv in E1 as [[resp [s1 [Es Ek]]]|[y [Es _]]].
      + apply send_log in Es as [L _].
        destruct (Hk resp _ _ _ Ek) as [t1 [L1 F1]].
        exists t1. rewrite L1, L, <- app_assoc. split; [reflexivity|exact F1].
      + apply send_log in Es as [L _].
        exists []. split; [exact L | reflexivity]. }
  assert (R : forall a, Ctfd.grows Ctfd.quiet
                (Ctfd.bind (create_flag a (Ctfd.config_flag (Ctfd.config c)))
                   (fun _ =>
                      Ctfd.bind (upload_files a c)
                        (fun _ =>
                           Ctfd.bind
                             (create_hints a
                                (Ctfd.config_hints (Ctfd.config c)))
                             (fun _ => Ctfd.ret a))))).
  { intros a.
    apply grows_bind; [apply quiet_create_flag|]. intros _.
    apply grows_bind; [apply quiet_upload_files|]. intros _.
    apply grows_bind; [apply quiet_create_hints|]. intros _.
    apply grows_ret. }
  unfold Ctfd.deploy_challenge.
  destruct i; cbn [Ctfd.write_request]; intros E;
    (eapply G; [| exact R | exact E]);
    intros a; cbv beta;
    destruct (negb (Ctfd.status_code a =? 200)%Z); quiet_steps.
Qed.

(** *** The dicts *)

Lemma pop_absent k d : Ctfd.get k d = None -> Ctfd.pop k d = d.
Proof.
  induction d as [|[k' v] d IH]; [reflexivity|]. cbn [Ctfd.get Ctfd.pop].
  destruct (String.eqb k k'); [discriminate|]. intros H. now rewrite IH.
Qed.

Lemma get_In k v d : Ctfd.get k d = Some v -> In (k, v) d.
Proof.
  induction d as [|[k' v'] d IH]; [discriminate|]. cbn [Ctfd.get].
  destruct (String.eqb k k') eqn:E.
  - apply String.eqb_eq in E. subst. intros H. inversion H. now left.
  - intros H. right. now apply IH.
Qed.

Lemma get_None k d : Ctfd.get k d = None <-> ~ In k (map fst d).
Proof.
  induction d as [|[k' v'] d IH]; [split; [intros _ []|reflexivity]|].
  cbn [Ctfd.get map fst]. destruct (String.eqb k k') eqn:E.
  - apply String.eqb_eq in E. subst. split; [discriminate|].
    intros H. exfalso. apply H. now left.
  - apply String.eqb_neq in E. rewrite IH. split.
    + intros H [H1|H1]; [congruence | contradiction].
    + intros H H1. apply H. now right.
Qed.

Lemma In_pop key d k v :
  NoDup (map fst d) ->
  (In (k, v) (Ctfd.pop key d) <-> In (k, v) d /\ k <> key).
Proof.
  induction d as [|[k' v'] d IH]; intros Hn.
  - split; [intros [] | intros [[] _]].
  - cbn [Ctfd.pop]. inversion Hn as [|x xs Hx Hd]; subst.
    destruct (String.eqb key k') eqn:E.
    + apply String.eqb_eq in E. subst k'. split.
      * intros H. split; [now right|]. intros ->. apply Hx.
        apply (in_map fst) in H. exact H.
      * intros [[H|H] N]; [inversion H; congruence | exact H].
    + apply String.eqb_neq in E. split.
      * intros [H|H]; [inversion H; subst; split; [now left | congruence]|].
        apply IH in H as [H N]; [|exact Hd]. split; [now right | exact N].
      * intros [[H|H] N]; [now left|]. right. apply IH; auto.
Qed.

Lemma pop_keys key d :
  NoDup (map fst d) -> NoDup (map fst (Ctfd.pop key d)).
Proof.
  induction d as [|[k' v'] d IH]; intros Hn; [constructor|].
  cbn [Ctfd.pop]. inversion Hn as [|x xs Hx Hd]; subst.
  destruct (String.eqb key k'); [exact Hd|].
  cbn [map fst]. constructor; [|apply IH; exact Hd].
  intros H. apply Hx. apply in_map_iff in H as [[k v] [Ek Hk]].
  simpl in Ek. subst k. apply In_pop in Hk as [Hk _]; [|exact Hd].
  apply (in_map fst) in Hk. exact Hk.
Qed.

Lemma set_keys k v d :
  NoDup (map fst d) -> NoDup (map fst (Ctfd.set k v d)).
Proof.
  induction d as [|[k' v'] d IH]; intros Hn.
  - cbn. constructor; [intros []|constructor].
  - cbn [Ctfd.set]. inversion Hn as [|x xs Hx Hd]; subst.
    destruct (String.eqb k k') eqn:E; [exact Hn|].
    apply String.eqb_neq in E. cbn [map fst]. constructor; [|apply IH; exact Hd].
    intros H. apply Hx.
    assert (G : forall l, In k' (map fst (Ctfd.set k v l)) ->
                          In k' (map fst l)).
    { intros l. induction l as [|[k0 v0] l IH0].
      - cbn. intros [H0|[]]. congruence.
      - cbn [Ctfd.set]. destruct (String.eqb k k0); cbn [map fst];
          intros [H0|H0]; [now left | now right | now left |].
        right. now apply IH0. }
    now apply G.
Qed.

Lemma left_over_cons c cs d :
  Ctfd.left_over (c :: cs) d = Ctfd.left_over cs (Ctfd.pop (Ctfd.id c) d).
Proof. reflexivity. Qed.

Lemma In_left_over cs :
  forall d k v,
    NoDup (map fst d) ->
    (In (k, v) (Ctfd.left_over cs d) <->
     In (k, v) d /\ ~ In k (map Ctfd.id cs)).
Proof.
  induction cs as [|c cs IH]; intros d k v Hn.
  - cbn. split; [intros H; split; [exact H | intros []] | intros [H _]; exact H].
  - rewrite left_over_cons, IH by (apply pop_keys; exact Hn).
    rewrite In_pop by exact Hn. cbn [map]. split.
    + intros [[H N] M]. split; [exact H|]. intros [E|E]; [congruence|auto].
    + intros [H M]. split; [split; [exact H|]|].
      * intros ->. apply M. now left.
      * intros E. apply M. now right.
Qed.

Lemma get_each_keys items :
  forall d s d' s',
    get_each items d s = (Ctfd.Ok d', s') ->
    NoDup (map fst d) -> NoDup (map fst d').
Proof.
  induction items as [|x items IH]; intros d s d' s' E Hn.
  - inversion E; subst. exact Hn.
  - cbn [Ctfd.get_each] in E.
    apply sync_bind_inv in E as [[i [s1 [_ E]]]|[e [_ H]]]; [|discriminate H].
    apply sync_bind_inv in E as [[c [s2 [_ E]]]|[e [_ H]]]; [|discriminate H].
    apply IH in E; [exact E|]. apply set_keys. exact Hn.
Qed.

Lemma get_challenges_keys s d s' :
  get_challenges s = (Ctfd.Ok d, s') -> NoDup (map fst d).
Proof.
  unfold Ctfd.get_challenges. intros E.
  apply sync_bind_inv in E as [[r [s1 [_ E]]]|[e [_ H]]]; [|discriminate H].
  apply sync_bind_inv in E as [[j [s2 [_ E]]]|[e [_ H]]]; [|discriminate H].
  apply sync_bind_inv in E as [[l [s3 [_ E]]]|[e [_ H]]]; [|discriminate H].
  apply get_each_keys in E; [exact E | constructor].
Qed.

(** *** The loops of [main] *)

Lemma quiet_parts t :
  forallb Ctfd.quiet t = true ->
  filter Ctfd.is_write t = [] /\
  forallb (fun e => negb (Ctfd.is_delete e) && negb (Ctfd.is_asked e)) t = true.
Proof.
  induction t as [|e t IH]; [split; reflexivity|].
  cbn [forallb filter]. intros H. apply andb_prop in H as [He Ht].
  destruct (IH Ht) as [I1 I2]. unfold Ctfd.quiet in He.
  apply andb_prop in He as [He H3]. apply andb_prop in He as [H1 H2].
  apply negb_true_iff in H1. rewrite H1, H2, H3, I2. split; [exact I1|reflexivity].
Qed.

Lemma write_request_class c i :
  Ctfd.is_write (Ctfd.Sent (write_request c i)) = true /\
  Ctfd.is_delete (Ctfd.Sent (write_request c i)) = false.
Proof. destruct i; split; reflexivity. Qed.

Lemma deploy_each_steps cs :
  forall existing processed s r s',
    deploy_each cs existing processed s = (r, s') ->
    exists t sent rest,
      Ctfd.log s' = Ctfd.log s ++ t /\
      writes cs existing = sent ++ rest /\
      filter Ctfd.is_write t = map Ctfd.Sent sent /\
      forallb (fun e => negb (Ctfd.is_delete e) && negb (Ctfd.is_asked e)) t
        = true /\
      (forall d, r = Ctfd.Ok d ->
                 rest = [] /\ fst d = Ctfd.left_over cs existing).
Proof.
  induction cs as [|c cs IH]; intros existing processed s r s' E.
  - inversion E; subst. exists [], [], []. rewrite app_nil_r.
    split; [reflexivity|]. split; [reflexivity|]. split; [reflexivity|].
    split; [reflexivity|].
    intros d H. inversion H; subst. split; reflexivity.
  - assert (Step : forall i existing',
              Ctfd.left_over cs existing'
                = Ctfd.left_over (c :: cs) existing ->
              Ctfd.bind (deploy_challenge c i)
                (fun c_id =>
                   deploy_each cs existing'
                     (Ctfd.set (Ctfd.id c) c_id processed)) s = (r, s') ->
              exists t sent rest,
                Ctfd.log s' = Ctfd.log s ++ t /\
                write_request c i :: writes cs existing' = sent ++ rest /\
                filter Ctfd.is_write t = map Ctfd.Sent sent /\
                forallb (fun e => negb (Ctfd.is_delete e)
                                  && negb (Ctfd.is_asked e)) t = true /\
                (forall d, r = Ctfd.Ok d ->
                           rest = [] /\
                           fst d = Ctfd.left_over (c :: cs) existing)).
    { intros i existing' Hl E'.
      destruct (write_request_class c i) as [W1 W2].
      apply sync_bind_inv in E' as [[c_id [s1 [E1 E2]]]|[e [E1 ->]]].
      - apply deploy_challenge_steps in E1 as [t1 [L1 F1]].
        destruct (quiet_parts _ F1) as [Q1 Q2].
        destruct (IH _ _ _ _ _ E2) as [t2 [sent [rest [L2 [Hw [Fw [Fq Hr]]]]]]].
        exists ((Ctfd.Sent (write_request c i) :: t1) ++ t2),
               (write_request c i :: sent), rest.
        split; [rewrite L2, L1, <- app_assoc; reflexivity|].
        split; [rewrite Hw; reflexivity|].
        split; [|split].
        + rewrite filter_app. cbn [filter]. rewrite W1, Q1, Fw. reflexivity.
        + rewrite forallb_app. cbn [forallb]. rewrite W2, Q2, Fq. reflexivity.
        + intros d Hd. destruct (Hr d Hd) as [R1 R2].
          split; [exact R1|]. rewrite R2. exact Hl.
      - apply deploy_challenge_steps in E1 as [t1 [L1 F1]].
        destruct (quiet_parts _ F1) as [Q1 Q2].
        exists (Ctfd.Sent (write_request c i) :: t1),
               [write_request c i], (writes cs existing').
        split; [exact L1|]. split; [reflexivity|]. split; [|split].
        + cbn [filter]. rewrite W1, Q1. reflexivity.
        + cbn [forallb]. rewrite W2, Q2. reflexivity.
        + intros d Hd. discriminate Hd. }
    cbn [Ctfd.deploy_each] in E. cbn [Ctfd.writes].
    destruct (Ctfd.get (Ctfd.id c) existing) as [i|] eqn:G.
    + apply (Step i (Ctfd.pop (Ctfd.id c) existing)); [reflexivity | exact E].
    + apply (Step Ctfd.JNull existing); [|exact E].
      rewrite left_over_cons, (pop_absent _ _ G). reflexivity.
Qed.

Lemma input_step i s x s1 :
  Ctfd.input i s = (x, s1) ->
  exists ans,
    Ctfd.log s1 = Ctfd.log s ++ [Ctfd.Asked i ans] /\
    (forall a, x = Ctfd.Ok a -> ans = Some (Line a)).
Proof.
  unfold Ctfd.input. destruct (Ctfd.stdin s) as [|[a|] rest]; intros E;
    inversion E; subst; eexists; (split; [reflexivity|]);
    intros a0 H; inversion H; reflexivity.
Qed.

Lemma delete_each_steps ids :
  forall s r s',
    delete_each ids s = (r, s') ->
    exists t asked rest,
      Ctfd.log s' = Ctfd.log s ++ t /\
      ids = asked ++ rest /\
      flat_map Ctfd.asked_id t = asked /\
      (forall prev, Ctfd.gated prev t) /\
      filter Ctfd.is_write t = [] /\
      (r = Ctfd.Ok tt -> rest = []).
Proof.
  induction ids as [|i ids IH]; intros s r s' E.
  - inversion E; subst. exists [], [], []. rewrite app_nil_r.
    repeat split.
  - cbn [Ctfd.delete_each] in E.
    apply sync_bind_inv in E as [[answer [s1 [E1 E2]]]|[e [E1 ->]]].
    + apply input_step in E1 as [ans [L1 Ha]].
      specialize (Ha answer eq_refl). subst ans.
      destruct (String.eqb (Py.lower answer) "y") eqn:Y; cbn [negb] in E2.
      * apply sync_bind_inv in E2 as [[resp [s2 [E2 E3]]]|[e [E2 ->]]].
        -- apply send_log in E2 as [L2 _].
           destruct (negb (Ctfd.status_code resp =? 200)%Z).
           ++ inversion E3; subst.
              exists [Ctfd.Asked i (Some (Line answer));
                      Ctfd.Sent (request Ctfd.DELETE
                                   (Ctfd.challenges_id i) Ctfd.nothing)],
                     [i], ids.
              split; [rewrite L2, L1, <- app_assoc; reflexivity|].
              split; [reflexivity|]. split; [reflexivity|].
              split; [|split; [reflexivity | discriminate]].
              intros prev. cbn [Ctfd.gated]. split; [discriminate|].
              split; [|exact I]. intros _.
              exists i, answer, Ctfd.nothing, (Ctfd.HEADERS key_at_import).
              repeat split.
              now apply lower_y.
           ++ destruct (IH _ _ _ E3) as [t [asked [rest [L3 [Hi [Hf [Hg [Hw Hr]]]]]]]].
              exists (Ctfd.Asked i (Some (Line answer))
                        :: Ctfd.Sent (request Ctfd.DELETE
                                        (Ctfd.challenges_id i) Ctfd.nothing)
                        :: t),
                     (i :: asked), rest.
              split; [rewrite L3, L2, L1, <- !app_assoc; reflexivity|].
              split; [rewrite Hi; reflexivity|].
              split; [cbn; rewrite Hf; reflexivity|].
              split; [|split; [cbn; exact Hw | exact Hr]].
              intros prev. cbn [Ctfd.gated]. split; [discriminate|].
              split; [|apply Hg]. intros _.
              exists i, answer, Ctfd.nothing, (Ctfd.HEADERS key_at_import).
              repeat split.
              now apply lower_y.
        -- apply send_log in E2 as [L2 _].
           exists [Ctfd.Asked i (Some (Line answer));
                   Ctfd.Sent (request Ctfd.DELETE
                                (Ctfd.challenges_id i) Ctfd.nothing)],
                  [i], ids.
           split; [rewrite L2, L1, <- app_assoc; reflexivity|].
           split; [reflexivity|]. split; [reflexivity|].
           split; [|split; [reflexivity | discriminate]].
           intros prev. cbn [Ctfd.gated]. split; [discriminate|].
           split; [|exact I]. intros _.
           exists i, answer, Ctfd.nothing, (Ctfd.HEADERS key_at_import).
              repeat split.
           now apply lower_y.
      * destruct (IH _ _ _ E2) as [t [asked [rest [L3 [Hi [Hf [Hg [Hw Hr]]]]]]]].
        exists (Ctfd.Asked i (Some (Line answer)) :: t), (i :: asked), rest.
        split; [rewrite L3, L1, <- app_assoc; reflexivity|].
        split; [rewrite Hi; reflexivity|].
        split; [cbn; rewrite Hf; reflexivity|].
        split; [|split; [cbn; exact Hw | exact Hr]].
        intros prev. cbn [Ctfd.gated]. split; [discriminate | apply Hg].
    + apply input_step in E1 as [ans [L1 _]].
      exists [Ctfd.Asked i ans], [i], ids.
      split; [exact L1|]. split; [reflexivity|]. split; [reflexivity|].
      split; [|split; [reflexivity | discriminate]].
      intros prev. cbn [Ctfd.gated]. split; [discriminate | exact I].
Qed.

Lemma steps_eq A (m : Ctfd.C A) s r s' t :
  m s = (r, s') -> Ctfd.log s' = Ctfd.log s ++ t -> Ctfd.steps m s = t.
Proof.
  intros E L. unfold Ctfd.steps. rewrite E. simpl. rewrite L.
  rewrite skipn_app, skipn_all, Nat.sub_diag. reflexivity.
Qed.

Lemma gated_still prev t :
  forallb (fun e => negb (Ctfd.is_delete e) && negb (Ctfd.is_asked e)) t = true ->
  Ctfd.gated prev t /\ flat_map Ctfd.asked_id t = [].
Proof.
  revert prev. induction t as [|e t IH]; intros prev H; [split; constructor|].
  cbn [forallb] in H. apply andb_prop in H as [He Ht].
  apply andb_prop in He as [H1 H2]. apply negb_true_iff in H1, H2.
  destruct (IH (Some e) Ht) as [I1 I2]. split.
  - cbn [Ctfd.gated]. split; [rewrite H1; discriminate | exact I1].
  - cbn [flat_map]. rewrite I2. destruct e; [reflexivity | discriminate H2].
Qed.

Lemma gated_app prev t1 t2 :
  Ctfd.gated prev t1 -> (forall p, Ctfd.gated p t2) ->
  Ctfd.gated prev (t1 ++ t2).
Proof.
  revert prev. induction t1 as [|e t1 IH]; intros prev H1 H2; [apply H2|].
  cbn [app Ctfd.gated] in *. destruct H1 as [H H1].
  split; [exact H | apply IH; assumption].
Qed.

(** The run of [main] once the challenges of the server are read. *)
Lemma sync_steps challenges s existing s1 r s' :
  get_challenges s = (Ctfd.Ok existing, s1) ->
  sync challenges s = (r, s') ->
  exists t2 t3 sent rest asked rest',
    Ctfd.log s' = Ctfd.log s1 ++ t2 ++ t3 /\
    writes challenges existing = sent ++ rest /\
    filter Ctfd.is_write (t2 ++ t3) = map Ctfd.Sent sent /\
    forallb (fun e => negb (Ctfd.is_delete e) && negb (Ctfd.is_asked e)) t2
      = true /\
    (forall prev, Ctfd.gated prev t3) /\
    map snd (Ctfd.left_over challenges existing) = asked ++ rest' /\
    flat_map Ctfd.asked_id t3 = asked /\
    (r = Ctfd.Ok tt -> rest = [] /\ rest' = []).
Proof.
  intros Hg E. unfold Ctfd.main in E. unfold Ctfd.bind at 1 in E.
  rewrite Hg in E.
  apply sync_bind_inv in E as [[d [s2 [E1 E2]]]|[e [E1 ->]]].
  - apply deploy_each_steps in E1
      as [td [sent [rest [Ld [Hw [Fw [Fq Hr]]]]]]].
    destruct (Hr d eq_refl) as [-> Hl].
    apply sync_bind_inv in E2 as [[[] [s3 [E2 E3]]]|[e [E2 ->]]].
    + destruct (quiet_require_each _ _ _ E2) as [tr [Lr Fr]].
      destruct (quiet_parts _ Fr) as [Q1 Q2].
      rewrite Hl in E3.
      apply delete_each_steps in E3
        as [t3 [asked [rest' [L3 [Hi [Hf [Hgt [Hw3 Hr3]]]]]]]].
      exists (td ++ tr), t3, sent, [], asked, rest'.
      split; [rewrite L3, Lr, Ld, <- !app_assoc; reflexivity|].
      split; [exact Hw|].
      split; [rewrite !filter_app, Fw, Q1, Hw3, !app_nil_r; reflexivity|].
      split; [rewrite forallb_app, Fq, Q2; reflexivity|].
      split; [exact Hgt|]. split; [exact Hi|]. split; [exact Hf|].
      intros H. split; [reflexivity | exact (Hr3 H)].
    + destruct (quiet_require_each _ _ _ E2) as [tr [Lr Fr]].
      destruct (quiet_parts _ Fr) as [Q1 Q2].
      exists (td ++ tr), [], sent, [],
             [], (map snd (Ctfd.left_over challenges existing)).
      split; [rewrite Lr, Ld, app_nil_r, <- app_assoc; reflexivity|].
      split; [exact Hw|].
      split; [rewrite app_nil_r, filter_app, Fw, Q1, app_nil_r; reflexivity|].
      split; [rewrite forallb_app, Fq, Q2; reflexivity|].
      split; [intros prev; exact I|]. split; [reflexivity|].
      split; [reflexivity|]. discriminate.
  - apply deploy_each_steps in E1
      as [td [sent [rest [Ld [Hw [Fw [Fq _]]]]]]].
    exists td, [], sent, rest,
           [], (map snd (Ctfd.left_over challenges existing)).
    split; [rewrite Ld, app_nil_r; reflexivity|].
    split; [exact Hw|]. split; [rewrite app_nil_r; exact Fw|].
    split; [exact Fq|].
    split; [intros prev; exact I|]. split; [reflexivity|].
    split; [reflexivity|]. discriminate.
Qed.

(** X22: the creations and updates of a synchronisation are settled
    by the scanned challenges and the ids read from the server, not by
    what the server answers afterwards.  In the order of the scanned
    challenges, a challenge whose id is among the ids read and left
    gets an update of the challenge of the server and takes its id out;
    any other gets a creation.  A run that does not end normally has
    sent a prefix of these requests; one that does has sent them
    all. *)
Theorem X22_creations_and_updates challenges s existing s1 :
  get_challenges s = (Ctfd.Ok existing, s1) ->
  let run := sync challenges in
  exists sent rest,
    writes challenges existing = sent ++ rest /\
    filter Ctfd.is_write (Ctfd.steps run s) = map Ctfd.Sent sent /\
    (fst (run s) = Ctfd.Ok tt -> rest = []).
Proof.
  intros Hg run. destruct (run s) as [r s'] eqn:E.
  destruct (@sync_steps _ s existing s1 _ s' Hg E)
    as [t2 [t3 [sent [rest [asked [rest' [L [Hw [Fw [_ [_ [_ [_ Hr]]]]]]]]]]]]].
  destruct (quiet_get_challenges _ Hg) as [tq [Lq Fq]].
  destruct (@quiet_parts tq Fq) as [Q1 _].
  exists sent, rest. split; [exact Hw|]. split.
  - rewrite (@steps_eq _ run s r s' (tq ++ t2 ++ t3) E)
      by (rewrite L, Lq, <- app_assoc; reflexivity).
    rewrite filter_app, Q1. exact Fw.
  - simpl. intros H. exact (proj1 (Hr H)).
Qed.

(** X23: no challenge of the server is deleted unasked.  Whatever
    the server answers, a deletion of a challenge is sent right after
    the prompt for that very challenge was answered by ["y"] or
    ["Y"].  The challenges asked about are, in order, those read from
    the server whose id is the id of no scanned challenge; the ids
    read are pairwise distinct; a run that ends normally has asked
    about all of them. *)
Theorem X23_deletion_gate challenges s :
  let run := sync challenges in
  Ctfd.gated None (Ctfd.steps run s) /\
  (forall existing s1,
     get_challenges s = (Ctfd.Ok existing, s1) ->
     NoDup (map fst existing) /\
     (forall k v,
        In (k, v) (Ctfd.left_over challenges existing) <->
        In (k, v) existing /\ ~ In k (map Ctfd.id challenges)) /\
     exists asked rest,
       map snd (Ctfd.left_over challenges existing) = asked ++ rest /\
       flat_map Ctfd.asked_id (Ctfd.steps run s) = asked /\
       (fst (run s) = Ctfd.Ok tt -> rest = [])).
Proof.
  intros run. destruct (run s) as [r s'] eqn:E.
  destruct (get_challenges s) as [[existing|e] s1] eqn:Hg.
  - destruct (@sync_steps _ s existing s1 _ s' Hg E)
      as [t2 [t3 [sent [rest [asked [rest' [L [_ [_ [F2 [G3 [Hl [Ha Hr]]]]]]]]]]]]].
    destruct (quiet_get_challenges _ Hg) as [tq [Lq Fq]].
    destruct (@quiet_parts tq Fq) as [_ Q2].
    assert (St : Ctfd.steps run s = (tq ++ t2) ++ t3).
    { apply (@steps_eq _ run s r s' _ E).
      rewrite L, Lq, <- !app_assoc. reflexivity. }
    assert (Fq2 : forallb (fun e => negb (Ctfd.is_delete e)
                                    && negb (Ctfd.is_asked e)) (tq ++ t2)
                  = true).
    { rewrite forallb_app, Q2, F2. reflexivity. }
    destruct (@gated_still None _ Fq2) as [G1 A1].
    split.
    + rewrite St. apply gated_app; [exact G1 | exact G3].
    + intros existing' s1' H. inversion H; subst existing' s1'.
      pose proof (@get_challenges_keys s existing s1 Hg) as Hn.
      split; [exact Hn|]. split; [intros k v; apply In_left_over; exact Hn|].
      exists asked, rest'. split; [exact Hl|]. split.
      * rewrite St, flat_map_app, A1. exact Ha.
      * simpl. intros Hok. exact (proj2 (Hr Hok)).
  - assert (E' : run s = (Ctfd.Raise e, s1)).
    { unfold run, Ctfd.main. unfold Ctfd.bind at 1. rewrite Hg. reflexivity. }
    destruct (quiet_get_challenges _ Hg) as [tq [Lq Fq]].
    destruct (@quiet_parts tq Fq) as [_ Q2].
    destruct (@gated_still None _ Q2) as [G1 _].
    split.
    + rewrite (@steps_eq _ run s _ _ tq E' Lq). exact G1.
    + intros existing s1' H. discriminate H.
Qed.

(** X24: two scanned challenges of one id are not told apart.  When
    the id is among the ids read from the server, the first of the two
    updates the challenge of the server and the second one, the id
    being taken out by then, creates a new challenge: a run that ends
    normally has sent exactly this update and this creation. *)
Theorem X24_same_id_twice c1 c2 s existing s1 i :
  Ctfd.id c1 = Ctfd.id c2 ->
  get_challenges s = (Ctfd.Ok existing, s1) ->
  Ctfd.get (Ctfd.id c1) existing = Some i ->
  i <> Ctfd.JNull ->
  let run := sync [c1; c2] in
  fst (run s) = Ctfd.Ok tt ->
  filter Ctfd.is_write (Ctfd.steps run s) =
    [Ctfd.Sent
       (request Ctfd.PATCH (Ctfd.challenges_id i)
          (Ctfd.challenge_json (Ctfd.pop_state (challenge_body c1))));
     Ctfd.Sent
       (request Ctfd.POST Ctfd.challenges_
          (Ctfd.challenge_json (challenge_body c2)))].
Proof.
  intros Hid Hg Hi Hn run Hok. destruct (run s) as [r s'] eqn:E.
  simpl in Hok. subst r.
  destruct (@sync_steps _ s existing s1 _ s' Hg E)
    as [t2 [t3 [sent [rest [asked [rest' [L [Hw [Fw [_ [_ [_ [_ Hr]]]]]]]]]]]]].
  destruct (Hr eq_refl) as [-> _]. rewrite app_nil_r in Hw.
  destruct (quiet_get_challenges _ Hg) as [tq [Lq Fq]].
  destruct (@quiet_parts tq Fq) as [Q1 _].
  rewrite (@steps_eq _ run s _ s' (tq ++ t2 ++ t3) E)
    by (rewrite L, Lq, <- app_assoc; reflexivity).
  rewrite filter_app, Q1, Fw, <- Hw. cbn [app Ctfd.writes]. rewrite Hi.
  assert (G2 : Ctfd.get (Ctfd.id c2) (Ctfd.pop (Ctfd.id c1) existing) = None).
  { apply get_None. intros H. apply in_map_iff in H as [[k v] [Ek Hk]].
    simpl in Ek. subst k.
    apply In_pop in Hk as [_ N]; [|exact (@get_challenges_keys s existing s1 Hg)].
    congruence. }
  rewrite G2. cbn [map Ctfd.write_request].
  destruct i; [contradiction| | | | |]; reflexivity.
Qed.

(** *** The category shown *)

Lemma rev_string_acc s acc :
  Py.rev_string acc s = (Py.rev_string "" s ++ acc)%string.
Proof.
  revert acc. induction s as [|c s IH]; intros acc; [reflexivity|].
  cbn [Py.rev_string]. rewrite (IH (String c acc)), (IH (String c "")).
  rewrite append_assoc. reflexivity.
Qed.

Lemma split_without s cur :
  Ctfd.without "_" s = true ->
  Py.split_from "_" 0 cur s = [(Py.rev_string "" cur ++ s)%string].
Proof.
  revert cur. induction s as [|c s IH]; intros cur H.
  - cbn [Py.split_from]. f_equal.
    induction (Py.rev_string "" cur) as [|x r IHr]; [reflexivity|].
    cbn [append]. now rewrite <- IHr.
  - unfold Ctfd.without in H. cbn [Scan.all_chars] in H.
    apply andb_prop in H as [Hc Hs]. apply negb_true_iff in Hc.
    apply Ascii.eqb_neq in Hc.
    cbn [Py.split_from].
    assert (P : String.prefix "_" (String c s) = false).
    { cbn [String.prefix]. destruct (ascii_dec "_" c) as [E|N]; [|reflexivity].
      exfalso. apply Hc. now symmetry. }
    rewrite P. rewrite (IH (String c cur) Hs). f_equal.
    cbn [Py.rev_string]. rewrite (rev_string_acc cur (String c "")).
    rewrite append_assoc. reflexivity.
Qed.

Lemma replace_without s x :
  Ctfd.without "_" s = true -> Ctfd.replace s "_" x = s.
Proof.
  intros H. unfold Ctfd.replace, Py.split. rewrite (@split_without s "" H).
  reflexivity.
Qed.

Lemma title_char (b : bool) c :
  Scan.is_name_char c = true ->
  negb (Ascii.eqb (if b then Py.lower_ascii c else Ctfd.upper_ascii c) "_")
    = true.
Proof.
  destruct b; destruct c as [[] [] [] [] [] [] [] []]; vm_compute;
    intros H; first [reflexivity | discriminate H].
Qed.

Lemma title_without s b :
  Scan.all_chars Scan.is_name_char s = true ->
  Ctfd.without "_" (Ctfd.title_from b s) = true.
Proof.
  revert b. induction s as [|c s IH]; intros b H; [reflexivity|].
  cbn [Scan.all_chars] in H. apply andb_prop in H as [Hc Hs].
  unfold Ctfd.without. cbn [Ctfd.title_from Scan.all_chars].
  rewrite (@title_char b c Hc). apply IH. exact Hs.
Qed.

(** X21: the category shown for a scanned challenge.  The scanner has
    already turned every underscore of the names of the category and of
    the subcategory into a dash, so that the replacement of underscores
    by spaces in [deploy_challenge] finds none: the category sent is
    the two names in title case around [" - "], with their dashes. *)
Theorem X21_category_keeps_its_dashes
  (os_path_abspath : string -> string) cf cat sub ch config :
  let c :=
    Ctfd.mkConfigured (Scan.challenge_of os_path_abspath cf cat sub ch)
      config in
  Ctfd.body_category (challenge_body c) =
    (Ctfd.title (Scanner.category (Ctfd.challenge c)) ++ " - "
       ++ Ctfd.title (Scanner.subcategory (Ctfd.challenge c)))%string /\
  Ctfd.without "_" (Ctfd.body_category (challenge_body c)) = true.
Proof.
  intros c.
  assert (W : Ctfd.without "_"
                (Ctfd.title (Scanner.category (Ctfd.challenge c)) ++ " - "
                   ++ Ctfd.title (Scanner.subcategory (Ctfd.challenge c)))
              = true).
  { unfold Ctfd.without. rewrite !all_chars_app.
    fold (Ctfd.without "_" (Ctfd.title (Scanner.category (Ctfd.challenge c)))).
    fold (Ctfd.without "_"
            (Ctfd.title (Scanner.subcategory (Ctfd.challenge c)))).
    unfold Ctfd.title.
    rewrite !title_without by apply normalise_chars. reflexivity. }
  assert (E : Ctfd.body_category (challenge_body c) =
              (Ctfd.title (Scanner.category (Ctfd.challenge c)) ++ " - "
                 ++ Ctfd.title (Scanner.subcategory (Ctfd.challenge c)))%string).
  { unfold Ctfd.challenge_body. cbn [Ctfd.body_category].
    apply replace_without. exact W. }
  split; [exact E|]. rewrite E. exact W.
Qed.

End CtfdFacts.

(** ** The key of the requests *)

Section KeyFacts.

Set Default Proof Using "Type".

Variable server : list Ctfd.Step -> Ctfd.Request -> Ctfd.Served.
Variable CHALLENGES_HOST : string.
Variable can_open : string -> bool.
Variable key_at_import : string.

Local Abbreviation send := (Ctfd.send server key_at_import).
Local Abbreviation carries := (Ctfd.carries key_at_import).

Lemma carries_send k m e p :
  Ctfd.is_upload (Ctfd.request key_at_import m e p) = false ->
  Ctfd.grows (carries k) (send m e p).
Proof.
  intros U. apply grows_send. unfold Ctfd.carries. rewrite U.
  apply String.eqb_refl.
Qed.

Lemma carries_input k i : Ctfd.grows (carries k) (Ctfd.input i).
Proof.
  intros s r s' E. apply input_step in E as [ans [L _]].
  exists [Ctfd.Asked i ans]. split; [exact L | reflexivity].
Qed.

Ltac key_steps :=
  repeat first
    [ apply grows_ret | apply grows_raise | apply grows_lift
    | apply grows_data
    | apply carries_send; reflexivity
    | apply grows_bind; [|intro] ].

Lemma carries_post_hints k i hints prev :
  Ctfd.grows (carries k) (Ctfd.post_hints server key_at_import i hints prev).
Proof.
  revert prev. induction hints as [|h hints IH]; intros prev;
    cbn [Ctfd.post_hints]; [apply grows_ret|].
  apply grows_bind; [apply carries_send; reflexivity|]. intros r.
  destruct (negb (Ctfd.status_code r =? 200)%Z); [apply grows_raise|].
  apply grows_bind; [apply grows_data|]. intros d.
  apply grows_bind; [apply grows_lift|]. intros i0. apply IH.
Qed.

Lemma carries_create_hints k i hints :
  Ctfd.grows (carries k) (Ctfd.create_hints server key_at_import i hints).
Proof.
  unfold Ctfd.create_hints.
  apply grows_bind; [apply carries_send; reflexivity|]. intros r.
  apply grows_bind; [apply grows_data|]. intros d.
  apply grows_bind; [apply grows_lift|]. intros n.
  destruct (0 <? n)%nat; [apply grows_ret | apply carries_post_hints].
Qed.

Lemma carries_create_flag k i flag :
  Ctfd.grows (carries k) (Ctfd.create_flag server key_at_import i flag).
Proof.
  unfold Ctfd.create_flag.
  apply grows_bind; [apply carries_send; reflexivity|]. intros r.
  apply grows_bind; [apply grows_data|]. intros flags.
  apply grows_bind; [apply grows_lift|]. intros n.
  destruct (n =? 0)%nat; [key_steps|].
  apply grows_bind; [apply grows_lift|]. intros f.
  apply grows_bind; [apply grows_lift|]. intros current.
  destruct current as [|b|z|x|l|o]; try (key_steps; fail).
  destruct (String.eqb x flag); key_steps.
Qed.

Lemma carries_delete_files k files :
  Ctfd.grows (carries k) (Ctfd.delete_files server key_at_import files).
Proof.
  induction files as [|f files IH]; cbn [Ctfd.delete_files];
    [apply grows_ret|].
  apply grows_bind; [apply grows_lift|]. intros i.
  apply grows_bind; [apply carries_send; reflexivity|]. intros _. exact IH.
Qed.

(** The uploads are the requests that carry the key of the run. *)
Lemma carries_post_files k i path public :
  Ctfd.grows (carries k) (Ctfd.post_files server can_open k i path public).
Proof.
  induction public as [|f public IH]; cbn [Ctfd.post_files];
    [apply grows_ret|].
  destruct (can_open (Scan.join path [f])); [|apply grows_raise].
  apply grows_bind; [|intros _; exact IH].
  apply grows_send_with. unfold Ctfd.carries.
  cbn [Ctfd.is_upload Ctfd.payload Ctfd.headers Ctfd.Authorization].
  apply String.eqb_refl.
Qed.

Lemma carries_upload_files k i c :
  Ctfd.grows (carries k)
    (Ctfd.upload_files server can_open key_at_import k i c).
Proof.
  unfold Ctfd.upload_files.
  apply grows_bind; [apply carries_send; reflexivity|]. intros r.
  apply grows_bind; [apply grows_data|]. intros files.
  apply grows_bind; [apply grows_lift|]. intros items.
  apply grows_bind; [apply carries_delete_files|]. intros _.
  destruct (Ctfd.config_public (Ctfd.config c));
    [apply carries_post_files | apply grows_ret].
Qed.

Lemma carries_deploy_challenge k c i :
  Ctfd.grows (carries k)
    (Ctfd.deploy_challenge server CHALLENGES_HOST can_open key_at_import k
       c i).
Proof.
  unfold Ctfd.deploy_challenge. cbv zeta.
  apply grows_bind.
  - destruct i as [|b|z|x|l|o];
      (apply grows_bind; [apply carries_send; reflexivity|]; intros r;
       destruct (negb (Ctfd.status_code r =? 200)%Z); key_steps).
  - intros j.
    apply grows_bind; [apply carries_create_flag|]. intros _.
    apply grows_bind; [apply carries_upload_files|]. intros _.
    apply grows_bind; [apply carries_create_hints|]. intros _.
    apply grows_ret.
Qed.

Lemma carries_get_challenge k i :
  Ctfd.grows (carries k) (Ctfd.get_challenge server key_at_import i).
Proof.
  unfold Ctfd.get_challenge.
  apply grows_bind; [apply carries_send; reflexivity|]. intros r.
  apply grows_bind; [apply grows_data|]. intros chall.
  apply grows_bind; [apply grows_lift|]. intros d.
  destruct d as [|b|z|x|l|o]; try apply grows_raise.
  destruct (Ctfd.search x); [key_steps | apply grows_raise].
Qed.

Lemma carries_get_each k items d :
  Ctfd.grows (carries k) (Ctfd.get_each server key_at_import items d).
Proof.
  revert d. induction items as [|x items IH]; intros d; cbn [Ctfd.get_each];
    [apply grows_ret|].
  apply grows_bind; [apply grows_lift|]. intros i.
  apply grows_bind; [apply carries_get_challenge|]. intros c. apply IH.
Qed.

Lemma carries_get_challenges k :
  Ctfd.grows (carries k) (Ctfd.get_challenges server key_at_import).
Proof.
  unfold Ctfd.get_challenges.
  apply grows_bind; [apply carries_send; reflexivity|]. intros r.
  apply grows_bind; [apply grows_data|]. intros d.
  apply grows_bind; [apply grows_lift|]. intros items.
  apply carries_get_each.
Qed.

Lemma carries_deploy_each k challenges :
  forall existing processed,
    Ctfd.grows (carries k)
      (Ctfd.deploy_each server CHALLENGES_HOST can_open key_at_import k
         challenges existing processed).
Proof.
  induction challenges as [|c cs IH]; intros existing processed;
    cbn [Ctfd.deploy_each]; [apply grows_ret|].
  destruct (Ctfd.get (Ctfd.id c) existing);
    (apply grows_bind; [apply carries_deploy_challenge|]; intros c_id;
     apply IH).
Qed.

Lemma carries_require_each k challenges processed :
  Ctfd.grows (carries k)
    (Ctfd.require_each server key_at_import challenges processed).
Proof.
  induction challenges as [|c cs IH]; cbn [Ctfd.require_each];
    [apply grows_ret|].
  apply grows_bind; [|intros _; exact IH].
  destruct (Ctfd.config_requires (Ctfd.config c)); [|apply grows_ret].
  destruct (Ctfd.get (Ctfd.id c) processed); [|apply grows_raise].
  unfold Ctfd.set_requirement. key_steps.
Qed.

Lemma carries_delete_each k ids :
  Ctfd.grows (carries k) (Ctfd.delete_each server key_at_import ids).
Proof.
  induction ids as [|i ids IH]; cbn [Ctfd.delete_each]; [apply grows_ret|].
  apply grows_bind; [apply carries_input|]. intros answer.
  destruct (negb (Py.lower answer =? "y")%string); [exact IH|].
  apply grows_bind; [apply carries_send; reflexivity|]. intros r.
  destruct (negb (Ctfd.status_code r =? 200)%Z);
    [apply grows_raise | exact IH].
Qed.

(** X25.  The option [--key] reaches the uploads only.  [HEADERS] is
    built when the module is loaded, from the key of the environment;
    the block under [__main__] rebinds [CTFD_API_KEY] afterwards, and
    [upload_files] alone formats its token from that global when it
    runs.  So, in every run of [main], whatever the server answers and
    whatever [--key] gives, the upload of a file carries the key in use
    after the arguments are read, and every other request carries the
    key of the environment. *)
Theorem X25_key_option_reaches_uploads_only
  (args_key : option string) challenges s :
  let key := Ctfd.key_after_arguments key_at_import args_key in
  let run :=
    Ctfd.main server CHALLENGES_HOST can_open key_at_import key challenges in
  forallb (Ctfd.carries key_at_import key) (Ctfd.steps run s) = true.
Proof.
  intros key run.
  assert (G : Ctfd.grows (carries key) run).
  { unfold run, Ctfd.main.
    apply grows_bind; [apply carries_get_challenges|]. intros existing.
    apply grows_bind; [apply carries_deploy_each|]. intros d.
    apply grows_bind; [apply carries_require_each|]. intros _.
    apply carries_delete_each. }
  destruct (run s) as [r s'] eqn:E.
  destruct (G _ _ _ E) as [t [L F]].
  rewrite (@steps_eq unit run s r s' t E L). exact F.
Qed.

End KeyFacts.

(** ** The command line *)

Section ScriptFacts.

Set Default Proof Using "Type".

Variable api_fails : Client -> ApiCall -> bool.
Variable os_path_exists : string -> bool.
Variable docker_images_before docker_images_after : string.
Variable os_listdir : string -> option (list string).
Variable os_path_isdir : string -> bool.
Variable script_dir : string.
Variable os_path_abspath : string -> string.
Variable load_config : string -> Scan.ConfigLoad.

Local Abbreviation the_script :=
  (script api_fails os_path_exists docker_images_before docker_images_after
     os_listdir os_path_isdir script_dir os_path_abspath load_config).
Local Abbreviation the_scan :=
  (scan_challenges os_listdir os_path_isdir script_dir os_path_abspath
     load_config).
Local Abbreviation the_main :=
  (main api_fails os_path_exists docker_images_before docker_images_after).
Local Abbreviation the_clean := (clean_cluster api_fails).
Local Abbreviation valid_tree :=
  (Scan.valid_tree os_listdir os_path_isdir load_config).
Local Abbreviation challenges_of :=
  (Scan.challenges_of os_listdir os_path_isdir os_path_abspath).

Lemma reply_line w a rest :
  stdin w = Line a :: rest ->
  reply w = (Ok a, mkWorld (cluster w) (trace w) rest).
Proof. intros H. unfold reply. rewrite H. reflexivity. Qed.

Lemma reply_frame w r w' :
  reply w = (r, w') -> cluster w' = cluster w /\ trace w' = trace w.
Proof.
  unfold reply. destruct (stdin w) as [|[s|] rest]; intros E;
    inversion E; subst; split; reflexivity.
Qed.

(** X16: with [--clean] the script asks once and ends in
    [sys.exit(0)] or in an exception, never at its last line.  On an
    answer other than ["y"] and ["Y"] it sends no call and leaves the
    cluster as it was.  Whatever the answer and whatever the server
    does, neither the scanner nor [main] runs: the other arguments are
    not read, no object is created or replaced, no shell command is
    run, no prompt of a run is shown, and the pods and the autoscalers
    stay as they were. *)
Theorem X16_clean_option args w a rest :
  args_clean args = true ->
  stdin w = Line a :: rest ->
  let r := the_script args w in
  asked r = [SureToDelete] /\
  ending r <> Completed /\
  (a <> "y" -> a <> "Y" ->
   ending r = SysExit 0 /\
   cluster (world r) = cluster w /\ trace (world r) = trace w) /\
  (exists t,
     trace (world r) = trace w ++ t /\
     Forall (fun e => is_apply e = false /\ is_shell e = false /\
                      on_pods e = false /\ forall p, e <> EvInput p) t) /\
  pods (cluster (world r)) = pods (cluster w) /\
  autoscalers (cluster (world r)) = autoscalers (cluster w) /\
  (forall args', args_clean args' = true -> the_script args' w = r).
Proof.
  intros Hc Hs r.
  set (P := fun e => is_apply e = false /\ is_shell e = false /\
                     on_pods e = false /\ forall p, e <> EvInput p).
  set (K := fun k => match k with
                     | Pods | Autoscalers => true
                     | _ => false
                     end).
  assert (Hk : keeps P K the_clean).
  { apply keeps_clean_cluster; try reflexivity;
      try (intros n); repeat split; discriminate. }
  set (w0 := mkWorld (cluster w) (trace w) rest).
  set (r0 := if negb (String.eqb (Py.lower a) "y")
             then mkScriptRun [SureToDelete] (SysExit 0) w0
             else match the_clean w0 with
                  | (Ok _, w'') => mkScriptRun [SureToDelete] (SysExit 0) w''
                  | (Raise e, w'') =>
                      mkScriptRun [SureToDelete] (Uncaught e) w''
                  end).
  assert (E : forall args', args_clean args' = true -> the_script args' w = r0).
  { intros args' Hc'. unfold script. rewrite Hc', (reply_line _ Hs).
    reflexivity. }
  assert (Er : r = r0) by (apply E; exact Hc).
  rewrite Er. clear Er r.
  assert (F : asked r0 = [SureToDelete] /\ ending r0 <> Completed /\
              (exists t, trace (world r0) = trace w ++ t /\ Forall P t) /\
              pods (cluster (world r0)) = pods (cluster w) /\
              autoscalers (cluster (world r0)) = autoscalers (cluster w)).
  { unfold r0. destruct (negb (String.eqb (Py.lower a) "y")).
    - simpl. repeat split; try discriminate.
      exists []. rewrite app_nil_r. split; [reflexivity | constructor].
    - destruct (the_clean w0) as [res w''] eqn:Ec.
      destruct (Hk _ _ _ Ec) as [[t [Et Ft]] Fr].
      assert (G : asked (match res with
                         | Ok _ => mkScriptRun [SureToDelete] (SysExit 0) w''
                         | Raise e =>
                             mkScriptRun [SureToDelete] (Uncaught e) w''
                         end) = [SureToDelete] /\
                  ending (match res with
                          | Ok _ => mkScriptRun [SureToDelete] (SysExit 0) w''
                          | Raise e =>
                              mkScriptRun [SureToDelete] (Uncaught e) w''
                          end) <> Completed /\
                  world (match res with
                         | Ok _ => mkScriptRun [SureToDelete] (SysExit 0) w''
                         | Raise e =>
                             mkScriptRun [SureToDelete] (Uncaught e) w''
                         end) = w'').
      { destruct res; simpl; repeat split; discriminate. }
      destruct G as [G1 [G2 G3]]. rewrite G3.
      split; [exact G1|]. split; [exact G2|]. split; [|split].
      + exists t. split; [exact Et | exact Ft].
      + exact (Fr Pods eq_refl).
      + exact (Fr Autoscalers eq_refl). }
  destruct F as [F1 [F2 [F3 [F4 F5]]]].
  split; [exact F1|]. split; [exact F2|]. split; [|split; [exact F3|]].
  - intros N1 N2. unfold r0.
    destruct (String.eqb (Py.lower a) "y") eqn:Ey.
    + apply lower_y in Ey. destruct Ey; contradiction.
    + simpl. repeat split.
  - split; [exact F4|]. split; [exact F5 | exact E].
Qed.

(** X17: the scanner runs before anything is sent.  When the tree
    of the folder given (or of the default folder) is not valid, the
    script ends without a call to the server, a shell command or a
    prompt of a run, and leaves the cluster as it was; it does not end
    at its last line; and when the reply to its own prompt is a line,
    every listing succeeds and every loading of a configuration ends
    in a configuration or in one of the two exceptions caught, it ends
    in [sys.exit(1)]. *)
Theorem X17_invalid_tree_changes_nothing args w :
  args_clean args = false ->
  let folder := match args_challenges args with
                | None => Scan.CALLENGES_FOLDER
                | Some challenges => os_path_abspath challenges
                end in
  valid_tree (Scan.join script_dir [folder]) = false ->
  let r := the_script args w in
  cluster (world r) = cluster w /\ trace (world r) = trace w /\
  ending r <> Completed /\
  ((args_challenges args = None \/ exists a rest, stdin w = Line a :: rest) ->
   (forall p, os_listdir p <> None) ->
   (forall p, load_config p <> Scan.OtherError) ->
   ending r = SysExit 1).
Proof.
  intros Hc folder V r.
  pose proof (main_cases os_listdir os_path_isdir script_dir os_path_abspath
                load_config folder) as C.
  cbv zeta in C. rewrite V in C.
  assert (S : forall shown w0,
            let r0 := scan_and_run api_fails os_path_exists
                        docker_images_before docker_images_after os_listdir
                        os_path_isdir script_dir os_path_abspath load_config
                        args shown folder w0 in
            world r0 = w0 /\ ending r0 <> Completed /\
            ((forall p, os_listdir p <> None) ->
             (forall p, load_config p <> Scan.OtherError) ->
             ending r0 = SysExit 1)).
  { intros shown w0. unfold scan_and_run, scan_challenges.
    destruct (Scan.main os_listdir os_path_isdir script_dir os_path_abspath
                load_config folder) as [challs|e].
    - destruct C as [C _]. discriminate.
    - destruct C as [_ A]. destruct e as [code| |]; simpl.
      + split; [reflexivity|]. split; [discriminate|]. intros _ _.
        destruct A as [A|[[A _]|[A _]]]; try discriminate.
        inversion A. reflexivity.
      + split; [reflexivity|]. split; [discriminate|]. intros Hl _.
        destruct A as [A|[[A _]|[_ [p Hp]]]]; try discriminate.
        destruct (Hl p Hp).
      + split; [reflexivity|]. split; [discriminate|]. intros _ Hl.
        destruct A as [A|[[_ [p Hp]]|[A _]]]; try discriminate.
        destruct (Hl p Hp). }
  unfold r, script. rewrite Hc. unfold folder in S.
  destruct (args_challenges args) as [path|].
  - destruct (reply w) as [[answer|e] w'] eqn:Er.
    + destruct (reply_frame _ Er) as [R1 R2].
      destruct (S [ScanningIn (os_path_abspath path)] w') as [S1 [S2 S3]].
      rewrite S1. split; [exact R1|]. split; [exact R2|].
      split; [exact S2|]. intros _. exact S3.
    + destruct (reply_frame _ Er) as [R1 R2]. simpl.
      split; [exact R1|]. split; [exact R2|]. split; [discriminate|].
      intros [N|[a [rest Hs]]]; [discriminate|].
      rewrite (reply_line _ Hs) in Er. discriminate.
  - destruct (S [] w) as [S1 [S2 S3]]. rewrite S1.
    split; [reflexivity|]. split; [reflexivity|]. split; [exact S2|].
    intros _. exact S3.
Qed.

(** X18: from the folders to the cluster.  On a valid tree whose
    challenges with a Dockerfile have ids of their own, with a server
    that fails no call, no two stored deployments and no two stored
    services of one name, no autoscaler, the build off and every batch
    approved, the script ends at its last line and leaves a settled
    cluster for the challenges of the tree: the manifests of each of
    them with a Dockerfile are in place, and every deployment and
    service of the namespace is one of theirs. *)
Theorem X18_script_settles args w a0 a rest :
  args_clean args = false -> args_build args = false ->
  let folder := match args_challenges args with
                | None => Scan.CALLENGES_FOLDER
                | Some challenges => os_path_abspath challenges
                end in
  let cf := Scan.join script_dir [folder] in
  valid_tree cf = true ->
  no_faults api_fails ->
  NoDup (map Scanner.id
           (filter (has_dockerfile os_path_exists) (challenges_of cf))) ->
  NoDup (map res_name (deployments (cluster w))) ->
  NoDup (map res_name (services (cluster w))) ->
  autoscalers (cluster w) = [] ->
  stdin w =
    match args_challenges args with
    | None => []
    | Some _ => [Line a0]
    end ++ Line a :: Line "y" :: Line "y" :: rest ->
  let r := the_script args w in
  ending r = Completed /\
  settled os_path_exists (challenges_of cf) (cluster (world r)).
Proof.
  intros Hc Hb folder cf V Hf Hids Hnd Hns Hna Hs r.
  pose proof (main_cases os_listdir os_path_isdir script_dir os_path_abspath
                load_config folder) as C.
  cbv zeta in C. fold cf in C. rewrite V in C.
  assert (S : forall shown w0,
            cluster w0 = cluster w ->
            stdin w0 = Line a :: Line "y" :: Line "y" :: rest ->
            let r0 := scan_and_run api_fails os_path_exists
                        docker_images_before docker_images_after os_listdir
                        os_path_isdir script_dir os_path_abspath load_config
                        args shown folder w0 in
            ending r0 = Completed /\
            settled os_path_exists (challenges_of cf) (cluster (world r0))).
  { intros shown w0 Ec Es. unfold scan_and_run, scan_challenges.
    destruct (Scan.main os_listdir os_path_isdir script_dir os_path_abspath
                load_config folder) as [challs|e].
    - destruct C as [_ ->]. rewrite Hb.
      rewrite <- Ec in Hnd, Hns, Hna.
      destruct (@first_run_settles api_fails os_path_exists
                  docker_images_before docker_images_after
                  (challenges_of cf) w0 a rest Hf Hids Hnd Hns Hna Es)
        as [R1 R2].
      change (the_main (challenges_of cf) false (args_ignore_existing args) w0)
        with (the_main (challenges_of cf) false false w0).
      destruct (the_main (challenges_of cf) false false w0) as [res w'].
      simpl in R1, R2. subst res. simpl. split; [reflexivity | exact R2].
    - destruct C as [C _]. discriminate. }
  unfold r, script. rewrite Hc. unfold folder, cf in S.
  destruct (args_challenges args) as [path|].
  - simpl app in Hs. rewrite (reply_line _ Hs).
    apply S; reflexivity.
  - simpl app in Hs. apply S; [reflexivity | exact Hs].
Qed.

End ScriptFacts.

(** ** The statements at the sample inputs *)



(** C3 as stated fails: in this run the eviction of the pod is issued
    before the deletion of the stale deployment, and before the
    creations. *)
Lemma C3_eviction_before_deletion :
  ~ precedes is_deletion is_eviction
      (events (main Sample.no_api_failure Sample.every_path_exists
                 Sample.images_AAA Sample.images_BBB
                 [Sample.web_01_ctf] true false) Sample.world_rebuild).
Proof.
  intros H.
  assert (L : (14 < 7)%nat).
  { apply (H 14%nat 7%nat
             (EvApi apps_v1 (delete_namespaced Deployments "handmade"))
             (EvApi core_v1 (delete_namespaced Pods "web-01-ctf-7d9f")));
      vm_compute; reflexivity. }
  lia.
Qed.

Lemma C9_first_container_only_witness :
  In Sample.proxied_pod (filter managed (pods (cluster Sample.world_pods))) /\
  NoDup (map res_name (pods (cluster Sample.world_pods))) /\
  In "registry.local:5000/web-01-ctf"
     (map image (spec_containers Sample.proxied_pod)) /\
  Forall (fun e =>
            match e with
            | EvInput (ConfirmDelete _ names) =>
                ~ In (res_name Sample.proxied_pod) names
            | EvApi _ (delete_namespaced Pods n) =>
                n <> res_name Sample.proxied_pod
            | _ => True
            end)
    (events (update_pods Sample.no_api_failure
               ["registry.local:5000/web-01-ctf"]) Sample.world_pods).
Proof.
  assert (Hin : In Sample.proxied_pod
                  (filter managed (pods (cluster Sample.world_pods))))
    by (vm_compute; tauto).
  assert (Hnd : NoDup (map res_name (pods (cluster Sample.world_pods)))).
  { repeat constructor; simpl; intuition discriminate. }
  split; [exact Hin|]. split; [exact Hnd|]. split; [vm_compute; tauto|].
  apply (C9_first_container_only Sample.no_api_failure
           ["registry.local:5000/web-01-ctf"] Sample.world_pods
           Sample.proxied_pod Hin Hnd eq_refl).
  simpl. intros [H|[]]. discriminate H.
Defined.

Lemma C8_autoscaler_delete_raises_witness :
  let w := mkWorld (cluster Sample.world_hpa) [] [Line "y"] in
  Sample.no_api_failure autoscaling_v1 (list_namespaced Autoscalers None)
    = false /\
  names_to_delete (autoscalers (cluster w)) [] = ["old-hpa"] /\
  delete_hpas Sample.no_api_failure (mkDeployed [] [] []) w =
    (Raise (AttributeError core_v1 (delete_namespaced Autoscalers "old-hpa")),
     mkWorld (cluster w)
       [EvApi autoscaling_v1 (list_namespaced Autoscalers None);
        EvInput (ConfirmDelete "HorizontalPodAutoscalers" ["old-hpa"])]
       []).
Proof.
  intros w. split; [reflexivity|]. split; [reflexivity|].
  exact (proj1 (C8_autoscaler_delete_raises Sample.no_api_failure
                  Sample.every_path_exists "" "" (mkDeployed [] [] []) w
                  eq_refl eq_refl eq_refl (or_introl eq_refl))).
Defined.

(** C7 at an approved batch of autoscalers: the operator answers ["y"],
    no deletion is issued and the run ends in an exception. *)
Lemma C7_approved_autoscaler_batch :
  main Sample.no_api_failure Sample.every_path_exists "" ""
    [] false false Sample.world_hpa =
    (Raise (AttributeError core_v1 (delete_namespaced Autoscalers "old-hpa")),
     mkWorld (cluster Sample.world_hpa)
       [EvInput PressEnter;
        EvApi apps_v1 (list_namespaced Deployments None);
        EvApi core_v1 (list_namespaced Services None);
        EvApi autoscaling_v1 (list_namespaced Autoscalers None);
        EvInput (ConfirmDelete "HorizontalPodAutoscalers" ["old-hpa"])]
       []).
Proof. vm_compute. reflexivity. Qed.

Lemma sample_no_faults : no_faults Sample.no_api_failure.
Proof. intros cl c. reflexivity. Qed.

(** C2 as stated fails: the second of two runs in a row replaces the
    deployment and the service of the challenge. *)
Lemma C2_second_run_replaces :
  let run := main Sample.no_api_failure Sample.every_path_exists "" ""
               [Sample.web_01_ctf] false false in
  fst (run Sample.world_empty) = Ok tt /\
  cluster (snd (run Sample.world_empty)) = cluster Sample.world_second /\
  filter is_mutation (events run Sample.world_second)
  = [EvApi apps_v1
       (replace_namespaced Deployments "web-01-ctf"
          (deployment_manifest Sample.web_01_ctf));
     EvApi core_v1
       (replace_namespaced Services "web-01-ctf"
          (service_manifest Sample.web_01_ctf))].
Proof. intros run. repeat split; vm_compute; reflexivity. Qed.

Lemma sample_settled :
  settled Sample.every_path_exists [Sample.web_01_ctf] (cluster Sample.world_second).
Proof.
  assert (P : forall (b : Resource),
            in_place b [b]).
  { intros b. split.
    - unfold present. simpl. unfold named. rewrite String.eqb_refl. reflexivity.
    - intros r [<-|[]] _. reflexivity. }
  split; [|split; [|split]].
  - intros ch [<-|[]] _. split; apply P.
  - intros r [<-|[]]. exists Sample.web_01_ctf.
    split; [left; reflexivity|]. split; reflexivity.
  - intros r [<-|[]]. exists Sample.web_01_ctf.
    split; [left; reflexivity|]. split; reflexivity.
  - reflexivity.
Qed.

Lemma C2_second_run_witness :
  no_faults Sample.no_api_failure /\
  settled Sample.every_path_exists [Sample.web_01_ctf] (cluster Sample.world_second) /\
  stdin Sample.world_second = [Line ""] /\
  let run := main Sample.no_api_failure Sample.every_path_exists "" ""
               [Sample.web_01_ctf] false false in
  fst (run Sample.world_second) = Ok tt /\
  cluster (snd (run Sample.world_second)) = cluster Sample.world_second /\
  filter is_mutation (events run Sample.world_second)
    = replacements Sample.every_path_exists [Sample.web_01_ctf] /\
  filter is_proposal (events run Sample.world_second) = [].
Proof.
  split; [exact sample_no_faults|]. split; [exact sample_settled|].
  split; [reflexivity|].
  apply (@C2_second_run Sample.no_api_failure Sample.every_path_exists "" ""
           [Sample.web_01_ctf] false Sample.world_second "" []
           sample_no_faults sample_settled).
  - discriminate.
  - reflexivity.
Defined.



Lemma C5_ignore_existing_raises_witness :
  existsb (has_dockerfile Sample.every_path_exists) [Sample.web_01_ctf]
    = true /\
  exists e,
    build_and_push_images Sample.no_api_failure Sample.every_path_exists
      Sample.images_AAA Sample.images_AAA [Sample.web_01_ctf] true
      Sample.world_rebuild
    = (Raise e, logged (EvShell DOCKER_IMAGES) Sample.world_rebuild) /\
    (e = NameError "images_repositories" \/ e = ValueError).
Proof.
  split; [reflexivity|].
  apply (@C5_ignore_existing_raises Sample.no_api_failure
           Sample.every_path_exists Sample.images_AAA Sample.images_AAA
           [Sample.web_01_ctf] Sample.world_rebuild).
  reflexivity.
Defined.

(** C5 at an image that is already in the registry: the run with
    [--build --ignore-existing] ends in [NameError] with nothing built,
    pushed or deployed. *)
Lemma C5_existing_image_run :
  main Sample.no_api_failure Sample.every_path_exists
    Sample.images_AAA Sample.images_AAA
    [Sample.web_01_ctf] true true Sample.world_rebuild
  = (Raise (NameError "images_repositories"),
     mkWorld (cluster Sample.world_rebuild)
       [EvInput PressEnter; EvShell DOCKER_IMAGES]
       [Line "y"; Line "y"]).
Proof. vm_compute. reflexivity. Qed.

(** C6 as stated fails.  With the same listing before the build and
    after the push no digest changed, and the pod of the workload is
    proposed for restart and evicted.  With a changed digest and a
    managed pod that runs the image in its second container, no pod is
    proposed. *)
Lemma C6_unchanged_digest_restarted :
  let run :=
    main Sample.no_api_failure Sample.every_path_exists
      Sample.images_two Sample.images_two
      [Sample.web_01_ctf] true false Sample.world_rebuild in
  let run_proxied :=
    main Sample.no_api_failure Sample.every_path_exists
      Sample.images_AAA Sample.images_BBB
      [Sample.web_01_ctf] true false Sample.world_proxied in
  entries (Py.split Sample.images_two NEWLINE)
    = Ok [("registry.local:5000/web-01-ctf", "sha256:AAA");
          ("registry.local:5000/web-01-ctf", "sha256:BBB")] /\
  In (EvInput (ConfirmDelete "pods" [res_name Sample.web_pod]))
     (trace (snd run)) /\
  In (EvApi core_v1 (delete_namespaced Pods (res_name Sample.web_pod)))
     (trace (snd run)) /\
  managed Sample.proxied_pod = true /\
  In "registry.local:5000/web-01-ctf"
     (map image (spec_containers Sample.proxied_pod)) /\
  fst run_proxied = Ok tt /\
  filter is_proposal (trace (snd run_proxied)) = [] /\
  pods (cluster (snd run_proxied)) = [Sample.proxied_pod].
Proof.
  intros run run_proxied.
  split; [vm_compute; reflexivity|].
  split; [vm_compute; auto 10|]. split; [vm_compute; auto 10|].
  split; [reflexivity|]. split; [vm_compute; auto|].
  repeat split; vm_compute; reflexivity.
Qed.

(** C6 at a changed digest, with the pod of the challenge and the
    proxied pod running: the pod of the challenge alone is proposed. *)
Lemma C6_changed_images_witness :
  let run :=
    build_and_push_images Sample.no_api_failure Sample.every_path_exists
      Sample.images_AAA Sample.images_BBB [Sample.web_01_ctf] false in
  entries (Py.split Sample.images_AAA NEWLINE)
    = Ok [("registry.local:5000/web-01-ctf", "sha256:AAA")] /\
  entries (Py.split Sample.images_BBB NEWLINE)
    = Ok [("registry.local:5000/web-01-ctf", "sha256:BBB")] /\
  Sample.no_api_failure core_v1 (list_namespaced Pods (Some MANAGED))
    = false /\
  Forall (fun pod => spec_containers pod <> [])
    (filter managed (pods (cluster Sample.world_pods))) /\
  filter managed (pods (cluster Sample.world_pods))
    = [Sample.web_pod; Sample.proxied_pod] /\
  exists t,
    events run Sample.world_pods =
      shell_events Sample.every_path_exists [Sample.web_01_ctf]
        ++ EvApi core_v1 (list_namespaced Pods (Some MANAGED))
        :: EvInput (ConfirmDelete "pods" [res_name Sample.web_pod]) :: t.
Proof.
  intros run.
  assert (Hb : entries (Py.split Sample.images_AAA NEWLINE)
               = Ok [("registry.local:5000/web-01-ctf", "sha256:AAA")])
    by (vm_compute; reflexivity).
  assert (Ha : entries (Py.split Sample.images_BBB NEWLINE)
               = Ok [("registry.local:5000/web-01-ctf", "sha256:BBB")])
    by (vm_compute; reflexivity).
  assert (Hc : Forall (fun pod => spec_containers pod <> [])
                 (filter managed (pods (cluster Sample.world_pods)))).
  { repeat constructor; discriminate. }
  split; [exact Hb|]. split; [exact Ha|]. split; [reflexivity|].
  split; [exact Hc|]. split; [reflexivity|].
  destruct (@C6_changed_images Sample.no_api_failure Sample.every_path_exists
              Sample.images_AAA Sample.images_BBB _ _ [Sample.web_01_ctf]
              Sample.world_pods Hb Ha eq_refl Hc)
    as [d [upd [E1 [E2 [_ [_ [_ [_ H]]]]]]]].
  vm_compute in E1. injection E1 as <-.
  vm_compute in E2. injection E2 as <-.
  destruct H as [t [Et _]]; [discriminate | discriminate |].
  exists t. exact Et.
Defined.


Lemma X1_create_or_update_partition_witness :
  no_faults Sample.no_api_failure /\
  serves apps_v1 Deployments = true /\
  let body := deployment_manifest Sample.web_01_ctf in
  let run := create_or_update Sample.no_api_failure apps_v1 Deployments body in
  events run Sample.world_rebuild =
    [EvApi apps_v1 (read_namespaced Deployments "web-01-ctf");
     EvApi apps_v1 (create_namespaced Deployments body)] /\
  events run Sample.world_second =
    [EvApi apps_v1 (read_namespaced Deployments "web-01-ctf");
     EvApi apps_v1 (replace_namespaced Deployments "web-01-ctf" body)] /\
  deployments (cluster (snd (run Sample.world_rebuild)))
    = [Sample.handmade; body].
Proof.
  split; [exact sample_no_faults|]. split; [reflexivity|].
  intros body run.
  destruct (@X1_create_or_update_partition Sample.no_api_failure apps_v1
              Deployments body Sample.world_rebuild sample_no_faults eq_refl)
    as [_ [E1 [C1 _]]].
  destruct (@X1_create_or_update_partition Sample.no_api_failure apps_v1
              Deployments body Sample.world_second sample_no_faults eq_refl)
    as [_ [E2 _]].
  split; [exact E1|]. split; [exact E2|].
  exact (C1 eq_refl).
Defined.

Lemma X2_failed_read_is_taken_for_absence_witness :
  Sample.read_fails apps_v1
    (read_namespaced Deployments (Scanner.id Sample.web_01_ctf)) = true /\
  present (Scanner.id Sample.web_01_ctf)
    (deployments (cluster Sample.world_second)) = true /\
  exists d' w',
    deploy_challenge Sample.read_fails Sample.web_01_ctf
      (mkDeployed [] [] []) Sample.world_second = (Ok d', w') /\
    deployed_deployments d' = [] /\
    deployments (cluster w') = deployments (cluster Sample.world_second) /\
    In "web-01-ctf"
       (names_to_delete (deployments (cluster w')) (deployed_deployments d')).
Proof.
  split; [reflexivity|]. split; [reflexivity|].
  destruct (@X2_failed_read_is_taken_for_absence Sample.read_fails
              Sample.web_01_ctf (mkDeployed [] [] []) Sample.world_second
              eq_refl eq_refl eq_refl (fun H : False => H))
    as [_ [d' [w' H]]].
  exists d', w'. exact H.
Defined.

Lemma X4_confirmation_gate_witness :
  no_faults Sample.no_api_failure /\
  stdin Sample.world_capital = [Line "Y"] /\
  let run := confirm_and_delete Sample.no_api_failure "deployments" apps_v1
               Deployments ["handmade"] in
  fst (run Sample.world_capital) = Ok tt /\
  events run Sample.world_capital =
    [EvInput (ConfirmDelete "deployments" ["handmade"]);
     EvApi apps_v1 (delete_namespaced Deployments "handmade")] /\
  deployments (cluster (snd (run Sample.world_capital))) = [].
Proof.
  split; [exact sample_no_faults|]. split; [reflexivity|].
  intros run.
  assert (Hn : ["handmade"] <> @nil string) by discriminate.
  assert (Hd : NoDup ["handmade"]).
  { constructor; [intros []|constructor]. }
  assert (Hp : forall n, In n ["handmade"] ->
                 present n (stored Deployments (cluster Sample.world_capital))
                   = true).
  { intros n [<-|[]]. reflexivity. }
  destruct (@X4_confirmation_gate Sample.no_api_failure "deployments" apps_v1
              Deployments ["handmade"] Sample.world_capital "Y" []
              sample_no_faults eq_refl Hn Hd Hp eq_refl)
    as [_ [R [E [S _]]]].
  split; [exact R|]. split; [exact E|]. exact S.
Defined.

Lemma X5_interrupts_witness :
  stdin Sample.world_interrupted = [CtrlC] /\
  main Sample.no_api_failure Sample.every_path_exists "" ""
    [Sample.web_01_ctf] false false Sample.world_interrupted =
    (Ok tt,
     mkWorld (cluster Sample.world_interrupted) [EvInput PressEnter] []) /\
  delete_pass Sample.no_api_failure "deployments" apps_v1 apps_v1
    Deployments [] Sample.world_interrupted =
    (Raise KeyboardInterrupt,
     mkWorld (cluster Sample.world_interrupted)
       [EvApi apps_v1 (list_namespaced Deployments None);
        EvInput (ConfirmDelete "deployments" ["handmade"])] []).
Proof.
  split; [reflexivity|].
  destruct (@X5_interrupts Sample.no_api_failure Sample.every_path_exists
              "" "" [Sample.web_01_ctf] false false "deployments" apps_v1
              apps_v1 Deployments [] Sample.world_interrupted [])
    as [M [_ D]].
  split; [exact (M eq_refl)|].
  apply (D eq_refl eq_refl eq_refl). discriminate.
Defined.

Lemma X6_two_runs_in_a_row_witness :
  no_faults Sample.no_api_failure /\
  stdin Sample.world_rebuild = [Line ""; Line "y"; Line "y"] /\
  let run := main Sample.no_api_failure Sample.every_path_exists "" ""
               [Sample.web_01_ctf] false false in
  let w1 := snd (run Sample.world_rebuild) in
  let w2 := mkWorld (cluster w1) (trace w1) [Line ""] in
  fst (run Sample.world_rebuild) = Ok tt /\
  fst (run w2) = Ok tt /\
  cluster (snd (run w2)) = cluster w1 /\
  filter is_mutation (events run w2)
    = replacements Sample.every_path_exists [Sample.web_01_ctf] /\
  filter is_proposal (events run w2) = [].
Proof.
  split; [exact sample_no_faults|]. split; [reflexivity|].
  assert (N1 : forall x : string, NoDup [x]).
  { intros x. constructor; [intros []|constructor]. }
  apply (@X6_two_runs_in_a_row Sample.no_api_failure Sample.every_path_exists
           "" "" [Sample.web_01_ctf] Sample.world_rebuild "" [] "" []
           sample_no_faults (N1 _) (N1 _) (NoDup_nil _) eq_refl eq_refl).
Defined.

Lemma X7_malformed_listing_witness :
  In "WARNING: no digest" (Py.split Sample.images_warning NEWLINE) /\
  Py.split "WARNING: no digest" "__:__" = ["WARNING: no digest"] /\
  main Sample.no_api_failure Sample.every_path_exists
    Sample.images_warning Sample.images_AAA
    [Sample.web_01_ctf] true false Sample.world_rebuild =
    (Raise ValueError,
     mkWorld (cluster Sample.world_rebuild)
       [EvInput PressEnter; EvShell DOCKER_IMAGES] [Line "y"; Line "y"]).
Proof.
  assert (Hin : In "WARNING: no digest"
                  (Py.split Sample.images_warning NEWLINE)).
  { left. reflexivity. }
  assert (Hr : Py.remove_all "WARNING: no digest" "__:__" <> "").
  { vm_compute. discriminate. }
  assert (Hl : List.length (Py.split "WARNING: no digest" "__:__") <> 2%nat).
  { vm_compute. discriminate. }
  split; [exact Hin|]. split; [reflexivity|].
  destruct (@X7_malformed_listing Sample.no_api_failure
              Sample.every_path_exists Sample.images_warning Sample.images_AAA
              "WARNING: no digest" [Sample.web_01_ctf] Sample.world_rebuild
              Hr Hl) as [B _].
  destruct (B Hin) as [_ M].
  exact (M false "" [Line "y"; Line "y"] eq_refl).
Defined.

Lemma X8_unchanged_images_restart_nothing_witness :
  let es := [("registry.local:5000/web-01-ctf", "sha256:AAA")] in
  entries (Py.split Sample.images_AAA NEWLINE) = Ok es /\
  build_and_push_images Sample.no_api_failure Sample.every_path_exists
    Sample.images_AAA Sample.images_AAA [Sample.web_01_ctf] false
    Sample.world_rebuild =
    (Ok tt,
     mkWorld (cluster Sample.world_rebuild)
       (shell_events Sample.every_path_exists [Sample.web_01_ctf])
       (stdin Sample.world_rebuild)).
Proof.
  intros es. split; [reflexivity|].
  assert (Hf : forall r n1 n2 : string,
            In (r, n1) es -> In (r, n2) es -> n1 = n2).
  { intros r n1 n2 [H1|[]] [H2|[]]. congruence. }
  destruct (@X8_unchanged_images_restart_nothing Sample.no_api_failure
              Sample.every_path_exists
              Sample.images_AAA Sample.images_AAA es es
              [Sample.web_01_ctf] Sample.world_rebuild
              eq_refl eq_refl Hf (fun r n H => or_introl H)) as [_ E].
  exact E.
Defined.

Lemma X14_failed_deletion_cuts_the_batch_witness :
  Sample.delete_fails apps_v1 (delete_namespaced Deployments "pwn-02-heap")
    = true /\
  let run := confirm_and_delete Sample.delete_fails "deployments" apps_v1
               Deployments ["handmade"; "pwn-02-heap"] in
  fst (run Sample.world_two) = Raise (ApiException 500) /\
  events run Sample.world_two =
    [EvInput (ConfirmDelete "deployments" ["handmade"; "pwn-02-heap"]);
     EvApi apps_v1 (delete_namespaced Deployments "handmade");
     EvApi apps_v1 (delete_namespaced Deployments "pwn-02-heap")] /\
  deployments (cluster (snd (run Sample.world_two)))
    = [Sample.labelled_deployment].
Proof.
  split; [reflexivity|]. intros run.
  assert (Hf : forall m, In m ["handmade"] ->
                 Sample.delete_fails apps_v1 (delete_namespaced Deployments m)
                   = false).
  { intros m [<-|[]]. reflexivity. }
  assert (Hd : NoDup ["handmade"]).
  { constructor; [intros []|constructor]. }
  assert (Hp : forall m, In m ["handmade"] ->
                 present m (stored Deployments (cluster Sample.world_two))
                   = true).
  { intros m [<-|[]]. reflexivity. }
  destruct (@X14_failed_deletion_cuts_the_batch Sample.delete_fails
              "deployments" apps_v1 Deployments ["handmade"] "pwn-02-heap" []
              Sample.world_two "y" [] eq_refl Hf eq_refl Hd Hp eq_refl
              (or_introl eq_refl)) as [R [E [S _]]].
  split; [exact R|]. split; [exact E|]. exact S.
Defined.

(** *** The scanner on the sample tree *)

Lemma X9_scan_returns_witness :
  let scan :=
    Scan.main SampleTree.os_listdir SampleTree.os_path_isdir
      SampleTree.script_dir SampleTree.os_path_abspath
      SampleTree.load_config in
  scan Scan.CALLENGES_FOLDER =
    Scan.Returned
      [Scanner.mkChallenge "01-ctf"
         "/opt/ctf/challenges/01_Web/0_Easy/01_ctf" 1001 "web" "easy";
       Scanner.mkChallenge "01-ctf"
         "/opt/ctf/challenges/01_Web/1_Hard/01_ctf" 1101 "web" "hard";
       Scanner.mkChallenge "02-sql-injection"
         "/opt/ctf/challenges/01_Web/1_Hard/02_Sql Injection" 1102
         "web" "hard"] /\
  Scan.valid_tree SampleTree.os_listdir SampleTree.os_path_isdir
    SampleTree.load_config SampleTree.root = true.
Proof.
  intros scan.
  assert (E : scan Scan.CALLENGES_FOLDER =
              Scan.Returned
                [Scanner.mkChallenge "01-ctf"
                   "/opt/ctf/challenges/01_Web/0_Easy/01_ctf" 1001
                   "web" "easy";
                 Scanner.mkChallenge "01-ctf"
                   "/opt/ctf/challenges/01_Web/1_Hard/01_ctf" 1101
                   "web" "hard";
                 Scanner.mkChallenge "02-sql-injection"
                   "/opt/ctf/challenges/01_Web/1_Hard/02_Sql Injection" 1102
                   "web" "hard"]).
  { vm_compute. reflexivity. }
  split; [exact E|].
  exact (proj1 (proj1 (X9_scan_returns SampleTree.os_listdir
                         SampleTree.os_path_isdir SampleTree.script_dir
                         SampleTree.os_path_abspath SampleTree.load_config
                         Scan.CALLENGES_FOLDER _) E)).
Defined.

Lemma X10_scan_aborts_witness :
  Scan.valid_tree SampleTree.os_listdir_bad SampleTree.os_path_isdir
    SampleTree.load_config SampleTree.root = false /\
  exists e,
    Scan.main SampleTree.os_listdir_bad SampleTree.os_path_isdir
      SampleTree.script_dir SampleTree.os_path_abspath
      SampleTree.load_config Scan.CALLENGES_FOLDER = Scan.Aborted e.
Proof.
  assert (V : Scan.valid_tree SampleTree.os_listdir_bad
                SampleTree.os_path_isdir SampleTree.load_config
                (Scan.join SampleTree.script_dir [Scan.CALLENGES_FOLDER])
              = false).
  { vm_compute. reflexivity. }
  split; [exact V|].
  destruct (X10_scan_aborts SampleTree.os_listdir_bad
              SampleTree.os_path_isdir SampleTree.script_dir
              SampleTree.os_path_abspath SampleTree.load_config
              Scan.CALLENGES_FOLDER V) as [e [E _]].
  exists e. exact E.
Defined.

Lemma sample_scan :
  Scan.main SampleTree.os_listdir SampleTree.os_path_isdir
    SampleTree.script_dir SampleTree.os_path_abspath
    SampleTree.load_config Scan.CALLENGES_FOLDER =
  Scan.Returned
    (Scan.challenges_of SampleTree.os_listdir SampleTree.os_path_isdir
       SampleTree.os_path_abspath SampleTree.root).
Proof. vm_compute. reflexivity. Qed.

Lemma X11_challenge_fields_witness :
  let ch :=
    Scanner.mkChallenge "02-sql-injection"
      "/opt/ctf/challenges/01_Web/1_Hard/02_Sql Injection" 1102
      "web" "hard" in
  In ch
    (Scan.challenges_of SampleTree.os_listdir SampleTree.os_path_isdir
       SampleTree.os_path_abspath SampleTree.root) /\
  (0 <= Scanner.port ch <= 99999)%Z /\
  Scan.all_chars Scan.is_name_char (Scanner.id ch) = true.
Proof.
  intros ch.
  assert (Hin : In ch
                  (Scan.challenges_of SampleTree.os_listdir
                     SampleTree.os_path_isdir SampleTree.os_path_abspath
                     SampleTree.root)).
  { vm_compute. auto. }
  split; [exact Hin|].
  destruct (X11_challenge_fields SampleTree.os_listdir
              SampleTree.os_path_isdir SampleTree.script_dir
              SampleTree.os_path_abspath SampleTree.load_config
              Scan.CALLENGES_FOLDER ch sample_scan Hin)
    as [P [_ [_ [_ A]]]].
  split; [exact P | exact A].
Defined.

Lemma X12_port_of_prefixes_witness :
  let easy :=
    Scan.challenge_of SampleTree.os_path_abspath SampleTree.root
      "01_Web" "0_Easy" "01_ctf" in
  let hard :=
    Scan.challenge_of SampleTree.os_path_abspath SampleTree.root
      "01_Web" "1_Hard" "01_ctf" in
  In "01_ctf"
    (Scan.listing SampleTree.os_listdir SampleTree.os_path_isdir
       SampleTree.root ["01_Web"; "0_Easy"]) /\
  In "01_ctf"
    (Scan.listing SampleTree.os_listdir SampleTree.os_path_isdir
       SampleTree.root ["01_Web"; "1_Hard"]) /\
  (Scanner.port easy = Scanner.port hard <->
   "01" = "01" /\ "0" = "1" /\ "01" = "01").
Proof.
  intros easy hard.
  assert (H1 : In "01_ctf"
                 (Scan.listing SampleTree.os_listdir SampleTree.os_path_isdir
                    SampleTree.root ["01_Web"; "0_Easy"])).
  { vm_compute. auto. }
  assert (H2 : In "01_ctf"
                 (Scan.listing SampleTree.os_listdir SampleTree.os_path_isdir
                    SampleTree.root ["01_Web"; "1_Hard"])).
  { vm_compute. auto. }
  split; [exact H1|]. split; [exact H2|].
  refine (proj2 (proj2 (X12_port_of_prefixes SampleTree.os_listdir
                          SampleTree.os_path_isdir SampleTree.script_dir
                          SampleTree.os_path_abspath SampleTree.load_config
                          Scan.CALLENGES_FOLDER
                          "01_Web" "0_Easy" "01_ctf" "01_Web" "1_Hard" "01_ctf"
                          sample_scan _ _ H1 _ _ H2))); vm_compute; auto.
Defined.

Lemma X13_id_without_subcategory_witness :
  let easy :=
    Scan.challenge_of SampleTree.os_path_abspath SampleTree.root
      "01_Web" "0_Easy" "01_ctf" in
  let hard :=
    Scan.challenge_of SampleTree.os_path_abspath SampleTree.root
      "01_Web" "1_Hard" "01_ctf" in
  Scanner.id easy = "web-01-ctf" /\
  Scanner.id hard = "web-01-ctf" /\
  Scanner.port easy <> Scanner.port hard.
Proof.
  intros easy hard.
  split; [reflexivity|]. split; [reflexivity|].
  refine (proj2 (proj2 (proj2 (proj2 (proj2
            (X13_id_without_subcategory SampleTree.os_listdir
               SampleTree.os_path_isdir SampleTree.script_dir
               SampleTree.os_path_abspath SampleTree.load_config
               Scan.CALLENGES_FOLDER "01_Web" "0_Easy" "1_Hard" "01_ctf"
               sample_scan _ _ _ _ _))))) _);
    try (vm_compute; auto; fail).
  vm_compute. discriminate.
Defined.

(** *** The script at the sample inputs *)

Lemma X16_clean_option_witness :
  stdin Sample.world_two = [Line "y"] /\
  let r :=
    script Sample.no_api_failure Sample.every_path_exists "" ""
      SampleTree.os_listdir SampleTree.os_path_isdir SampleTree.script_dir
      SampleTree.os_path_abspath SampleTree.load_config
      (mkArgs None false false false true) Sample.world_two in
  asked r = [SureToDelete] /\
  ending r <> Completed /\
  pods (cluster (world r)) = pods (cluster Sample.world_two) /\
  autoscalers (cluster (world r)) = autoscalers (cluster Sample.world_two).
Proof.
  split; [reflexivity|]. intros r.
  destruct (@X16_clean_option Sample.no_api_failure Sample.every_path_exists
              "" "" SampleTree.os_listdir SampleTree.os_path_isdir
              SampleTree.script_dir SampleTree.os_path_abspath
              SampleTree.load_config (mkArgs None false false false true)
              Sample.world_two "y" [] eq_refl eq_refl)
    as [A [B [_ [_ [C [D _]]]]]].
  split; [exact A|]. split; [exact B|]. split; [exact C | exact D].
Defined.

Lemma X17_invalid_tree_changes_nothing_witness :
  Scan.valid_tree SampleTree.os_listdir_bad SampleTree.os_path_isdir
    SampleTree.load_config SampleTree.root = false /\
  let r :=
    script Sample.no_api_failure Sample.every_path_exists "" ""
      SampleTree.os_listdir_bad SampleTree.os_path_isdir
      SampleTree.script_dir SampleTree.os_path_abspath SampleTree.load_config
      (mkArgs None false false false false) Sample.world_rebuild in
  cluster (world r) = cluster Sample.world_rebuild /\
  trace (world r) = [] /\
  ending r <> Completed.
Proof.
  assert (V : Scan.valid_tree SampleTree.os_listdir_bad
                SampleTree.os_path_isdir SampleTree.load_config
                (Scan.join SampleTree.script_dir [Scan.CALLENGES_FOLDER])
              = false).
  { vm_compute. reflexivity. }
  split; [exact V|]. intros r.
  destruct (@X17_invalid_tree_changes_nothing Sample.no_api_failure
              Sample.every_path_exists "" "" SampleTree.os_listdir_bad
              SampleTree.os_path_isdir SampleTree.script_dir
              SampleTree.os_path_abspath SampleTree.load_config
              (mkArgs None false false false false) Sample.world_rebuild
              eq_refl V) as [A [B [C _]]].
  split; [exact A|]. split; [exact B | exact C].
Defined.

Lemma X18_script_settles_witness :
  Scan.valid_tree SampleTree.os_listdir SampleTree.os_path_isdir
    SampleTree.load_config SampleTree.root = true /\
  map Scanner.id
    (filter (has_dockerfile SampleTree.os_path_exists)
       (Scan.challenges_of SampleTree.os_listdir SampleTree.os_path_isdir
          SampleTree.os_path_abspath SampleTree.root))
    = ["web-01-ctf"; "web-02-sql-injection"] /\
  let r :=
    script Sample.no_api_failure SampleTree.os_path_exists "" ""
      SampleTree.os_listdir SampleTree.os_path_isdir SampleTree.script_dir
      SampleTree.os_path_abspath SampleTree.load_config
      (mkArgs None false false false false) Sample.world_rebuild in
  ending r = Completed /\
  settled SampleTree.os_path_exists
    (Scan.challenges_of SampleTree.os_listdir SampleTree.os_path_isdir
       SampleTree.os_path_abspath SampleTree.root)
    (cluster (world r)).
Proof.
  assert (V : Scan.valid_tree SampleTree.os_listdir SampleTree.os_path_isdir
                SampleTree.load_config
                (Scan.join SampleTree.script_dir [Scan.CALLENGES_FOLDER])
              = true).
  { vm_compute. reflexivity. }
  assert (I : map Scanner.id
                (filter (has_dockerfile SampleTree.os_path_exists)
                   (Scan.challenges_of SampleTree.os_listdir
                      SampleTree.os_path_isdir SampleTree.os_path_abspath
                      (Scan.join SampleTree.script_dir
                         [Scan.CALLENGES_FOLDER])))
              = ["web-01-ctf"; "web-02-sql-injection"]).
  { vm_compute. reflexivity. }
  split; [exact V|]. split; [exact I|].
  assert (N1 : forall x : string, NoDup [x]).
  { intros x. constructor; [intros []|constructor]. }
  assert (N2 : NoDup ["web-01-ctf"; "web-02-sql-injection"]).
  { constructor; [|apply N1]. intros [H|[]]. discriminate H. }
  rewrite <- I in N2.
  exact (@X18_script_settles Sample.no_api_failure SampleTree.os_path_exists
           "" "" SampleTree.os_listdir SampleTree.os_path_isdir
           SampleTree.script_dir SampleTree.os_path_abspath
           SampleTree.load_config (mkArgs None false false false false)
           Sample.world_rebuild "" "" [] eq_refl eq_refl V sample_no_faults
           N2 (N1 _) (NoDup_nil _) eq_refl eq_refl).
Defined.

(** *** The synchroniser at the sample server *)

Lemma X19_id_round_trip_witness :
  Ctfd.search (Ctfd.body_description
                 (Ctfd.challenge_body SampleCtfd.host SampleCtfd.easy))
    = Some "web-01-ctf" /\
  Ctfd.get_challenge SampleCtfd.server SampleCtfd.env_key (Ctfd.JNum 7) SampleCtfd.start =
    (Ctfd.Ok (Ctfd.JNum 7, "web-01-ctf"),
     Ctfd.mkState
       [Ctfd.Sent (Ctfd.request SampleCtfd.env_key Ctfd.GET (Ctfd.challenges_id (Ctfd.JNum 7))
                     Ctfd.nothing)]
       []).
Proof.
  exact (@X19_id_round_trip SampleCtfd.server SampleCtfd.host
           SampleCtfd.env_key SampleCtfd.easy (Ctfd.JNum 7) SampleCtfd.start 200
           (SampleCtfd.stored
              (Ctfd.body_description
                 (Ctfd.challenge_body SampleCtfd.host SampleCtfd.easy)))
           (Ctfd.JObject
              [("id", Ctfd.JNum 7);
               ("description",
                Ctfd.JStr
                  (Ctfd.body_description
                     (Ctfd.challenge_body SampleCtfd.host SampleCtfd.easy)))])
           (Ctfd.JNum 7)
           eq_refl eq_refl eq_refl eq_refl eq_refl eq_refl).
Defined.

Lemma X20_unmarked_challenge_stops_the_sync_witness :
  Ctfd.search "Made in the admin panel." = None /\
  Ctfd.main SampleCtfd.server_by_hand SampleCtfd.host SampleCtfd.can_open
    SampleCtfd.env_key SampleCtfd.given_key
    [SampleCtfd.easy] SampleCtfd.start =
    (Ctfd.Raise Ctfd.AttributeError,
     Ctfd.mkState
       [Ctfd.Sent (Ctfd.request SampleCtfd.env_key Ctfd.GET Ctfd.challenges_
                     (Ctfd.params_view "admin"));
        Ctfd.Sent (Ctfd.request SampleCtfd.env_key Ctfd.GET (Ctfd.challenges_id (Ctfd.JNum 7))
                     Ctfd.nothing)]
       []).
Proof.
  split; [reflexivity|].
  exact (@X20_unmarked_challenge_stops_the_sync SampleCtfd.server_by_hand
           SampleCtfd.host SampleCtfd.can_open SampleCtfd.env_key
           SampleCtfd.given_key [SampleCtfd.easy]
           SampleCtfd.start 200
           (Ctfd.JObject
              [("data", Ctfd.JList [Ctfd.JObject [("id", Ctfd.JNum 7)]])])
           (Ctfd.JObject [("id", Ctfd.JNum 7)]) [] (Ctfd.JNum 7) 200
           (SampleCtfd.stored "Made in the admin panel.")
           (Ctfd.JObject
              [("id", Ctfd.JNum 7);
               ("description", Ctfd.JStr "Made in the admin panel.")])
           "Made in the admin panel."
           eq_refl eq_refl eq_refl eq_refl eq_refl eq_refl eq_refl).
Defined.

Lemma sample_get_challenges :
  Ctfd.get_challenges SampleCtfd.server SampleCtfd.env_key
    SampleCtfd.start =
    (Ctfd.Ok [("web-01-ctf", Ctfd.JNum 7)],
     snd (Ctfd.get_challenges SampleCtfd.server SampleCtfd.env_key
    SampleCtfd.start)).
Proof. vm_compute. reflexivity. Qed.

Lemma X22_creations_and_updates_witness :
  Ctfd.get_challenges SampleCtfd.server SampleCtfd.env_key
    SampleCtfd.start =
    (Ctfd.Ok [("web-01-ctf", Ctfd.JNum 7)],
     snd (Ctfd.get_challenges SampleCtfd.server SampleCtfd.env_key
    SampleCtfd.start)) /\
  let run :=
    Ctfd.main SampleCtfd.server SampleCtfd.host SampleCtfd.can_open
      SampleCtfd.env_key SampleCtfd.given_key
      [SampleCtfd.easy] in
  exists sent rest,
    Ctfd.writes SampleCtfd.host SampleCtfd.env_key [SampleCtfd.easy]
      [("web-01-ctf", Ctfd.JNum 7)] = sent ++ rest /\
    filter Ctfd.is_write (Ctfd.steps run SampleCtfd.start)
      = map Ctfd.Sent sent /\
    (fst (run SampleCtfd.start) = Ctfd.Ok tt -> rest = []).
Proof.
  split; [exact sample_get_challenges|].
  exact (@X22_creations_and_updates SampleCtfd.server SampleCtfd.host
           SampleCtfd.can_open SampleCtfd.env_key SampleCtfd.given_key [SampleCtfd.easy] SampleCtfd.start _ _
           sample_get_challenges).
Defined.

Lemma X24_same_id_twice_witness :
  Ctfd.id SampleCtfd.easy = Ctfd.id SampleCtfd.hard /\
  let run :=
    Ctfd.main SampleCtfd.server SampleCtfd.host SampleCtfd.can_open
      SampleCtfd.env_key SampleCtfd.given_key
      [SampleCtfd.easy; SampleCtfd.hard] in
  fst (run SampleCtfd.start) = Ctfd.Ok tt /\
  map (fun e =>
         match e with
         | Ctfd.Sent r => [(Ctfd.method r, Ctfd.endpoint r)]
         | _ => []
         end)
    (filter Ctfd.is_write (Ctfd.steps run SampleCtfd.start))
  = [[(Ctfd.PATCH, Ctfd.challenges_id (Ctfd.JNum 7))];
     [(Ctfd.POST, Ctfd.challenges_)]].
Proof.
  split; [reflexivity|]. cbv zeta.
  assert (R : fst (Ctfd.main SampleCtfd.server SampleCtfd.host
                     SampleCtfd.can_open SampleCtfd.env_key
                     SampleCtfd.given_key [SampleCtfd.easy; SampleCtfd.hard]
                     SampleCtfd.start) = Ctfd.Ok tt).
  { vm_compute. reflexivity. }
  split; [exact R|].
  assert (N : Ctfd.JNum 7 <> Ctfd.JNull) by discriminate.
  rewrite (@X24_same_id_twice SampleCtfd.server SampleCtfd.host
             SampleCtfd.can_open SampleCtfd.env_key SampleCtfd.given_key
             SampleCtfd.easy SampleCtfd.hard
             SampleCtfd.start _ _ (Ctfd.JNum 7)
             eq_refl sample_get_challenges eq_refl N R).
  reflexivity.
Defined.
